(** * GPS track simplification (utils/simplifier.py): a shallow embedding

    The class [GPSSimplifier] projects a latitude/longitude track onto a
    plane (equirectangular projection around the mean latitude) and runs an
    iterative, stack based Ramer-Douglas-Peucker reduction on the projected
    points.  NumPy's float64 is modelled by Rocq's primitive binary64
    floats, Python integers by [Z], NumPy arrays and Python lists by
    [list], exceptions by the [Raise] outcome. *)

From Stdlib Require Import ZArith Lia Floats String.
From stdpp Require Import base list sorting gmap strings.
From Equations Require Import Equations.

Set Default Proof Using "Type".
Local Open Scope Z_scope.

(** ** Outcomes of Python calls *)

Inductive exn : Set :=
  | IndexError
  | KeyError
  | ValueError (msg : string).

(** [Timeout] is the outcome of a loop that was cut after the number of
    iterations it was allowed; the theorems show it never occurs. *)
Inductive outcome (A : Type) : Type :=
  | Ret (a : A)
  | Raise (e : exn)
  | Timeout.
Arguments Ret {A} a.
Arguments Raise {A} e.
Arguments Timeout {A}.

Definition bind {A B} (m : outcome A) (k : A -> outcome B) : outcome B :=
  match m with
  | Ret a => k a
  | Raise e => Raise e
  | Timeout => Timeout
  end.

Notation "'call' x <~ m ; k" := (bind m (fun x => k))
  (at level 10, x name, m at level 100, k at level 200, only parsing).

(** ** Python sequences indexed by integers *)

Section PySeq.
Context {A : Type}.

Definition len (l : list A) : Z := Z.of_nat (length l).

(** A negative index counts from the end. *)
Definition py_norm (l : list A) (i : Z) : Z :=
  if i <? 0 then i + len l else i.

(** [l[i]] *)
Definition py_getitem (l : list A) (i : Z) : outcome A :=
  let k := py_norm l i in
  if (0 <=? k) && (k <? len l) then
    match l !! Z.to_nat k with
    | Some x => Ret x
    | None => Raise IndexError
    end
  else Raise IndexError.

(** [l[i] = v] *)
Definition py_setitem (l : list A) (i : Z) (v : A) : outcome (list A) :=
  let k := py_norm l i in
  if (0 <=? k) && (k <? len l) then Ret (<[Z.to_nat k := v]> l)
  else Raise IndexError.

(** The bound of a slice: negative counts from the end, then clamped. *)
Definition py_bound (l : list A) (i : Z) : Z :=
  Z.min (len l) (Z.max 0 (py_norm l i)).

(** [l[lo:hi]] *)
Definition py_slice (l : list A) (lo hi : Z) : list A :=
  let lo' := py_bound l lo in
  let hi' := py_bound l hi in
  take (Z.to_nat (hi' - lo')) (drop (Z.to_nat lo') l).

(** [l[idx]] for an integer array [idx] *)
Fixpoint py_take (l : list A) (idx : list Z) : outcome (list A) :=
  match idx with
  | [] => Ret []
  | i :: idx' =>
      call x <~ py_getitem l i ;
      call xs <~ py_take l idx' ;
      Ret (x :: xs)
  end.
End PySeq.

(** [np.arange(n)] *)
Definition arange (n : nat) : list Z := Z.of_nat <$> seq 0 n.

(** [np.nonzero(keep)[0]] *)
Definition nonzero (keep : list bool) : list Z :=
  Z.of_nat <$> filter (fun k => keep !! k = Some true) (seq 0 (length keep)).

(** ** float64 arithmetic of NumPy *)

Module F64.
Local Open Scope float_scope.

(** [npy_isnan] *)
Definition isnan (x : float) : bool := PrimFloat.is_nan x.

(** [x > y] *)
Definition gt (x y : float) : bool := y <? x.

(** The kernels of [np.clip] on floats: [_NPY_MAX], [_NPY_MIN] and
    [_NPY_CLIP]; a NaN first argument is returned.  On -0.0 against the
    bound 0.0 a vectorised kernel may return the other zero; the sign of
    a zero parameter does not reach the distance. *)
Definition npy_max (a b : float) : float :=
  if isnan a then a else if gt a b then a else b.
Definition npy_min (a b : float) : float :=
  if isnan a then a else if a <? b then a else b.
Definition clip (x lo hi : float) : float := npy_min (npy_max x lo) hi.

Definition NPY_PI : float := 0x1.921fb54442d18p+1.

(** [np.deg2rad] *)
Definition deg2rad (x : float) : float := x * (NPY_PI / 180).

(** The scan of [np.argmax] over float64 ([DOUBLE_argmax]): [mp] is the
    running maximum, found at [mi]; [i] is the position of the head of
    [l].  The scan stops at the first NaN. *)
Fixpoint argmax_scan (mp : float) (mi i : nat) (l : list float) : nat :=
  match l with
  | [] => mi
  | x :: r =>
      if negb (x <=? mp) then
        if isnan x then i else argmax_scan x i (S i) r
      else argmax_scan mp mi (S i) r
  end.

(** [np.argmax(l)] for a non-empty [l]. *)
Definition argmax (l : list float) : nat :=
  match l with
  | [] => 0%nat
  | x :: r => if isnan x then 0%nat else argmax_scan x 0 1 r
  end.
End F64.

(** ** Planar points: the rows of the Nx2 array *)

Record point : Set := mkPoint { px : float; py : float }.

Module Vec.
Local Open Scope float_scope.

Definition sub (u v : point) : point := mkPoint (px u - px v) (py u - py v).
Definition add (u v : point) : point := mkPoint (px u + px v) (py u + py v).
Definition scale (t : float) (v : point) : point := mkPoint (t * px v) (t * py v).
(** [np.dot] of two rows.  The two products and the sum are rounded one
    by one; a BLAS that fuses a product with the sum may differ in the
    last bit.  The theorems below hold for the distance as it is computed
    and do not rest on how the dot product rounds. *)
Definition dot (u v : point) : float := px u * px v + py u * py v.
(** [np.linalg.norm] of a row: the square root of its dot product with itself *)
Definition norm (v : point) : float := PrimFloat.sqrt (dot v v).
End Vec.

(** ** The class GPSSimplifier *)

Record GPSSimplifier : Set := mkSimplifier { epsilon_meters : float }.

(** [GPSSimplifier()] : the default tolerance is 10 meters. *)
Definition default_simplifier : GPSSimplifier := mkSimplifier 10%float.

Definition EARTH_RADIUS_M : float := 6371000%float.

(** The projection parameter of [p] on the line through [a] and [b]. *)
Definition seg_param (p a b : point) : float :=
  let ab := Vec.sub b a in
  let ap := Vec.sub p a in
  (Vec.dot ap ab / Vec.dot ab ab)%float.

Definition _point_segment_distance_numpy (p a b : point) : float :=
  let ab := Vec.sub b a in
  let ap := Vec.sub p a in
  let ab_len2 := Vec.dot ab ab in
  if (ab_len2 =? 0)%float then Vec.norm ap
  else
    let t := (Vec.dot ap ab / ab_len2)%float in
    let t := F64.clip t 0 1 in
    let nearest := Vec.add a (Vec.scale t ab) in
    Vec.norm (Vec.sub p nearest).

(** The distances of the points of [points_xy[i+1:j]] to the segment
    from [a] to [b]. *)
Definition segment_distances (points_xy : list point) (i j : Z) (a b : point)
  : list float :=
  (fun p => _point_segment_distance_numpy p a b) <$> py_slice points_xy (i + 1) j.

(** The farthest point of a range: [(max_dist, max_idx)] as the loop
    body leaves them. *)
Definition farthest (distances : list float) (i : Z) : float * Z :=
  if 0 <? len distances then
    let max_idx_rel := F64.argmax distances in
    (nth max_idx_rel distances nan, i + 1 + Z.of_nat max_idx_rel)
  else ((-1)%float, -1).

(** The [while stack:] loop, cut after [fuel] iterations.  The head of
    [stack] is its top. *)
Fixpoint rdp_loop (fuel : nat) (points_xy : list point) (epsilon : float)
    (stack : list (Z * Z)) (keep : list bool) : outcome (list bool) :=
  match fuel with
  | O => Timeout
  | S fuel' =>
      match stack with
      | [] => Ret keep
      | (i, j) :: stack' =>
          if j - i <=? 1 then rdp_loop fuel' points_xy epsilon stack' keep
          else
            call a <~ py_getitem points_xy i ;
            call b <~ py_getitem points_xy j ;
            let distances := segment_distances points_xy i j a b in
            let '(max_dist, max_idx) := farthest distances i in
            if F64.gt max_dist epsilon then
              call keep' <~ py_setitem keep max_idx true ;
              rdp_loop fuel' points_xy epsilon
                ((max_idx, j) :: (i, max_idx) :: stack') keep'
            else rdp_loop fuel' points_xy epsilon stack' keep
      end
  end.

(** The number of iterations granted to the loop on [n] points: every
    iteration either removes a range of the stack or splits one in two
    shorter ones, so [2 * n] iterations are never reached. *)
Definition loop_budget (n : nat) : nat := 2 * n.

Definition _rdp_indices_numpy (points_xy : list point) (epsilon : float)
  : outcome (list Z) :=
  let n := length points_xy in
  if (n <=? 2)%nat then Ret (arange n)
  else
    let stack := [(0, Z.of_nat n - 1)] in
    let keep := replicate n false in
    call keep <~ py_setitem keep 0 true ;
    call keep <~ py_setitem keep (-1) true ;
    call keep <~ rdp_loop (loop_budget n) points_xy epsilon stack keep ;
    Ret (nonzero keep).

Definition rdp_indices (points_xy : list point) (epsilon : float)
  : outcome (list Z) :=
  if len points_xy =? 0 then Ret []
  else _rdp_indices_numpy points_xy epsilon.

Example rdp_triangle :
  rdp_indices [mkPoint 0 0; mkPoint 1 1; mkPoint 2 0; mkPoint 3 0.25; mkPoint 4 0] 0.5
  = Ret [0; 1; 2; 4].
Proof. vm_compute. reflexivity. Qed.

(** ** The planar projector *)

(** [np.column_stack((x, y))] of two one-dimensional arrays: an Nx2 array,
    or a [ValueError] when their lengths differ. *)
Definition column_stack (x y : list float) : outcome (list point) :=
  if (length x =? length y)%nat then Ret (zip_with mkPoint x y)
  else Raise (ValueError "array dimensions must match").

Section Projector.
(** NumPy's cosine and mean are taken as they come: the projector is
    modelled for any [np.cos] and [np.mean]. *)
Variable np_cos : float -> float.
Variable np_mean : list float -> float.

Definition latlon_to_xy (latitudes longitudes : list float)
  : outcome (list point) :=
  if len latitudes =? 0 then Ret []
  else
    let lat0_rad := F64.deg2rad (np_mean latitudes) in
    let cos_lat0 := np_cos lat0_rad in
    let lat_rad := F64.deg2rad <$> latitudes in
    let lon_rad := F64.deg2rad <$> longitudes in
    let x := (fun l => EARTH_RADIUS_M * l * cos_lat0)%float <$> lon_rad in
    let y := (fun l => EARTH_RADIUS_M * l)%float <$> lat_rad in
    column_stack x y.

(** *** Tracks in their two shapes *)

(** A table: the names of its columns and its rows, a cell per column. *)
Record DataFrame : Set := mkDataFrame {
  df_columns : list string;
  df_rows : list (list float)
}.

Fixpoint col_index (name : string) (columns : list string) : option nat :=
  match columns with
  | [] => None
  | c :: cs => if String.eqb c name then Some 0%nat else S <$> col_index name cs
  end.

Definition has_column (df : DataFrame) (name : string) : bool :=
  match col_index name (df_columns df) with Some _ => true | None => false end.

(** [df[name].to_numpy()] *)
Definition df_column (df : DataFrame) (name : string) : outcome (list float) :=
  match col_index name (df_columns df) with
  | Some c => Ret ((fun row => nth c row nan) <$> df_rows df)
  | None => Raise KeyError
  end.

(** [df.iloc[indices].reset_index(drop=True)] *)
Definition df_iloc (df : DataFrame) (indices : list Z) : outcome DataFrame :=
  call rows <~ py_take (df_rows df) indices ;
  Ret (mkDataFrame (df_columns df) rows).

Inductive track : Set :=
  | Table (df : DataFrame)
  | Arrays (latitudes longitudes : list float).

Definition _simplify_dataframe (df : DataFrame) (epsilon : float)
  : outcome DataFrame :=
  if negb (has_column df "latitude" && has_column df "longitude") then
    Raise (ValueError "DataFrame must contain 'latitude' and 'longitude' columns")
  else if (length (df_rows df) <=? 2)%nat then Ret df
  else
    call latitudes <~ df_column df "latitude" ;
    call longitudes <~ df_column df "longitude" ;
    call points_xy <~ latlon_to_xy latitudes longitudes ;
    call indices <~ rdp_indices points_xy epsilon ;
    df_iloc df indices.

Definition _simplify_arrays (latitudes longitudes : list float) (epsilon : float)
  : outcome (list float * list float) :=
  if (length latitudes <=? 2)%nat then Ret (latitudes, longitudes)
  else
    call points_xy <~ latlon_to_xy latitudes longitudes ;
    call indices <~ rdp_indices points_xy epsilon ;
    call lats <~ py_take latitudes indices ;
    call lons <~ py_take longitudes indices ;
    Ret (lats, lons).

Definition simplify (self : GPSSimplifier) (data : track)
    (epsilon_meters_arg : option float) : outcome track :=
  let epsilon :=
    match epsilon_meters_arg with
    | Some e => e
    | None => epsilon_meters self
    end in
  match data with
  | Table df =>
      call r <~ _simplify_dataframe df epsilon ; Ret (Table r)
  | Arrays latitudes longitudes =>
      call r <~ _simplify_arrays latitudes longitudes epsilon ;
      Ret (Arrays r.1 r.2)
  end.
End Projector.

(** *** One cosine and one mean to run the projector on concrete tracks *)

(** The mean as NumPy computes it on an array of fewer than eight
    elements: the sum from left to right, divided by the length. *)
Definition mean_seq (l : list float) : float :=
  (fold_left PrimFloat.add l 0 / PrimFloat.of_uint63 (Uint63.of_Z (len l)))%float.

(** The cosine by its series up to the power 24, in Horner form on the
    square of the angle: it is 1 at 0 and agrees with the library cosine
    to the last digits on the range of a latitude in radians. *)
Definition cos_series (x : float) : float :=
  let z := (x * x)%float in
  fold_right (fun k acc => (1 - z / k * acc)%float) 1%float
    [2; 12; 30; 56; 90; 132; 182; 240; 306; 380; 462; 552]%float.

Example cos_series_0 : cos_series 0 = 1%float.
Proof. vm_compute. reflexivity. Qed.

Example cos_series_15 : cos_series (F64.deg2rad 15) = 0x1.ee8dd4748bf15p-1%float.
Proof. vm_compute. reflexivity. Qed.

(** * Properties *)

(** ** The order of binary64 numbers

    The comparisons of primitive floats are specified on [spec_float].
    Every number that is not a NaN gets a key, a triple of integers, and
    the comparison of two numbers is the lexicographic comparison of their
    keys. *)

Module FloatOrder.

Definition key3 : Set := (Z * Z * Z)%type.

Definition sf_key (x : spec_float) : option key3 :=
  match x with
  | S754_nan => None
  | S754_zero _ => Some (0, 0, 0)
  | S754_infinity false => Some (2, 0, 0)
  | S754_infinity true => Some (-2, 0, 0)
  | S754_finite false m e => Some (1, e, Zpos m)
  | S754_finite true m e => Some (-1, - e, Zneg m)
  end.

Definition lex (a b : key3) : comparison :=
  match a.1.1 ?= b.1.1 with
  | Eq => match a.1.2 ?= b.1.2 with
          | Eq => a.2 ?= b.2
          | c => c
          end
  | c => c
  end.

Definition key (x : float) : option key3 := sf_key (Prim2SF x).

Lemma SFcompare_key (x y : spec_float) :
  SFcompare x y =
  match sf_key x, sf_key y with
  | Some a, Some b => Some (lex a b)
  | _, _ => None
  end.
Proof.
  destruct x as [[]|[]| |[] mx ex], y as [[]|[]| |[] my ey];
    try reflexivity; cbn [SFcompare sf_key]; f_equal;
    unfold lex; cbn [fst snd].
  change (-1 ?= -1) with Eq; cbv iota. rewrite Z.compare_opp.
  rewrite (Z.compare_antisym ex ey).
  destruct (ex ?= ey); reflexivity.
Qed.

Ltac lex_solve :=
  unfold lex; intros;
  repeat match goal with a : key3 |- _ => destruct a as [[? ?] ?] end;
  cbn [fst snd] in *;
  repeat match goal with
    | H : context [?u ?= ?v] |- _ => destruct (Z.compare_spec u v)
    | |- context [?u ?= ?v] => destruct (Z.compare_spec u v)
    end;
  first [ congruence | lia ].

Lemma lex_refl a : lex a a = Eq.
Proof. unfold lex. rewrite !Z.compare_refl. reflexivity. Qed.

Lemma lex_lt_trans a b c : lex a b = Lt -> lex b c = Lt -> lex a c = Lt.
Proof. lex_solve. Qed.

Lemma lex_le_lt_trans a b c : lex a b <> Gt -> lex b c = Lt -> lex a c = Lt.
Proof. lex_solve. Qed.

Lemma lex_lt_le_trans a b c : lex a b = Lt -> lex b c <> Gt -> lex a c = Lt.
Proof. lex_solve. Qed.

Lemma lex_le_trans a b c : lex a b <> Gt -> lex b c <> Gt -> lex a c <> Gt.
Proof. lex_solve. Qed.

Lemma lex_gt_lt a b : lex a b = Gt <-> lex b a = Lt.
Proof. split; lex_solve. Qed.

(** *** The comparisons of floats through keys *)

Definition is_lt (c : comparison) : bool :=
  match c with Lt => true | _ => false end.
Definition is_le (c : comparison) : bool :=
  match c with Gt => false | _ => true end.

Lemma ltb_key (x y : float) :
  (x <? y)%float =
  match key x, key y with
  | Some a, Some b => is_lt (lex a b)
  | _, _ => false
  end.
Proof.
  rewrite ltb_spec. unfold SFltb, key. rewrite SFcompare_key.
  destruct (sf_key (Prim2SF x)), (sf_key (Prim2SF y)); reflexivity.
Qed.

Lemma leb_key (x y : float) :
  (x <=? y)%float =
  match key x, key y with
  | Some a, Some b => is_le (lex a b)
  | _, _ => false
  end.
Proof.
  rewrite leb_spec. unfold SFleb, key. rewrite SFcompare_key.
  destruct (sf_key (Prim2SF x)), (sf_key (Prim2SF y)); reflexivity.
Qed.

Lemma is_nan_key (x : float) :
  PrimFloat.is_nan x = match key x with Some _ => false | None => true end.
Proof.
  unfold PrimFloat.is_nan. rewrite FloatAxioms.eqb_spec. unfold SFeqb, key.
  rewrite SFcompare_key. destruct (sf_key (Prim2SF x)); [|reflexivity].
  rewrite lex_refl. reflexivity.
Qed.

Ltac to_keys :=
  unfold F64.gt, F64.isnan in *;
  rewrite ?ltb_key, ?leb_key, ?is_nan_key in *;
  repeat match goal with
    | H : context [key ?x] |- _ => destruct (key x)
    | |- context [key ?x] => destruct (key x)
    end;
  try discriminate; try reflexivity.

Ltac by_lex :=
  intros; to_keys;
  repeat match goal with
    | H : is_lt ?c = true |- _ => assert (c = Lt) by (destruct c; done); clear H
    | H : is_le ?c = true |- _ => assert (c <> Gt) by (destruct c; done); clear H
    | H : is_le ?c = false |- _ => assert (c = Gt) by (destruct c; done); clear H
    end.

Lemma ltb_trans (x y z : float) :
  (x <? y)%float = true -> (y <? z)%float = true -> (x <? z)%float = true.
Proof.
  by_lex.
  match goal with |- is_lt ?c = true => assert (c = Lt) as -> by eauto using lex_lt_trans end.
  reflexivity.
Qed.

Lemma leb_ltb_trans (x y z : float) :
  (x <=? y)%float = true -> (y <? z)%float = true -> (x <? z)%float = true.
Proof.
  by_lex.
  match goal with |- is_lt ?c = true => assert (c = Lt) as -> by eauto using lex_le_lt_trans end.
  reflexivity.
Qed.

Lemma ltb_leb_trans (x y z : float) :
  (x <? y)%float = true -> (y <=? z)%float = true -> (x <? z)%float = true.
Proof.
  by_lex.
  match goal with |- is_lt ?c = true => assert (c = Lt) as -> by eauto using lex_lt_le_trans end.
  reflexivity.
Qed.

Lemma leb_trans (x y z : float) :
  (x <=? y)%float = true -> (y <=? z)%float = true -> (x <=? z)%float = true.
Proof.
  by_lex.
  match goal with |- is_le ?c = true =>
    assert (c <> Gt) by eauto using lex_le_trans; destruct c; done end.
Qed.

Lemma ltb_leb (x y : float) : (x <? y)%float = true -> (x <=? y)%float = true.
Proof.
  by_lex. match goal with H : _ = Lt |- _ => rewrite H end. reflexivity.
Qed.

Lemma leb_refl (x : float) : PrimFloat.is_nan x = false -> (x <=? x)%float = true.
Proof. intros. to_keys. rewrite lex_refl. reflexivity. Qed.

(** Two numbers that are not NaN are comparable. *)
Lemma not_leb_ltb (x y : float) :
  PrimFloat.is_nan x = false -> PrimFloat.is_nan y = false ->
  (x <=? y)%float = false -> (y <? x)%float = true.
Proof.
  by_lex.
  match goal with H : _ = Gt |- _ => apply lex_gt_lt in H; rewrite H end.
  reflexivity.
Qed.

Lemma ltb_not_leb (x y : float) :
  (y <? x)%float = true -> (x <=? y)%float = false.
Proof.
  by_lex.
  match goal with H : _ = Lt |- _ => apply lex_gt_lt in H; rewrite H end.
  reflexivity.
Qed.

Lemma leb_not_nan (x y : float) :
  (x <=? y)%float = true -> PrimFloat.is_nan x = false /\ PrimFloat.is_nan y = false.
Proof. intros. to_keys. done. Qed.

Lemma ltb_not_nan (x y : float) :
  (x <? y)%float = true -> PrimFloat.is_nan x = false /\ PrimFloat.is_nan y = false.
Proof. intros. to_keys. done. Qed.

End FloatOrder.

(** ** Python sequences at indices that are in range *)

Section PySeqFacts.
Context {A : Type}.
Implicit Types (l : list A) (k : nat).

Lemma py_getitem_nat l k x :
  l !! k = Some x -> py_getitem l (Z.of_nat k) = Ret x.
Proof.
  intros Hk. pose proof (lookup_lt_Some _ _ _ Hk) as Hlt.
  unfold py_getitem, py_norm, len.
  destruct (Z.ltb_spec (Z.of_nat k) 0); [lia|].
  destruct (Z.leb_spec 0 (Z.of_nat k)); [|lia].
  destruct (Z.ltb_spec (Z.of_nat k) (Z.of_nat (length l))); [|lia].
  cbn [andb]. rewrite Nat2Z.id, Hk. reflexivity.
Qed.

Lemma py_setitem_nat l k v :
  (k < length l)%nat -> py_setitem l (Z.of_nat k) v = Ret (<[k := v]> l).
Proof.
  intros Hlt. unfold py_setitem, py_norm, len.
  destruct (Z.ltb_spec (Z.of_nat k) 0); [lia|].
  destruct (Z.leb_spec 0 (Z.of_nat k)); [|lia].
  destruct (Z.ltb_spec (Z.of_nat k) (Z.of_nat (length l))); [|lia].
  cbn [andb]. rewrite Nat2Z.id. reflexivity.
Qed.

Lemma py_setitem_last l v :
  (0 < length l)%nat -> py_setitem l (-1) v = Ret (<[(length l - 1)%nat := v]> l).
Proof.
  intros Hlt. unfold py_setitem, py_norm, len. cbn [Z.ltb Z.compare].
  destruct (Z.leb_spec 0 (-1 + Z.of_nat (length l))); [|lia].
  destruct (Z.ltb_spec (-1 + Z.of_nat (length l)) (Z.of_nat (length l))); [|lia].
  cbn [andb]. do 2 f_equal. lia.
Qed.

Lemma py_slice_nat l i j :
  (i <= j <= length l)%nat ->
  py_slice l (Z.of_nat i) (Z.of_nat j) = take (j - i) (drop i l).
Proof.
  intros Hij. unfold py_slice, py_bound, py_norm, len.
  destruct (Z.ltb_spec (Z.of_nat i) 0); [lia|].
  destruct (Z.ltb_spec (Z.of_nat j) 0); [lia|].
  f_equal; [|f_equal]; lia.
Qed.

End PySeqFacts.

(** ** The scan of argmax *)

Lemma argmax_scan_bound (l : list float) (mp : float) (mi i : nat) :
  F64.argmax_scan mp mi i l = mi \/
  (i <= F64.argmax_scan mp mi i l < i + length l)%nat.
Proof.
  revert mp mi i. induction l as [|x r IH]; intros mp mi i; cbn [F64.argmax_scan length].
  - left. reflexivity.
  - destruct (negb _).
    + destruct (F64.isnan x); [right; lia|].
      destruct (IH x i (S i)) as [->|?]; right; lia.
    + destruct (IH mp mi (S i)) as [->|?]; [left; reflexivity | right; lia].
Qed.

Lemma argmax_lt (l : list float) :
  l <> [] -> (F64.argmax l < length l)%nat.
Proof.
  destruct l as [|x r]; [done|]. intros _. cbn [F64.argmax length].
  destruct (F64.isnan x); [lia|].
  destruct (argmax_scan_bound r x 0 1) as [->|?]; lia.
Qed.

(** ** The reduction by recursion on ranges

    The textbook form of the algorithm on a range [(i, j)] of natural
    indices: the interior indices it retains, in increasing order.  The
    loop is shown below to compute the same set. *)

Definition range_distances (pts : list point) (i j : nat) : list float :=
  match pts !! i, pts !! j with
  | Some a, Some b =>
      (fun p => _point_segment_distance_numpy p a b) <$> take (j - S i) (drop (S i) pts)
  | _, _ => []
  end.

Definition split_idx (pts : list point) (i j : nat) : nat :=
  (i + 1 + F64.argmax (range_distances pts i j))%nat.

Definition split_dist (pts : list point) (i j : nat) : float :=
  let d := range_distances pts i j in nth (F64.argmax d) d nan.

Lemma range_distances_length (pts : list point) (i j : nat) :
  (length (range_distances pts i j) <= j - S i)%nat.
Proof.
  unfold range_distances. destruct (pts !! i), (pts !! j); cbn [length]; try lia.
  rewrite length_fmap, length_take. lia.
Qed.

Lemma split_idx_bounds (pts : list point) (i j : nat) :
  (1 < j - i)%nat -> (i < split_idx pts i j < j)%nat.
Proof.
  intros Hij. unfold split_idx.
  pose proof (range_distances_length pts i j) as Hlen.
  destruct (range_distances pts i j) as [|x r] eqn:E; [cbn; lia|].
  assert (F64.argmax (x :: r) < length (x :: r))%nat by (apply argmax_lt; done).
  lia.
Qed.

Equations? rdp_rec (pts : list point) (eps : float) (i j : nat) : list nat
  by wf (j - i)%nat lt :=
rdp_rec pts eps i j with le_lt_dec (j - i) 1 := {
  | left _ => [];
  | right Hij =>
      if F64.gt (split_dist pts i j) eps then
        rdp_rec pts eps i (split_idx pts i j)
          ++ split_idx pts i j :: rdp_rec pts eps (split_idx pts i j) j
      else [] }.
Proof.
  all: pose proof (split_idx_bounds pts i j Hij); lia.
Qed.

Lemma rdp_rec_step (pts : list point) (eps : float) (i j : nat) :
  rdp_rec pts eps i j =
  if (j - i <=? 1)%nat then []
  else if F64.gt (split_dist pts i j) eps then
    rdp_rec pts eps i (split_idx pts i j)
      ++ split_idx pts i j :: rdp_rec pts eps (split_idx pts i j) j
  else [].
Proof.
  rewrite rdp_rec_equation_1. destruct (le_lt_dec (j - i) 1) as [H|H]; cbn.
  - apply Nat.leb_le in H. rewrite H. reflexivity.
  - apply Nat.leb_gt in H. rewrite H. reflexivity.
Qed.

(** Induction on the length of a range. *)
Lemma range_ind (P : nat -> nat -> Prop) :
  (forall i j, (forall i' j', (j' - i' < j - i)%nat -> P i' j') -> P i j) ->
  forall i j, P i j.
Proof.
  intros step i j. remember (j - i)%nat as d eqn:Hd.
  revert i j Hd. induction (lt_wf d) as [d _ IH]. intros i j ->.
  apply step. intros i' j' Hlt. exact (IH _ Hlt i' j' eq_refl).
Qed.

Lemma rdp_rec_between (pts : list point) (eps : float) (i j : nat) :
  Forall (fun k => i < k < j)%nat (rdp_rec pts eps i j).
Proof.
  revert i j. apply (range_ind (fun i j => Forall _ (rdp_rec pts eps i j))).
  intros i j IH. rewrite rdp_rec_step.
  destruct (Nat.leb_spec (j - i) 1) as [|Hij]; [constructor|].
  destruct (F64.gt _ _); [|constructor].
  pose proof (split_idx_bounds pts i j Hij) as Hm.
  apply Forall_app; split; [|constructor; [lia|]].
  - eapply Forall_impl; [apply IH; lia|]. cbn. intros; lia.
  - eapply Forall_impl; [apply IH; lia|]. cbn. intros; lia.
Qed.

Lemma rdp_rec_sorted (pts : list point) (eps : float) (i j : nat) :
  StronglySorted lt (rdp_rec pts eps i j).
Proof.
  revert i j. apply (range_ind (fun i j => StronglySorted lt (rdp_rec pts eps i j))).
  intros i j IH. rewrite rdp_rec_step.
  destruct (Nat.leb_spec (j - i) 1) as [|Hij]; [constructor|].
  destruct (F64.gt _ _); [|constructor].
  pose proof (split_idx_bounds pts i j Hij) as Hm.
  pose proof (rdp_rec_between pts eps i (split_idx pts i j)) as Hl.
  pose proof (rdp_rec_between pts eps (split_idx pts i j) j) as Hr.
  rewrite Forall_forall in Hl, Hr.
  apply StronglySorted_app_2.
  - intros x1 x2 H1 H2. apply Hl in H1.
    apply elem_of_cons in H2 as [->|H2]; [lia|]. apply Hr in H2. lia.
  - apply IH; lia.
  - constructor; [apply IH; lia|].
    apply Forall_forall. intros x Hx. apply Hr in Hx. lia.
Qed.

(** *** Marking a list of indices in the mask *)

Definition mark_all (l : list nat) (keep : list bool) : list bool :=
  foldr (fun k acc => <[k := true]> acc) keep l.

Lemma mark_all_app (l1 l2 : list nat) (keep : list bool) :
  mark_all (l1 ++ l2) keep = mark_all l1 (mark_all l2 keep).
Proof. unfold mark_all. apply foldr_app. Qed.

Lemma insert_true_comm (m k : nat) (keep : list bool) :
  <[m := true]> (<[k := true]> keep) = <[k := true]> (<[m := true]> keep).
Proof.
  destruct (decide (m = k)) as [->|Hne]; [reflexivity|].
  apply list_insert_insert_ne. done.
Qed.

Lemma mark_all_insert (m : nat) (l : list nat) (keep : list bool) :
  <[m := true]> (mark_all l keep) = mark_all l (<[m := true]> keep).
Proof.
  unfold mark_all. induction l as [|k l IH]; cbn [foldr]; [reflexivity|].
  rewrite insert_true_comm, IH. reflexivity.
Qed.

Lemma length_mark_all (l : list nat) (keep : list bool) :
  length (mark_all l keep) = length keep.
Proof.
  unfold mark_all. induction l as [|k l IH]; cbn [foldr]; [reflexivity|].
  rewrite length_insert. exact IH.
Qed.

Lemma lookup_mark_all (l : list nat) (keep : list bool) (k : nat) :
  mark_all l keep !! k = Some true <->
  (k < length keep)%nat /\ (k ∈ l \/ keep !! k = Some true).
Proof.
  induction l as [|m l IH].
  - cbn. split.
    + intros H. split; [eapply lookup_lt_Some; eauto | by right].
    + intros [_ [H|H]]; [by apply elem_of_nil in H | done].
  - change (mark_all (m :: l) keep) with (<[m := true]> (mark_all l keep)).
    destruct (decide (m = k)) as [->|Hne].
    + split.
      * intros H. apply lookup_lt_Some in H.
        rewrite length_insert, length_mark_all in H. split; [done|left; left].
      * intros [Hlt _]. apply list_lookup_insert_eq.
        rewrite length_mark_all. done.
    + rewrite list_lookup_insert_ne by done. rewrite IH, elem_of_cons.
      split.
      * intros [? [?|?]]; auto.
      * intros [? [[?|?]|?]]; [congruence|auto..].
Qed.

(** ** The loop computes the recursive reduction *)

Definition stack_ok (n : nat) (stack : list (nat * nat)) : Prop :=
  Forall (fun r => r.1 < r.2 < n)%nat stack.

(** The variant of the loop. *)
Definition weight (stack : list (nat * nat)) : nat :=
  sum_list ((fun r => 2 * (r.2 - r.1) - 1)%nat <$> stack).

Definition zrange (r : nat * nat) : Z * Z := (Z.of_nat r.1, Z.of_nat r.2).

Definition rec_stack (pts : list point) (eps : float)
    (stack : list (nat * nat)) (keep : list bool) : list bool :=
  foldl (fun k r => mark_all (rdp_rec pts eps r.1 r.2) k) keep stack.

Lemma segment_distances_nat (pts : list point) (i j : nat) (a b : point) :
  (i < j < length pts)%nat -> pts !! i = Some a -> pts !! j = Some b ->
  segment_distances pts (Z.of_nat i) (Z.of_nat j) a b = range_distances pts i j.
Proof.
  intros Hij Ha Hb. unfold segment_distances, range_distances.
  rewrite Ha, Hb. replace (Z.of_nat i + 1) with (Z.of_nat (S i)) by lia.
  rewrite py_slice_nat by lia. reflexivity.
Qed.

Lemma range_distances_length_eq (pts : list point) (i j : nat) :
  (i < j < length pts)%nat -> length (range_distances pts i j) = (j - S i)%nat.
Proof.
  intros Hij. unfold range_distances.
  destruct (lookup_lt_is_Some_2 pts i) as [a ->]; [lia|].
  destruct (lookup_lt_is_Some_2 pts j) as [b ->]; [lia|].
  rewrite length_fmap, length_take, length_drop. lia.
Qed.

Lemma farthest_nat (pts : list point) (i j : nat) :
  (i < j < length pts)%nat -> (1 < j - i)%nat ->
  farthest (range_distances pts i j) (Z.of_nat i)
  = (split_dist pts i j, Z.of_nat (split_idx pts i j)).
Proof.
  intros Hij H1. unfold farthest, len.
  rewrite range_distances_length_eq by done.
  destruct (Z.ltb_spec 0 (Z.of_nat (j - S i))); [|lia].
  unfold split_dist, split_idx. f_equal. lia.
Qed.

Lemma weight_cons (r : nat * nat) (stack : list (nat * nat)) :
  weight (r :: stack) = (2 * (r.2 - r.1) - 1 + weight stack)%nat.
Proof. reflexivity. Qed.

Lemma rdp_loop_spec (pts : list point) (eps : float) (fuel : nat) :
  forall (stack : list (nat * nat)) (keep : list bool),
  stack_ok (length pts) stack -> length keep = length pts ->
  (weight stack < fuel)%nat ->
  rdp_loop fuel pts eps (zrange <$> stack) keep = Ret (rec_stack pts eps stack keep).
Proof.
  induction fuel as [|fuel IH]; intros stack keep Hok Hlen Hw; [lia|].
  destruct stack as [|[i j] stack]; [reflexivity|].
  apply Forall_cons in Hok as [Hij Hok]. cbn [fst snd] in Hij.
  rewrite weight_cons in Hw.
  cbn [fmap list_fmap zrange fst snd rdp_loop] in *.
  change (list_fmap _ _ zrange stack) with (zrange <$> stack).
  cbn [rec_stack foldl fst snd].
  change (foldl _ ?k stack) with (rec_stack pts eps stack k).
  rewrite (rdp_rec_step pts eps i j).
  destruct (Z.leb_spec (Z.of_nat j - Z.of_nat i) 1) as [Hle|Hgt].
  - destruct (Nat.leb_spec (j - i) 1); [|lia]. cbn [mark_all foldr].
    apply IH; [done..|lia].
  - destruct (Nat.leb_spec (j - i) 1) as [|Hgt']; [lia|].
    destruct (lookup_lt_is_Some_2 pts i) as [a Ha]; [lia|].
    destruct (lookup_lt_is_Some_2 pts j) as [b Hb]; [lia|].
    rewrite (py_getitem_nat _ _ _ Ha), (py_getitem_nat _ _ _ Hb). cbn [bind].
    rewrite segment_distances_nat by done.
    rewrite farthest_nat by done.
    pose proof (split_idx_bounds pts i j Hgt') as Hm.
    destruct (F64.gt (split_dist pts i j) eps).
    + rewrite py_setitem_nat by lia. cbn [bind].
      change (rdp_loop fuel pts eps ?s ?k) with
        (rdp_loop fuel pts eps
           (zrange <$> (split_idx pts i j, j) :: (i, split_idx pts i j) :: stack) k).
      rewrite IH.
      * cbn [rec_stack foldl fst snd]. do 2 f_equal.
        rewrite mark_all_app. cbn [mark_all foldr].
        f_equal. rewrite <- mark_all_insert. reflexivity.
      * repeat (apply Forall_cons; split); cbn [fst snd]; [lia..|done].
      * rewrite length_insert. done.
      * rewrite !weight_cons. cbn [fst snd]. lia.
    + cbn [mark_all foldr]. apply IH; [done..|lia].
Qed.

(** The budget is not a cut: on more than two points every budget above
    the weight of the first range gives the result of [loop_budget]. *)
Lemma rdp_loop_budget (pts : list point) (eps : float) (fuel : nat) :
  (2 < length pts)%nat -> (2 * length pts - 3 < fuel)%nat ->
  forall keep : list bool, length keep = length pts ->
  rdp_loop fuel pts eps [(0, len pts - 1)] keep
  = rdp_loop (loop_budget (length pts)) pts eps [(0, len pts - 1)] keep.
Proof.
  intros Hn Hfuel keep Hlen. unfold len.
  replace [(0, Z.of_nat (length pts) - 1)]
    with (zrange <$> [(0%nat, (length pts - 1)%nat)]).
  2:{ cbn. unfold zrange. cbn. do 2 f_equal. lia. }
  assert (stack_ok (length pts) [(0%nat, (length pts - 1)%nat)]) as Hok
    by (repeat constructor; cbn; lia).
  rewrite !rdp_loop_spec; try done.
  - unfold loop_budget. rewrite weight_cons. cbn. lia.
  - rewrite weight_cons. cbn. lia.
Qed.

(** ** The indices of a mask *)

Lemma sorted_lt_NoDup (l : list nat) : StronglySorted lt l -> NoDup l.
Proof.
  induction 1 as [|x l _ IH Hx]; constructor; [|done].
  intros Hin. rewrite Forall_forall in Hx. apply Hx in Hin. lia.
Qed.

Lemma sorted_lt_sublist (l k : list nat) :
  l `sublist_of` k -> StronglySorted lt k -> StronglySorted lt l.
Proof.
  induction 1 as [|x l k Hs IH|x l k Hs IH]; intros Hk.
  - constructor.
  - apply StronglySorted_cons in Hk as [Hx Hk].
    constructor; [auto|]. apply Forall_forall. intros y Hy.
    rewrite Forall_forall in Hx. apply Hx.
    eapply sublist_subseteq; eauto.
  - apply StronglySorted_cons in Hk as [_ Hk]. auto.
Qed.

Lemma sorted_lt_seq (a n : nat) : StronglySorted lt (seq a n).
Proof.
  revert a. induction n as [|n IH]; intros a; cbn; constructor; [apply IH|].
  apply Forall_forall. intros x Hx. apply elem_of_seq in Hx. lia.
Qed.

(** Two increasing lists with the same elements are equal. *)
Lemma sorted_lt_ext (l k : list nat) :
  StronglySorted lt l -> StronglySorted lt k ->
  (forall x, x ∈ l <-> x ∈ k) -> l = k.
Proof.
  intros Hl Hk Hiff.
  apply (StronglySorted_unique_strong lt); [intros; lia|done..|].
  apply NoDup_Permutation; auto using sorted_lt_NoDup.
Qed.

(** The mask before the loop: both ends are retained. *)
Definition ends_mask (n : nat) : list bool :=
  <[(n - 1)%nat := true]> (<[0%nat := true]> (replicate n false)).

Lemma lookup_ends_mask (n k : nat) :
  ends_mask n !! k = Some true <-> (k < n)%nat /\ (k = 0 \/ k = n - 1)%nat.
Proof.
  unfold ends_mask. split.
  - intros H. pose proof (lookup_lt_Some _ _ _ H) as Hlt.
    rewrite !length_insert, length_replicate in Hlt. split; [done|].
    destruct (decide (k = n - 1)%nat) as [|Hn]; [by right|].
    rewrite list_lookup_insert_ne in H by done.
    destruct (decide (k = 0)%nat) as [|H0]; [by left|].
    rewrite list_lookup_insert_ne in H by done.
    rewrite lookup_replicate_2 in H by done. discriminate.
  - intros [Hlt [->| ->]].
    + destruct (decide (0 = n - 1)%nat) as [<-|Hn].
      * apply list_lookup_insert_eq. rewrite length_insert, length_replicate. done.
      * rewrite list_lookup_insert_ne by done.
        apply list_lookup_insert_eq. rewrite length_replicate. done.
    + apply list_lookup_insert_eq. rewrite length_insert, length_replicate. done.
Qed.

Lemma length_ends_mask (n : nat) : length (ends_mask n) = n.
Proof. unfold ends_mask. rewrite !length_insert, length_replicate. done. Qed.

Lemma nonzero_mark_all (n : nat) (l : list nat) :
  (2 <= n)%nat -> StronglySorted lt l -> Forall (fun k => 0 < k < n - 1)%nat l ->
  nonzero (mark_all l (ends_mask n)) = Z.of_nat <$> (0%nat :: l ++ [(n - 1)%nat]).
Proof.
  intros Hn Hs Hb. unfold nonzero. f_equal.
  rewrite length_mark_all, length_ends_mask.
  rewrite Forall_forall in Hb.
  apply sorted_lt_ext.
  - eapply sorted_lt_sublist; [apply sublist_filter | apply sorted_lt_seq].
  - constructor.
    + apply StronglySorted_app_2; [|done|repeat constructor].
      intros x1 x2 H1 H2. apply Hb in H1. apply list_elem_of_singleton in H2. lia.
    + apply Forall_app. split; [|repeat constructor; lia].
      apply Forall_forall. intros x Hx. apply Hb in Hx. lia.
  - intros x. rewrite list_elem_of_filter, elem_of_seq, lookup_mark_all,
      length_ends_mask, lookup_ends_mask, elem_of_cons, elem_of_app,
      list_elem_of_singleton.
    split.
    + intros [[_ [H|[_ [H|H]]]] _]; auto.
    + intros [->|[H| ->]].
      * split; [|lia]. split; [lia|]. right. split; [lia|]. by left.
      * pose proof (Hb _ H). split; [|lia]. split; [lia|]. by left.
      * split; [|lia]. split; [lia|]. right. split; [lia|]. by right.
Qed.

(** ** The reducer and the recursive reduction *)

(** The indices the textbook reduction retains on a whole sequence. *)
Definition kept (pts : list point) (eps : float) : list nat :=
  let n := length pts in
  if (n <=? 2)%nat then seq 0 n
  else 0%nat :: rdp_rec pts eps 0 (n - 1) ++ [(n - 1)%nat].

(** The loop neither raises nor runs out of its budget, and retains the
    indices of the recursive reduction. *)
Lemma rdp_indices_kept (pts : list point) (eps : float) :
  rdp_indices pts eps = Ret (Z.of_nat <$> kept pts eps).
Proof.
  unfold rdp_indices, kept, len.
  destruct (Z.eqb_spec (Z.of_nat (length pts)) 0) as [H0|H0].
  { assert (length pts = 0)%nat as -> by lia. reflexivity. }
  unfold _rdp_indices_numpy.
  destruct (Nat.leb_spec (length pts) 2) as [|Hn]; [reflexivity|].
  set (n := length pts) in *.
  rewrite (py_setitem_nat (replicate n false) 0) by (rewrite length_replicate; lia).
  cbn [bind]. rewrite py_setitem_last by (rewrite length_insert, length_replicate; lia).
  cbn [bind]. rewrite length_insert, length_replicate.
  change (<[(n - 1)%nat:=true]> _) with (ends_mask n).
  replace [(0, Z.of_nat n - 1)] with (zrange <$> [(0%nat, (n - 1)%nat)]).
  2:{ cbn. unfold zrange. cbn. do 2 f_equal. lia. }
  rewrite rdp_loop_spec.
  - cbn [bind rec_stack foldl fst snd]. f_equal.
    apply nonzero_mark_all; [lia|apply rdp_rec_sorted|].
    eapply Forall_impl; [apply rdp_rec_between|]. cbn. intros; lia.
  - repeat constructor; cbn; lia.
  - apply length_ends_mask.
  - unfold loop_budget. cbn. lia.
Qed.

(** ** Facts of binary64 arithmetic used by the distance *)

Module FloatFacts.
Import FloatOrder.

(** There is one NaN. *)
Lemma is_nan_spec (x : float) :
  PrimFloat.is_nan x = true <-> Prim2SF x = S754_nan.
Proof.
  rewrite is_nan_key. unfold key.
  destruct (Prim2SF x) as [[]|[]| |[] m e]; cbn; split; congruence.
Qed.

Lemma is_nan_eq (x : float) : PrimFloat.is_nan x = true -> x = nan.
Proof.
  intros H. apply is_nan_spec in H. apply Prim2SF_inj. rewrite H. reflexivity.
Qed.

(** A NaN operand makes a NaN result. *)
Lemma sub_nan_l (y : float) : (nan - y)%float = nan.
Proof. apply Prim2SF_inj. rewrite sub_spec. reflexivity. Qed.

Lemma add_nan_l (y : float) : (nan + y)%float = nan.
Proof. apply Prim2SF_inj. rewrite add_spec. reflexivity. Qed.

Lemma add_nan_r (x : float) : (x + nan)%float = nan.
Proof.
  apply Prim2SF_inj. rewrite add_spec.
  change (Prim2SF nan) with S754_nan. unfold SF64add, SFadd.
  destruct (Prim2SF x) as [[]|[]| |[] m e]; reflexivity.
Qed.

Lemma mul_nan_l (y : float) : (nan * y)%float = nan.
Proof. apply Prim2SF_inj. rewrite mul_spec. reflexivity. Qed.

Lemma mul_nan_r (x : float) : (x * nan)%float = nan.
Proof.
  apply Prim2SF_inj. rewrite mul_spec.
  change (Prim2SF nan) with S754_nan. unfold SF64mul, SFmul.
  destruct (Prim2SF x) as [[]|[]| |[] m e]; reflexivity.
Qed.

Lemma div_nan_l (y : float) : (nan / y)%float = nan.
Proof. apply Prim2SF_inj. rewrite div_spec. reflexivity. Qed.

Lemma sqrt_nan : PrimFloat.sqrt nan = nan.
Proof. reflexivity. Qed.

(** *** Signs *)

Definition sf_nonneg (y : spec_float) : bool :=
  match y with
  | S754_zero _ | S754_infinity false | S754_finite false _ _ => true
  | _ => false
  end.

Definition sf_neg (y : spec_float) : bool :=
  match y with
  | S754_infinity true | S754_finite true _ _ => true
  | _ => false
  end.

Lemma SFltb_neg_nonneg (x y : spec_float) :
  sf_neg x = true -> sf_nonneg y = true -> SFltb x y = true.
Proof.
  destruct x as [[]|[]| |[] mx ex], y as [[]|[]| |[] my ey]; cbn; congruence.
Qed.

Lemma ltb_zero_neg (x : float) :
  (x <? 0)%float = true -> sf_neg (Prim2SF x) = true.
Proof.
  rewrite ltb_spec. change (Prim2SF 0) with (S754_zero false).
  destruct (Prim2SF x) as [[]|[]| |[] mx ex]; cbn; congruence.
Qed.

Lemma binary_round_aux_nonneg (mx ex : Z) (lx : location) :
  let r := binary_round_aux prec emax false mx ex lx in
  r = S754_nan \/ sf_nonneg r = true.
Proof.
  unfold binary_round_aux.
  destruct (shr_fexp prec emax mx ex lx) as [mrs e'].
  destruct (shr_fexp prec emax _ e' loc_Exact) as [mrs' e''].
  destruct (shr_m mrs'); [right; reflexivity| |left; reflexivity].
  destruct (e'' <=? emax - prec); right; reflexivity.
Qed.

Lemma SFsqrt_nonneg (y : spec_float) :
  SF64sqrt y = S754_nan \/ sf_nonneg (SF64sqrt y) = true.
Proof.
  unfold SF64sqrt, SFsqrt.
  destruct y as [[]|[]| |[] m e]; try (left; reflexivity); try (right; reflexivity).
  destruct (SFsqrt_core_binary prec emax (Z.pos m) e) as [[mz ez] lz].
  apply binary_round_aux_nonneg.
Qed.

(** A square root that is not NaN is above every negative number. *)
Lemma sqrt_above_negative (eps s : float) :
  PrimFloat.is_nan (PrimFloat.sqrt s) = false -> (eps <? 0)%float = true ->
  (eps <? PrimFloat.sqrt s)%float = true.
Proof.
  intros Hnan Heps. rewrite ltb_spec. apply SFltb_neg_nonneg.
  - apply ltb_zero_neg. exact Heps.
  - rewrite sqrt_spec. destruct (SFsqrt_nonneg (Prim2SF s)) as [H|H]; [|exact H].
    rewrite <- sqrt_spec in H. apply is_nan_spec in H. congruence.
Qed.

(** Nothing is above a NaN. *)
Lemma gt_nan (eps d : float) : PrimFloat.is_nan d = true -> F64.gt d eps = false.
Proof.
  intros H. unfold F64.gt. destruct (eps <? d)%float eqn:E; [|reflexivity].
  apply ltb_not_nan in E as [_ E]. congruence.
Qed.

(** *** Finite numbers *)

Lemma is_finite_spec (x : float) :
  PrimFloat.is_finite x = true ->
  exists y, Prim2SF x = y /\
    match y with S754_zero _ | S754_finite _ _ _ => True | _ => False end.
Proof.
  unfold PrimFloat.is_finite, PrimFloat.is_infinity.
  rewrite is_nan_key, FloatAxioms.eqb_spec, abs_spec. unfold key.
  change (Prim2SF infinity) with (S754_infinity false).
  intros H. exists (Prim2SF x). split; [reflexivity|].
  destruct (Prim2SF x) as [[]|[]| |[] m e]; cbn in H; try discriminate; exact I.
Qed.

(** The difference of a finite number with itself is zero. *)
Lemma sub_diag (x : float) : PrimFloat.is_finite x = true -> (x - x)%float = 0%float.
Proof.
  intros H. destruct (is_finite_spec x H) as (y & Hy & Hf).
  apply Prim2SF_inj. rewrite sub_spec, Hy.
  change (Prim2SF 0) with (S754_zero false).
  destruct y as [[]|[]| |s m e]; try done.
  unfold SF64sub, SFsub. rewrite Z.sub_diag. reflexivity.
Qed.

(** *** The clamp *)

Lemma clip_unit (t : float) :
  PrimFloat.is_nan t = false ->
  (0 <=? F64.clip t 0 1)%float = true /\ (F64.clip t 0 1 <=? 1)%float = true.
Proof.
  intros Hnan. unfold F64.clip, F64.npy_max, F64.npy_min, F64.gt, F64.isnan.
  rewrite Hnan. destruct (0 <? t)%float eqn:E0.
  - rewrite Hnan. destruct (t <? 1)%float eqn:E1.
    + split; apply ltb_leb; assumption.
    + split; reflexivity.
  - split; reflexivity.
Qed.

Lemma clip_nan : F64.clip nan 0 1 = nan.
Proof. reflexivity. Qed.

End FloatFacts.

(** ** The retained indices *)

Lemma kept_sorted (pts : list point) (eps : float) :
  StronglySorted lt (kept pts eps).
Proof.
  unfold kept. destruct (Nat.leb_spec (length pts) 2) as [|Hn];
    [apply sorted_lt_seq|].
  pose proof (rdp_rec_between pts eps 0 (length pts - 1)) as Hb.
  rewrite Forall_forall in Hb.
  constructor.
  - apply StronglySorted_app_2; [|apply rdp_rec_sorted|repeat constructor].
    intros x1 x2 H1 H2. apply Hb in H1. apply list_elem_of_singleton in H2. lia.
  - apply Forall_app. split; [|repeat constructor; lia].
    apply Forall_forall. intros x Hx. apply Hb in Hx. lia.
Qed.

Lemma kept_bound (pts : list point) (eps : float) :
  Forall (fun k => k < length pts)%nat (kept pts eps).
Proof.
  unfold kept. destruct (Nat.leb_spec (length pts) 2) as [|Hn].
  - apply Forall_forall. intros x Hx. apply elem_of_seq in Hx. lia.
  - constructor; [lia|]. apply Forall_app. split; [|repeat constructor; lia].
    eapply Forall_impl; [apply rdp_rec_between|]. cbn. intros; lia.
Qed.

Lemma kept_ends (pts : list point) (eps : float) :
  (1 <= length pts)%nat ->
  0%nat ∈ kept pts eps /\ (length pts - 1)%nat ∈ kept pts eps.
Proof.
  intros H1. unfold kept. destruct (Nat.leb_spec (length pts) 2) as [|Hn].
  - split; apply elem_of_seq; lia.
  - split; [left|]. right. apply elem_of_app. right. left.
Qed.

(** C1: for every sequence of planar points and every epsilon, the reducer
    returns a strictly increasing sequence of indices of the input, which
    holds index 0 and the last index as soon as the input is not empty. *)
Theorem rdp_indices_increasing_with_ends (pts : list point) (eps : float) :
  exists idx : list Z,
    rdp_indices pts eps = Ret idx /\
    StronglySorted Z.lt idx /\
    Forall (fun k => 0 <= k < len pts) idx /\
    (1 <= len pts -> 0 ∈ idx /\ len pts - 1 ∈ idx).
Proof.
  exists (Z.of_nat <$> kept pts eps). split; [apply rdp_indices_kept|].
  split; [|split].
  - eapply StronglySorted_fmap; [|apply kept_sorted]. intros; lia.
  - apply Forall_fmap. eapply Forall_impl; [apply kept_bound|].
    unfold len. cbn. intros; lia.
  - unfold len. intros H1.
    destruct (kept_ends pts eps) as [H0 Hn]; [lia|]. split.
    + apply (list_elem_of_fmap_2 Z.of_nat) in H0. exact H0.
    + apply (list_elem_of_fmap_2 Z.of_nat) in Hn.
      replace (Z.of_nat (length pts) - 1) with (Z.of_nat (length pts - 1)) by lia.
      exact Hn.
Qed.

(** C7: on at most two points the reducer returns every index, whatever
    epsilon is: nothing for no point, [0] for one, [0; 1] for two. *)
Theorem rdp_indices_base_cases (eps : float) :
  rdp_indices [] eps = Ret [] /\
  (forall p, rdp_indices [p] eps = Ret [0]) /\
  (forall p q, rdp_indices [p; q] eps = Ret [0; 1]) /\
  (forall pts, (length pts <= 2)%nat -> rdp_indices pts eps = Ret (arange (length pts))).
Proof.
  repeat split; try reflexivity.
  intros pts Hn. rewrite rdp_indices_kept. unfold kept, arange.
  apply Nat.leb_le in Hn. rewrite Hn. reflexivity.
Qed.

(** ** Reduction is monotone in the tolerance *)

Lemma rdp_rec_mono (pts : list point) (eps1 eps2 : float) :
  (eps1 <? eps2)%float = true ->
  forall i j, rdp_rec pts eps2 i j `sublist_of` rdp_rec pts eps1 i j.
Proof.
  intros Hlt.
  apply (range_ind (fun i j => rdp_rec pts eps2 i j `sublist_of` rdp_rec pts eps1 i j)).
  intros i j IH. rewrite (rdp_rec_step pts eps2), (rdp_rec_step pts eps1).
  destruct (Nat.leb_spec (j - i) 1) as [|Hij]; [constructor|].
  pose proof (split_idx_bounds pts i j Hij) as Hm.
  unfold F64.gt. destruct (eps2 <? split_dist pts i j)%float eqn:E2;
    [|apply sublist_nil_l].
  rewrite (FloatOrder.ltb_trans _ _ _ Hlt E2).
  apply sublist_app; [apply IH; lia|].
  apply sublist_skip. apply IH. lia.
Qed.

Lemma kept_mono (pts : list point) (eps1 eps2 : float) :
  (eps1 <? eps2)%float = true -> kept pts eps2 `sublist_of` kept pts eps1.
Proof.
  intros Hlt. unfold kept. destruct (length pts <=? 2)%nat; [reflexivity|].
  apply sublist_skip. apply sublist_app; [|reflexivity].
  apply rdp_rec_mono. exact Hlt.
Qed.

Lemma fmap_sublist {A B} (f : A -> B) (l k : list A) :
  l `sublist_of` k -> (f <$> l) `sublist_of` (f <$> k).
Proof. induction 1; csimpl; constructor; done. Qed.

(** C3: with a larger tolerance the reducer retains at most as many
    indices; the indices it retains are among those of the smaller
    tolerance. *)
Theorem rdp_indices_monotone (pts : list point) (eps1 eps2 : float) :
  (eps1 <? eps2)%float = true ->
  exists idx1 idx2 : list Z,
    rdp_indices pts eps1 = Ret idx1 /\
    rdp_indices pts eps2 = Ret idx2 /\
    idx2 `sublist_of` idx1 /\
    (length idx2 <= length idx1)%nat.
Proof.
  intros Hlt. exists (Z.of_nat <$> kept pts eps1), (Z.of_nat <$> kept pts eps2).
  pose proof (kept_mono pts eps1 eps2 Hlt) as Hs.
  repeat split; try apply rdp_indices_kept.
  - apply fmap_sublist. exact Hs.
  - rewrite !length_fmap. apply sublist_length. exact Hs.
Qed.

Lemma rdp_indices_monotone_witness :
  exists idx1 idx2 : list Z,
    rdp_indices [mkPoint 0 0; mkPoint 1 1; mkPoint 2 0; mkPoint 3 0.25; mkPoint 4 0] 0.125 = Ret idx1 /\
    rdp_indices [mkPoint 0 0; mkPoint 1 1; mkPoint 2 0; mkPoint 3 0.25; mkPoint 4 0] 0.5 = Ret idx2 /\
    idx2 `sublist_of` idx1 /\
    (length idx2 <= length idx1)%nat.
Proof.
  exact (rdp_indices_monotone
    [mkPoint 0 0; mkPoint 1 1; mkPoint 2 0; mkPoint 3 0.25; mkPoint 4 0]
    0.125 0.5 eq_refl).
Defined.

(** ** The distances of a range *)

Lemma range_distances_lookup (pts : list point) (i j : nat) (a b : point) :
  pts !! i = Some a -> pts !! j = Some b ->
  forall r, (r < j - S i)%nat ->
  range_distances pts i j !! r
  = (fun p => _point_segment_distance_numpy p a b) <$> pts !! (S i + r)%nat.
Proof.
  intros Ha Hb r Hr. unfold range_distances. rewrite Ha, Hb.
  rewrite list_lookup_fmap, lookup_take_lt by lia.
  rewrite lookup_drop. reflexivity.
Qed.

Lemma split_dist_point (pts : list point) (i j : nat) :
  (i < j < length pts)%nat -> (1 < j - i)%nat ->
  exists a p b,
    pts !! i = Some a /\ pts !! split_idx pts i j = Some p /\ pts !! j = Some b /\
    split_dist pts i j = _point_segment_distance_numpy p a b.
Proof.
  intros Hij H1.
  destruct (lookup_lt_is_Some_2 pts i) as [a Ha]; [lia|].
  destruct (lookup_lt_is_Some_2 pts j) as [b Hb]; [lia|].
  pose proof (split_idx_bounds pts i j H1) as Hm.
  destruct (lookup_lt_is_Some_2 pts (split_idx pts i j)) as [p Hp]; [lia|].
  exists a, p, b. repeat split; try done.
  unfold split_dist. cbv zeta. rewrite nth_lookup.
  unfold split_idx in *.
  rewrite (range_distances_lookup pts i j a b Ha Hb) by lia.
  replace (S i + _)%nat with (i + 1 + F64.argmax (range_distances pts i j))%nat by lia.
  rewrite Hp. reflexivity.
Qed.

(** The distance is a square root in both branches. *)
Lemma distance_is_sqrt (p a b : point) :
  exists s, _point_segment_distance_numpy p a b = PrimFloat.sqrt s.
Proof.
  unfold _point_segment_distance_numpy, Vec.norm.
  destruct (_ =? _)%float; eexists; reflexivity.
Qed.

(** ** Negative tolerance *)

(** No distance of an interior point to a segment of the sequence is NaN. *)
Definition no_nan_distance (pts : list point) : Prop :=
  forall (i k j : nat) (a p b : point),
    (i < k < j)%nat ->
    pts !! i = Some a -> pts !! k = Some p -> pts !! j = Some b ->
    PrimFloat.is_nan (_point_segment_distance_numpy p a b) = false.

Lemma rdp_rec_full (pts : list point) (eps : float) :
  (eps <? 0)%float = true -> no_nan_distance pts ->
  forall i j, (i < j < length pts)%nat ->
  rdp_rec pts eps i j = seq (S i) (j - S i).
Proof.
  intros Heps Hnn.
  apply (range_ind (fun i j => (i < j < length pts)%nat ->
    rdp_rec pts eps i j = seq (S i) (j - S i))).
  intros i j IH Hij. rewrite rdp_rec_step.
  destruct (Nat.leb_spec (j - i) 1) as [Hle|Hgt].
  { replace (j - S i)%nat with 0%nat by lia. reflexivity. }
  pose proof (split_idx_bounds pts i j Hgt) as Hm.
  destruct (split_dist_point pts i j Hij Hgt) as (a & p & b & Ha & Hp & Hb & ->).
  pose proof (Hnn _ _ _ _ _ _ Hm Ha Hp Hb) as Hd.
  destruct (distance_is_sqrt p a b) as [s Hs]. rewrite Hs in Hd |- *.
  unfold F64.gt. rewrite (FloatFacts.sqrt_above_negative eps s Hd Heps).
  rewrite !IH by lia.
  set (m := split_idx pts i j) in *.
  replace (j - S i)%nat with ((m - S i) + S (j - S m))%nat by lia.
  rewrite seq_app. cbn [seq].
  replace (S i + (m - S i))%nat with m by lia. reflexivity.
Qed.

Lemma kept_full (pts : list point) (eps : float) :
  (eps <? 0)%float = true -> no_nan_distance pts ->
  kept pts eps = seq 0 (length pts).
Proof.
  intros Heps Hnn. unfold kept.
  destruct (Nat.leb_spec (length pts) 2) as [|Hn]; [reflexivity|].
  rewrite (rdp_rec_full pts eps Heps Hnn) by lia.
  set (n := length pts) in *.
  replace n with (S ((n - 1 - 1) + 1)) at 3 by lia.
  cbn [seq]. rewrite seq_app. cbn [seq].
  do 3 f_equal. lia.
Qed.

(** C10 (as amended): for a strictly negative epsilon the reducer raises
    nothing, ends, and returns every index, provided no distance of an
    interior point to a segment of the sequence is NaN. *)
Theorem rdp_indices_negative_epsilon (pts : list point) (eps : float) :
  (eps <? 0)%float = true -> no_nan_distance pts ->
  rdp_indices pts eps = Ret (arange (length pts)).
Proof.
  intros Heps Hnn. rewrite rdp_indices_kept, (kept_full pts eps Heps Hnn).
  reflexivity.
Qed.

Lemma rdp_indices_negative_epsilon_witness :
  rdp_indices [mkPoint 0 0; mkPoint 1 1; mkPoint 2 0] (-1) = Ret (arange 3).
Proof.
  apply (rdp_indices_negative_epsilon [mkPoint 0 0; mkPoint 1 1; mkPoint 2 0] (-1)).
  - reflexivity.
  - intros i k j a p b Hikj Ha Hp Hb.
    destruct j as [|[|[|j]]]; [lia|lia| |discriminate Hb].
    destruct k as [|[|k]]; [lia| |lia].
    destruct i as [|i]; [|lia].
    cbn in Ha, Hp, Hb. injection Ha as <-. injection Hp as <-. injection Hb as <-.
    vm_compute. reflexivity.
Defined.

(** C10 (as stated) fails where a distance is NaN, be it from a NaN
    coordinate or from an overflow on finite coordinates: the comparison
    with the negative epsilon is false and the interior point is dropped. *)
Lemma rdp_indices_negative_epsilon_counterexample :
  ((-1) <? 0)%float = true /\
  rdp_indices [mkPoint 0 0; mkPoint nan 0; mkPoint 1 0] (-1) = Ret [0; 2] /\
  rdp_indices [mkPoint 0 0; mkPoint 0x1p+600 1; mkPoint 0x1p+600 0] (-1) = Ret [0; 2].
Proof. vm_compute. repeat split. Qed.

(** ** NaN coordinates *)

Lemma argmax_scan_nan (l : list float) :
  forall (mp : float) (mi i : nat),
  PrimFloat.is_nan mp = false -> Exists (fun x => PrimFloat.is_nan x = true) l ->
  exists x, (i <= F64.argmax_scan mp mi i l)%nat /\
    l !! (F64.argmax_scan mp mi i l - i)%nat = Some x /\ PrimFloat.is_nan x = true.
Proof.
  induction l as [|x r IH]; intros mp mi i Hmp Hex; [inv Hex|].
  cbn [F64.argmax_scan]. unfold F64.isnan.
  destruct (x <=? mp)%float eqn:Ele; cbn [negb].
  - apply FloatOrder.leb_not_nan in Ele as [Hx _].
    apply Exists_cons in Hex as [Hex|Hex]; [congruence|].
    destruct (IH mp mi (S i) Hmp Hex) as (y & Hle & Hy & Hnan).
    exists y. split; [lia|]. split; [|done].
    replace (F64.argmax_scan mp mi (S i) r - i)%nat
      with (S (F64.argmax_scan mp mi (S i) r - S i)) by lia.
    exact Hy.
  - destruct (PrimFloat.is_nan x) eqn:Hx.
    + exists x. split; [lia|]. rewrite Nat.sub_diag. done.
    + apply Exists_cons in Hex as [Hex|Hex]; [congruence|].
      destruct (IH x i (S i) Hx Hex) as (y & Hle & Hy & Hnan).
      exists y. split; [lia|]. split; [|done].
      replace (F64.argmax_scan x i (S i) r - i)%nat
        with (S (F64.argmax_scan x i (S i) r - S i)) by lia.
      exact Hy.
Qed.

(** The first NaN wins the argmax. *)
Lemma argmax_nan (l : list float) :
  Exists (fun x => PrimFloat.is_nan x = true) l ->
  PrimFloat.is_nan (nth (F64.argmax l) l nan) = true.
Proof.
  intros Hex. destruct l as [|x r]; [inv Hex|].
  cbn [F64.argmax]. unfold F64.isnan. destruct (PrimFloat.is_nan x) eqn:Hx; [exact Hx|].
  apply Exists_cons in Hex as [Hex|Hex]; [congruence|].
  destruct (argmax_scan_nan r x 0 1 Hx Hex) as (y & Hle & Hy & Hnan).
  destruct (F64.argmax_scan x 0 1 r) as [|m]; [lia|].
  cbn [nth]. replace (S m - 1)%nat with m in Hy by lia.
  rewrite (nth_lookup_Some _ _ _ _ Hy). exact Hnan.
Qed.

(** A NaN coordinate of the point makes its distance NaN. *)
Lemma distance_nan_point (p a b : point) :
  (PrimFloat.is_nan (px p) || PrimFloat.is_nan (py p)) = true ->
  _point_segment_distance_numpy p a b = nan.
Proof.
  destruct p as [x y]. cbn [px py]. intros H.
  apply orb_true_iff in H as [H|H]; apply FloatFacts.is_nan_eq in H; subst;
    unfold _point_segment_distance_numpy, Vec.norm, Vec.dot, Vec.sub, Vec.add,
      Vec.scale; cbn [px py];
    destruct (_ =? _)%float;
    repeat rewrite ?FloatFacts.sub_nan_l, ?FloatFacts.mul_nan_l, ?FloatFacts.mul_nan_r,
      ?FloatFacts.add_nan_l, ?FloatFacts.add_nan_r, ?FloatFacts.div_nan_l,
      ?FloatFacts.clip_nan, ?FloatFacts.sqrt_nan;
    reflexivity.
Qed.

(** An interior point with a NaN coordinate: its distance to the chord is
    NaN, the argmax selects a NaN, the comparison with epsilon is false and
    only the two ends are retained. *)
Lemma nan_interior_keeps_ends (pts : list point) (eps : float)
    (k : nat) (p : point) :
  (0 < k < length pts - 1)%nat -> pts !! k = Some p ->
  (PrimFloat.is_nan (px p) || PrimFloat.is_nan (py p)) = true ->
  rdp_indices pts eps = Ret [0; len pts - 1].
Proof.
  intros Hk Hp Hnan. rewrite rdp_indices_kept. unfold kept, len.
  destruct (Nat.leb_spec (length pts) 2) as [|Hn]; [lia|].
  set (n := length pts) in *.
  destruct (lookup_lt_is_Some_2 pts 0) as [a Ha]; [lia|].
  destruct (lookup_lt_is_Some_2 pts (n - 1)) as [b Hb]; [lia|].
  rewrite rdp_rec_step.
  destruct (Nat.leb_spec (n - 1 - 0) 1); [lia|].
  rewrite FloatFacts.gt_nan.
  - cbn. do 3 f_equal. lia.
  - unfold split_dist. cbv zeta. apply argmax_nan.
    apply Exists_exists. exists (_point_segment_distance_numpy p a b). split.
    + apply (list_elem_of_lookup_2 _ (k - 1)).
      rewrite (range_distances_lookup pts 0 (n - 1) a b Ha Hb) by lia.
      replace (1 + (k - 1))%nat with k by lia. rewrite Hp. reflexivity.
    + rewrite (distance_nan_point p a b Hnan). reflexivity.
Qed.

(** ** Selecting by an index array *)

(** The elements of [l] at the natural indices [idx]. *)
Fixpoint sel {A} (l : list A) (idx : list nat) : list A :=
  match idx with
  | [] => []
  | k :: idx' =>
      match l !! k with
      | Some x => x :: sel l idx'
      | None => sel l idx'
      end
  end.

Section Sel.
Context {A : Type}.
Implicit Types (l : list A) (idx : list nat).

Lemma py_take_sel l idx :
  Forall (fun k => k < length l)%nat idx ->
  py_take l (Z.of_nat <$> idx) = Ret (sel l idx).
Proof.
  induction 1 as [|k idx Hk _ IH]; [reflexivity|].
  destruct (lookup_lt_is_Some_2 l k Hk) as [x Hx].
  cbn [fmap list_fmap py_take sel].
  change (list_fmap nat Z Z.of_nat idx) with (Z.of_nat <$> idx).
  rewrite (py_getitem_nat _ _ _ Hx), IH, Hx. reflexivity.
Qed.

Lemma sel_lookup l idx :
  Forall (fun k => k < length l)%nat idx ->
  forall t, sel l idx !! t = idx !! t ≫= (l !!.).
Proof.
  induction 1 as [|k idx Hk _ IH]; intros t; [reflexivity|].
  destruct (lookup_lt_is_Some_2 l k Hk) as [x Hx].
  cbn [sel]. rewrite Hx. destruct t as [|t]; cbn; [by rewrite Hx|apply IH].
Qed.

Lemma length_sel l idx :
  Forall (fun k => k < length l)%nat idx -> length (sel l idx) = length idx.
Proof.
  induction 1 as [|k idx Hk _ IH]; [reflexivity|].
  destruct (lookup_lt_is_Some_2 l k Hk) as [x Hx].
  cbn [sel]. rewrite Hx. cbn. by rewrite IH.
Qed.

Lemma sel_seq_from l1 l2 : sel (l1 ++ l2) (seq (length l1) (length l2)) = l2.
Proof.
  revert l1. induction l2 as [|x l2 IH]; intros l1; [reflexivity|].
  cbn [length seq sel]. rewrite list_lookup_middle by done.
  f_equal. specialize (IH (l1 ++ [x])).
  rewrite length_app, <- app_assoc in IH. cbn in IH.
  replace (length l1 + 1)%nat with (S (length l1)) in IH by lia. exact IH.
Qed.

Lemma sel_all l : sel l (seq 0 (length l)) = l.
Proof. apply (sel_seq_from [] l). Qed.
End Sel.

Lemma sel_fmap {A B} (f : A -> B) (l : list A) (idx : list nat) :
  sel (f <$> l) idx = f <$> sel l idx.
Proof.
  induction idx as [|k idx IH]; [reflexivity|].
  cbn [sel]. rewrite list_lookup_fmap.
  destruct (l !! k); cbn; by rewrite IH.
Qed.

Lemma sel_zip_with {A B C} (f : A -> B -> C) (l : list A) (k : list B)
    (idx : list nat) :
  length l = length k ->
  sel (zip_with f l k) idx = zip_with f (sel l idx) (sel k idx).
Proof.
  intros Hlen. induction idx as [|i idx IH]; [reflexivity|].
  cbn [sel]. rewrite lookup_zip_with.
  destruct (l !! i) as [x|] eqn:Hx.
  - destruct (lookup_lt_is_Some_2 k i) as [y Hy].
    { rewrite <- Hlen. eapply lookup_lt_Some; eauto. }
    rewrite Hy. cbn. by rewrite IH.
  - apply lookup_ge_None in Hx. rewrite Hlen in Hx.
    apply lookup_ge_None in Hx. rewrite Hx. cbn. exact IH.
Qed.

(** ** The projector *)

Section ProjectorFacts.
Variable np_cos : float -> float.
Variable np_mean : list float -> float.

(** The projection of one point with the cosine factor [c]. *)
Definition project_point (c : float) (lat lon : float) : point :=
  mkPoint (EARTH_RADIUS_M * F64.deg2rad lon * c)%float
          (EARTH_RADIUS_M * F64.deg2rad lat)%float.

(** The cosine factor of a track. *)
Definition cos_lat0 (latitudes : list float) : float :=
  np_cos (F64.deg2rad (np_mean latitudes)).

Lemma latlon_to_xy_zip (lats lons : list float) :
  length lats = length lons ->
  latlon_to_xy np_cos np_mean lats lons
  = Ret (zip_with (project_point (cos_lat0 lats)) lats lons).
Proof.
  intros Hlen. unfold latlon_to_xy, len.
  destruct (Z.eqb_spec (Z.of_nat (length lats)) 0) as [H0|H0].
  { destruct lats; [|cbn in H0; lia]. reflexivity. }
  unfold column_stack. rewrite !length_fmap, Hlen, Nat.eqb_refl. f_equal.
  apply list_eq. intros i.
  rewrite !lookup_zip_with, !list_lookup_fmap.
  destruct (lats !! i), (lons !! i); reflexivity.
Qed.

(** C5: the projector maps a track of N points to N planar points in the
    same order, the point number i being
    [(R * radians(lon_i) * cos(radians(mean latitude)), R * radians(lat_i))]
    with R = 6371000; it raises nothing, and the empty track gives the
    empty sequence. *)
Theorem latlon_to_xy_projection (lats lons : list float) :
  length lats = length lons ->
  exists pts : list point,
    latlon_to_xy np_cos np_mean lats lons = Ret pts /\
    length pts = length lats /\
    (lats = [] -> pts = []) /\
    forall (i : nat) (lat lon : float),
      lats !! i = Some lat -> lons !! i = Some lon ->
      pts !! i = Some
        (mkPoint
           (6371000 * F64.deg2rad lon * np_cos (F64.deg2rad (np_mean lats)))%float
           (6371000 * F64.deg2rad lat)%float).
Proof.
  intros Hlen. eexists. split; [apply latlon_to_xy_zip; exact Hlen|].
  split; [|split].
  - rewrite length_zip_with. lia.
  - intros ->. reflexivity.
  - intros i lat lon Hlat Hlon. rewrite lookup_zip_with, Hlat, Hlon. reflexivity.
Qed.

(** *** The orchestration on parallel arrays *)

Lemma simplify_arrays_kept (lats lons : list float) (eps : float) :
  length lats = length lons -> (2 < length lats)%nat ->
  let pts := zip_with (project_point (cos_lat0 lats)) lats lons in
  _simplify_arrays np_cos np_mean lats lons eps
  = Ret (sel lats (kept pts eps), sel lons (kept pts eps)).
Proof.
  intros Hlen Hn pts. unfold _simplify_arrays.
  destruct (Nat.leb_spec (length lats) 2); [lia|].
  rewrite latlon_to_xy_zip by done. cbn [bind]. fold pts.
  rewrite rdp_indices_kept. cbn [bind].
  assert (length pts = length lats) as Hpts.
  { unfold pts. rewrite length_zip_with. lia. }
  pose proof (kept_bound pts eps) as Hb. rewrite Hpts in Hb.
  rewrite (py_take_sel lats) by done. cbn [bind].
  rewrite (py_take_sel lons) by (rewrite <- Hlen; done).
  reflexivity.
Qed.

(** C8 (as amended): when the two arrays differ in length, simplify
    returns the two arrays as they are if there are at most two latitudes,
    and fails with the ValueError of the column stacking otherwise. *)
Theorem simplify_arrays_length_mismatch (self : GPSSimplifier)
    (lats lons : list float) (eps : option float) :
  length lats <> length lons ->
  simplify np_cos np_mean self (Arrays lats lons) eps =
  if (length lats <=? 2)%nat then Ret (Arrays lats lons)
  else Raise (ValueError "array dimensions must match").
Proof.
  intros Hne. unfold simplify, _simplify_arrays.
  destruct (length lats <=? 2)%nat eqn:E; [reflexivity|].
  unfold latlon_to_xy, len.
  destruct (Z.eqb_spec (Z.of_nat (length lats)) 0) as [H0|H0].
  { apply Nat.leb_gt in E. lia. }
  unfold column_stack. rewrite !length_fmap.
  destruct (Nat.eqb_spec (length lons) (length lats)); [congruence|].
  reflexivity.
Qed.
End ProjectorFacts.

Lemma latlon_to_xy_projection_witness :
  exists pts : list point,
    latlon_to_xy cos_series mean_seq [45; 46]%float [1; 2]%float = Ret pts /\
    length pts = 2%nat.
Proof.
  destruct (latlon_to_xy_projection cos_series mean_seq [45; 46]%float [1; 2]%float
    eq_refl) as (pts & Hpts & Hlen & _).
  exists pts. split; [exact Hpts|exact Hlen].
Defined.

Lemma simplify_arrays_length_mismatch_witness :
  simplify cos_series mean_seq default_simplifier (Arrays [1; 2; 3] [1; 2])%float None
  = Raise (ValueError "array dimensions must match").
Proof.
  apply (simplify_arrays_length_mismatch cos_series mean_seq default_simplifier
    [1; 2; 3]%float [1; 2]%float None).
  cbn. lia.
Defined.

(** C8 (as stated) fails on short arrays: no length is compared, and
    arrays of lengths 1 and 2 come back unchanged. *)
Lemma simplify_arrays_length_mismatch_counterexample :
  simplify cos_series mean_seq default_simplifier (Arrays [1] [1; 2])%float None
  = Ret (Arrays [1] [1; 2])%float.
Proof. reflexivity. Qed.

(** ** The tolerance is not validated *)

(** A table holding both columns, or two arrays of one length. *)
Definition well_shaped (data : track) : Prop :=
  match data with
  | Table df => has_column df "latitude" && has_column df "longitude" = true
  | Arrays lats lons => length lats = length lons
  end.

Section Orchestration.
Variable np_cos : float -> float.
Variable np_mean : list float -> float.

Lemma df_column_length (df : DataFrame) (name : string) :
  has_column df name = true ->
  exists col, df_column df name = Ret col /\ length col = length (df_rows df).
Proof.
  unfold has_column, df_column. destruct (col_index name (df_columns df)); [|done].
  intros _. eexists. split; [reflexivity|]. apply length_fmap.
Qed.

Lemma simplify_dataframe_kept (df : DataFrame) (eps : float) :
  has_column df "latitude" && has_column df "longitude" = true ->
  (2 < length (df_rows df))%nat ->
  exists lats lons,
    df_column df "latitude" = Ret lats /\ df_column df "longitude" = Ret lons /\
    length lats = length (df_rows df) /\ length lons = length (df_rows df) /\
    let pts := zip_with (project_point (cos_lat0 np_cos np_mean lats)) lats lons in
    _simplify_dataframe np_cos np_mean df eps
    = Ret (mkDataFrame (df_columns df) (sel (df_rows df) (kept pts eps))).
Proof.
  intros Hcols Hn. unfold _simplify_dataframe. rewrite Hcols. cbn [negb].
  apply andb_true_iff in Hcols as [Hlat Hlon].
  destruct (df_column_length df "latitude" Hlat) as (lats & Elat & Llat).
  destruct (df_column_length df "longitude" Hlon) as (lons & Elon & Llon).
  exists lats, lons. do 4 (split; [done|]). cbv zeta.
  set (pts := zip_with _ lats lons). destruct (Nat.leb_spec (length (df_rows df)) 2); [lia|].
  rewrite Elat, Elon. cbn [bind].
  rewrite (latlon_to_xy_zip np_cos np_mean) by congruence. cbn [bind]. fold pts.
  rewrite rdp_indices_kept. cbn [bind]. unfold df_iloc.
  assert (length pts = length (df_rows df)) as Hpts.
  { unfold pts. rewrite length_zip_with. lia. }
  pose proof (kept_bound pts eps) as Hb. rewrite Hpts in Hb.
  rewrite (py_take_sel (df_rows df)) by done. reflexivity.
Qed.

(** On a table with both columns and on arrays of one length simplify
    returns a track, whatever the numbers in it and whatever the tolerance. *)
Lemma simplify_returns (self : GPSSimplifier) (data : track) (eps : option float) :
  well_shaped data ->
  exists r, simplify np_cos np_mean self data eps = Ret r.
Proof.
  intros Hw. unfold simplify.
  set (epsilon := match eps with Some e => e | None => epsilon_meters self end).
  destruct data as [df|lats lons]; cbn [well_shaped] in *.
  - destruct (Nat.le_gt_cases (length (df_rows df)) 2) as [Hle|Hgt].
    + unfold _simplify_dataframe. rewrite Hw. cbn [negb].
      apply Nat.leb_le in Hle. rewrite Hle. eexists. reflexivity.
    + destruct (simplify_dataframe_kept df epsilon Hw Hgt)
        as (lats & lons & _ & _ & _ & _ & ->).
      eexists. reflexivity.
  - destruct (Nat.le_gt_cases (length lats) 2) as [Hle|Hgt].
    + unfold _simplify_arrays. apply Nat.leb_le in Hle. rewrite Hle.
      eexists. reflexivity.
    + rewrite (simplify_arrays_kept np_cos np_mean lats lons epsilon Hw Hgt).
      eexists. reflexivity.
Qed.

(** C2 (as amended): no epsilon is rejected.  For every epsilon, negative
    or not finite included, the reducer returns an index set for every
    sequence of points, and simplify returns a track for every table with
    both columns and for every pair of arrays of one length. *)
Theorem epsilon_not_validated (self : GPSSimplifier) (data : track) (eps : float) :
  well_shaped data ->
  (forall pts : list point, exists idx, rdp_indices pts eps = Ret idx) /\
  exists r, simplify np_cos np_mean self data (Some eps) = Ret r.
Proof.
  intros Hw. split.
  - intros pts. eexists. apply rdp_indices_kept.
  - apply simplify_returns. exact Hw.
Qed.

(** C9 (as amended): no coordinate is validated and no typed error exists.
    Whatever the numbers, NaN and infinities included, simplify returns a
    track on a table with both columns and on arrays of one length, and the
    reducer returns an index set; when an interior point has a NaN
    coordinate, the NaN goes through the distance into the comparison with
    epsilon, which is false, and only the two ends are retained. *)
Theorem nan_coordinates_not_rejected (self : GPSSimplifier) (data : track)
    (eps_arg : option float) (pts : list point) (eps : float) :
  (well_shaped data -> exists r, simplify np_cos np_mean self data eps_arg = Ret r) /\
  (exists idx, rdp_indices pts eps = Ret idx) /\
  (forall (k : nat) (p : point),
     (0 < k < length pts - 1)%nat -> pts !! k = Some p ->
     (PrimFloat.is_nan (px p) || PrimFloat.is_nan (py p)) = true ->
     rdp_indices pts eps = Ret [0; len pts - 1]).
Proof.
  split; [apply simplify_returns|]. split.
  - eexists. apply rdp_indices_kept.
  - apply nan_interior_keeps_ends.
Qed.
End Orchestration.

Lemma nan_coordinates_not_rejected_witness :
  rdp_indices [mkPoint 0 0; mkPoint nan 5; mkPoint 1 0] 1 = Ret [0; 2].
Proof.
  apply (nan_coordinates_not_rejected cos_series mean_seq default_simplifier
    (Arrays [] []) None [mkPoint 0 0; mkPoint nan 5; mkPoint 1 0] 1)
    with (k := 1%nat) (p := mkPoint nan 5).
  - cbn. lia.
  - reflexivity.
  - reflexivity.
Defined.

(** C9 (as stated) fails: a NaN or an infinite coordinate raises no error,
    an index set is computed from it, and simplify returns a track. *)
Lemma nan_coordinates_counterexample :
  rdp_indices [mkPoint 0 0; mkPoint nan 5; mkPoint 1 0] 1 = Ret [0; 2] /\
  rdp_indices [mkPoint 0 0; mkPoint infinity 5; mkPoint 1 0] 1 = Ret [0; 1; 2] /\
  simplify cos_series mean_seq default_simplifier
    (Arrays [0; nan; 1; 2] [0; 1; 2; 3])%float (Some 1%float)
  = Ret (Arrays [0; 2] [0; 3])%float.
Proof. vm_compute. repeat split. Qed.

Lemma epsilon_not_validated_witness :
  (forall pts : list point, exists idx, rdp_indices pts (-1) = Ret idx) /\
  exists r, simplify cos_series mean_seq default_simplifier
              (Arrays [0; 1; 0; 2] [0; 1; 2; 3])%float (Some (-1)%float) = Ret r.
Proof.
  apply (epsilon_not_validated cos_series mean_seq default_simplifier
    (Arrays [0; 1; 0; 2] [0; 1; 2; 3])%float (-1)). reflexivity.
Defined.

(** C2 (as stated) fails: a negative epsilon, a NaN and an infinite one are
    all taken as they come and a result is returned. *)
Lemma epsilon_not_validated_counterexample :
  ((-1) <? 0)%float = true /\
  rdp_indices [mkPoint 0 0; mkPoint 1 1; mkPoint 2 0] (-1) = Ret [0; 1; 2] /\
  rdp_indices [mkPoint 0 0; mkPoint 1 1; mkPoint 2 0] nan = Ret [0; 2] /\
  rdp_indices [mkPoint 0 0; mkPoint 1 1; mkPoint 2 0] neg_infinity = Ret [0; 1; 2] /\
  simplify cos_series mean_seq default_simplifier
    (Arrays [0; 1; 0; 2] [0; 1; 2; 3])%float (Some (-1)%float)
  = Ret (Arrays [0; 1; 0; 2] [0; 1; 2; 3])%float.
Proof. vm_compute. repeat split. Qed.

(** ** The distance of a point to a segment *)

Lemma ltb_asym (x y : float) : (x <? y)%float = true -> (y <? x)%float = false.
Proof.
  intros H. destruct (y <? x)%float eqn:E; [|reflexivity].
  apply FloatOrder.ltb_not_leb in E. apply FloatOrder.ltb_leb in H. congruence.
Qed.

Lemma clip_below (t : float) : (t <? 0)%float = true -> F64.clip t 0 1 = 0%float.
Proof.
  intros H. unfold F64.clip, F64.npy_max, F64.npy_min, F64.gt, F64.isnan.
  destruct (FloatOrder.ltb_not_nan _ _ H) as [-> _].
  rewrite (ltb_asym _ _ H). reflexivity.
Qed.

Lemma clip_above (t : float) : (1 <? t)%float = true -> F64.clip t 0 1 = 1%float.
Proof.
  intros H. unfold F64.clip, F64.npy_max, F64.npy_min, F64.gt, F64.isnan.
  destruct (FloatOrder.ltb_not_nan _ _ H) as [_ Hn].
  rewrite Hn, (FloatOrder.ltb_trans 0 1 t eq_refl H), Hn, (ltb_asym _ _ H).
  reflexivity.
Qed.

Lemma clip_inside (t : float) :
  (0 <? t)%float = true -> (t <? 1)%float = true -> F64.clip t 0 1 = t.
Proof.
  intros H0 H1. unfold F64.clip, F64.npy_max, F64.npy_min, F64.gt, F64.isnan.
  destruct (FloatOrder.ltb_not_nan _ _ H0) as [_ Hn].
  rewrite Hn, H0, Hn, H1. reflexivity.
Qed.

Lemma distance_degenerate (p a : point) :
  PrimFloat.is_finite (px a) = true -> PrimFloat.is_finite (py a) = true ->
  _point_segment_distance_numpy p a a = Vec.norm (Vec.sub p a).
Proof.
  intros Hx Hy. unfold _point_segment_distance_numpy, Vec.sub at 1 2, Vec.dot at 1.
  cbn [px py]. rewrite (FloatFacts.sub_diag _ Hx), (FloatFacts.sub_diag _ Hy).
  reflexivity.
Qed.

Lemma sub_nan_r (x : float) : (x - nan)%float = nan.
Proof.
  apply Prim2SF_inj. rewrite sub_spec.
  change (Prim2SF nan) with S754_nan. unfold SF64sub, SFsub.
  destruct (Prim2SF x) as [[]|[]| |[] m e]; reflexivity.
Qed.

(** A parameter that is NaN makes the distance NaN, unless the squared
    length is zero. *)
Lemma distance_nan_param (p a b : point) :
  (Vec.dot (Vec.sub b a) (Vec.sub b a) =? 0)%float = false ->
  PrimFloat.is_nan (seg_param p a b) = true ->
  _point_segment_distance_numpy p a b = nan.
Proof.
  intros Hlen Hnan. unfold _point_segment_distance_numpy. rewrite Hlen.
  fold (seg_param p a b). rewrite (FloatFacts.is_nan_eq _ Hnan), FloatFacts.clip_nan.
  unfold Vec.norm, Vec.dot, Vec.sub, Vec.add, Vec.scale. cbn [px py].
  rewrite !FloatFacts.mul_nan_l, !FloatFacts.add_nan_r, !sub_nan_r,
    !FloatFacts.mul_nan_l, FloatFacts.add_nan_l.
  reflexivity.
Qed.

(** C6 (amended): the distance is the distance to the finite segment
    whenever the parameter of the projection is a number.  When the
    squared length is not zero, the parameter [t] of the projection on the
    line is clamped (0 below 0, 1 above 1, [t] inside, NaN for NaN) and
    the distance is measured to [a + t * ab]; the clamped parameter lies in
    [0, 1] when [t] is not NaN, and when [t] is NaN the distance is NaN.
    When the squared length is zero, as it is when [a] equals [b] with
    finite coordinates, the distance is the norm of [p - a]. *)
Theorem point_segment_distance_clamped (p a b : point) :
  let ab := Vec.sub b a in
  let t := seg_param p a b in
  let t' := F64.clip t 0 1 in
  ((Vec.dot ab ab =? 0)%float = false ->
     _point_segment_distance_numpy p a b
     = Vec.norm (Vec.sub p (Vec.add a (Vec.scale t' ab)))) /\
  (PrimFloat.is_nan t = false -> (0 <=? t')%float = true /\ (t' <=? 1)%float = true) /\
  ((t <? 0)%float = true -> t' = 0%float) /\
  ((1 <? t)%float = true -> t' = 1%float) /\
  ((0 <? t)%float = true -> (t <? 1)%float = true -> t' = t) /\
  (PrimFloat.is_nan t = true ->
     t' = nan /\
     ((Vec.dot ab ab =? 0)%float = false ->
        _point_segment_distance_numpy p a b = nan)) /\
  ((Vec.dot ab ab =? 0)%float = true ->
     _point_segment_distance_numpy p a b = Vec.norm (Vec.sub p a)) /\
  (a = b -> PrimFloat.is_finite (px a) = true -> PrimFloat.is_finite (py a) = true ->
     _point_segment_distance_numpy p a b = Vec.norm (Vec.sub p a)).
Proof.
  cbv zeta. repeat split.
  - intros H. unfold _point_segment_distance_numpy, seg_param. rewrite H. reflexivity.
  - apply FloatFacts.clip_unit. assumption.
  - apply FloatFacts.clip_unit. assumption.
  - apply clip_below.
  - apply clip_above.
  - apply clip_inside.
  - rewrite (FloatFacts.is_nan_eq _ H). apply FloatFacts.clip_nan.
  - intros Hlen. apply distance_nan_param; assumption.
  - intros H. unfold _point_segment_distance_numpy. rewrite H. reflexivity.
  - intros <-. apply distance_degenerate.
Qed.

Lemma point_segment_distance_clamped_witness :
  _point_segment_distance_numpy (mkPoint 3 1) (mkPoint 0 0) (mkPoint 2 0)
  = Vec.norm (Vec.sub (mkPoint 3 1)
                (Vec.add (mkPoint 0 0) (Vec.scale 1 (Vec.sub (mkPoint 2 0) (mkPoint 0 0))))) /\
  F64.clip (seg_param (mkPoint 3 1) (mkPoint 0 0) (mkPoint 2 0)) 0 1 = 1%float /\
  _point_segment_distance_numpy (mkPoint 3 1) (mkPoint 2 0) (mkPoint 2 0)
  = Vec.norm (Vec.sub (mkPoint 3 1) (mkPoint 2 0)).
Proof.
  split; [|split].
  - exact (proj1 (point_segment_distance_clamped
                    (mkPoint 3 1) (mkPoint 0 0) (mkPoint 2 0)) eq_refl).
  - exact (proj1 (proj2 (proj2 (proj2 (point_segment_distance_clamped
                    (mkPoint 3 1) (mkPoint 0 0) (mkPoint 2 0))))) eq_refl).
  - exact (proj2 (proj2 (proj2 (proj2 (proj2 (proj2 (proj2
             (point_segment_distance_clamped
                (mkPoint 3 1) (mkPoint 2 0) (mkPoint 2 0))))))))
             eq_refl eq_refl eq_refl).
Defined.

(** C6 (as stated) fails.  On the finite points p = (2^600, 1), a = (0, 0),
    b = (2^600, 0) the parameter is infinity / infinity, a NaN: it is not
    clamped into [0, 1] and the distance is NaN, while the point is at
    distance 1 of the segment.  And for a = b = (infinity, 0) the squared
    length is NaN, not zero: the distance of p = (0, 0) is NaN, while the
    norm of p - a is infinity. *)
Lemma point_segment_distance_counterexample :
  PrimFloat.is_finite 0x1p+600 = true /\
  PrimFloat.is_nan
    (seg_param (mkPoint 0x1p+600 1) (mkPoint 0 0) (mkPoint 0x1p+600 0)) = true /\
  (0 <=? F64.clip
           (seg_param (mkPoint 0x1p+600 1) (mkPoint 0 0) (mkPoint 0x1p+600 0))
           0 1)%float = false /\
  PrimFloat.is_nan
    (_point_segment_distance_numpy
       (mkPoint 0x1p+600 1) (mkPoint 0 0) (mkPoint 0x1p+600 0)) = true /\
  PrimFloat.is_nan
    (_point_segment_distance_numpy
       (mkPoint 0 0) (mkPoint infinity 0) (mkPoint infinity 0)) = true /\
  Vec.norm (Vec.sub (mkPoint 0 0) (mkPoint infinity 0)) = infinity.
Proof. vm_compute. repeat split. Qed.

(** ** The argmax is the first maximum *)

Section Argmax.
Import FloatOrder.
Implicit Types (l : list float) (d mp x : float).

(** [d] at position [q] bounds every element of [l] and is strictly
    above the elements before it. *)
Definition first_max l (q : nat) d : Prop :=
  l !! q = Some d /\
  (forall k x, l !! k = Some x -> (x <=? d)%float = true) /\
  (forall k x, (k < q)%nat -> l !! k = Some x -> (x <? d)%float = true).

Lemma argmax_scan_keep l :
  forall mp mi i,
  (forall k x, l !! k = Some x -> (x <=? mp)%float = true) ->
  F64.argmax_scan mp mi i l = mi.
Proof.
  induction l as [|x r IH]; intros mp mi i Hall; [reflexivity|].
  cbn [F64.argmax_scan]. rewrite (Hall 0%nat x eq_refl). cbn [negb].
  apply IH. intros k y Hy. apply (Hall (S k)). exact Hy.
Qed.

Lemma argmax_scan_first_max l :
  forall mp mi i q d,
  (mp <? d)%float = true -> first_max l q d ->
  F64.argmax_scan mp mi i l = (i + q)%nat.
Proof.
  induction l as [|x r IH]; intros mp mi i q d Hmp (Hq & Hall & Hbefore).
  { rewrite lookup_nil in Hq. discriminate. }
  cbn [F64.argmax_scan]. unfold F64.isnan. destruct q as [|q].
  - cbn in Hq. injection Hq as ->.
    rewrite (ltb_not_leb _ _ Hmp). cbn [negb].
    destruct (ltb_not_nan _ _ Hmp) as [_ ->].
    rewrite Nat.add_0_r. apply argmax_scan_keep.
    intros k y Hy. apply (Hall (S k)). exact Hy.
  - assert (first_max r q d) as Hr.
    { split; [exact Hq|]. split.
      - intros k y Hy. apply (Hall (S k)). exact Hy.
      - intros k y Hk Hy. apply (Hbefore (S k)); [lia|exact Hy]. }
    pose proof (Hbefore 0%nat x ltac:(lia) eq_refl) as Hx.
    replace (i + S q)%nat with (S i + q)%nat by lia.
    destruct (x <=? mp)%float; cbn [negb].
    + apply IH with d; assumption.
    + destruct (ltb_not_nan _ _ Hx) as [-> _]. apply IH with d; assumption.
Qed.

(** The position of a first maximum is the argmax. *)
Lemma argmax_first_max l q d : first_max l q d -> F64.argmax l = q.
Proof.
  intros (Hq & Hall & Hbefore). destruct l as [|x r].
  { rewrite lookup_nil in Hq. discriminate. }
  cbn [F64.argmax]. unfold F64.isnan. destruct q as [|q].
  - cbn in Hq. injection Hq as ->.
    destruct (leb_not_nan _ _ (Hall 0%nat d eq_refl)) as [-> _].
    apply argmax_scan_keep. intros k y Hy. apply (Hall (S k)). exact Hy.
  - pose proof (Hbefore 0%nat x ltac:(lia) eq_refl) as Hx.
    destruct (ltb_not_nan _ _ Hx) as [-> _].
    apply (argmax_scan_first_max r x 0%nat 1%nat q d Hx).
    split; [exact Hq|]. split.
    + intros k y Hy. apply (Hall (S k)). exact Hy.
    + intros k y Hk Hy. apply (Hbefore (S k)); [lia|exact Hy].
Qed.

(** What the scan returns: the index it was given when no element is above
    the running maximum; otherwise the position of a NaN, or of a first
    maximum above the running maximum. *)
Lemma argmax_scan_spec l :
  forall mp mi i, PrimFloat.is_nan mp = false ->
  let m := F64.argmax_scan mp mi i l in
  (m = mi /\ forall k x, l !! k = Some x -> (x <=? mp)%float = true) \/
  (exists d, (i <= m)%nat /\ l !! (m - i)%nat = Some d /\
     (PrimFloat.is_nan d = true \/
      ((mp <? d)%float = true /\ first_max l (m - i) d))).
Proof.
  induction l as [|x r IH]; intros mp mi i Hmp; cbv zeta.
  { left. split; [reflexivity|]. intros k y Hy. rewrite lookup_nil in Hy. discriminate. }
  cbn [F64.argmax_scan]. unfold F64.isnan.
  destruct (x <=? mp)%float eqn:Ele; cbn [negb].
  - destruct (IH mp mi (S i) Hmp) as [[Hm Hall]|(d & Hle & Hd & Hcase)].
    + left. split; [exact Hm|]. intros [|k] y Hy; [|eapply Hall; exact Hy].
      cbn in Hy. injection Hy as <-. exact Ele.
    + right. exists d.
      replace (F64.argmax_scan mp mi (S i) r - i)%nat
        with (S (F64.argmax_scan mp mi (S i) r - S i)) by lia.
      split; [lia|]. split; [exact Hd|].
      destruct Hcase as [Hnan|(Hlt & _ & Hall & Hbefore)]; [left; exact Hnan|].
      right. split; [exact Hlt|]. split; [exact Hd|]. split.
      * intros [|k] y Hy; [|eapply Hall; exact Hy].
        cbn in Hy. injection Hy as <-.
        apply ltb_leb. eapply leb_ltb_trans; eassumption.
      * intros [|k] y Hk Hy.
        -- cbn in Hy. injection Hy as <-. eapply leb_ltb_trans; eassumption.
        -- eapply (Hbefore k); [lia|exact Hy].
  - destruct (PrimFloat.is_nan x) eqn:Hx.
    { right. exists x. rewrite Nat.sub_diag. split; [lia|]. split; [reflexivity|].
      left. exact Hx. }
    pose proof (not_leb_ltb x mp Hx Hmp Ele) as Hlt.
    destruct (IH x i (S i) Hx) as [[Hm Hall]|(d & Hle & Hd & Hcase)].
    + right. exists x. rewrite Hm, Nat.sub_diag. split; [lia|]. split; [reflexivity|].
      right. split; [exact Hlt|]. split; [reflexivity|]. split.
      * intros [|k] y Hy; [|eapply Hall; exact Hy].
        cbn in Hy. injection Hy as <-. apply leb_refl. exact Hx.
      * intros k y Hk. lia.
    + right. exists d.
      replace (F64.argmax_scan x i (S i) r - i)%nat
        with (S (F64.argmax_scan x i (S i) r - S i)) by lia.
      split; [lia|]. split; [exact Hd|].
      destruct Hcase as [Hnan|(Hxd & _ & Hall & Hbefore)]; [left; exact Hnan|].
      right. split; [eapply ltb_trans; eassumption|]. split; [exact Hd|]. split.
      * intros [|k] y Hy; [|eapply Hall; exact Hy].
        cbn in Hy. injection Hy as <-. apply ltb_leb. exact Hxd.
      * intros [|k] y Hk Hy.
        -- cbn in Hy. injection Hy as <-. exact Hxd.
        -- eapply (Hbefore k); [lia|exact Hy].
Qed.

(** An argmax that is not a NaN is a first maximum. *)
Lemma argmax_is_first_max l d :
  l !! F64.argmax l = Some d -> PrimFloat.is_nan d = false ->
  first_max l (F64.argmax l) d.
Proof.
  destruct l as [|x r]; [intros H; rewrite lookup_nil in H; discriminate|].
  cbn [F64.argmax]. unfold F64.isnan.
  destruct (PrimFloat.is_nan x) eqn:Hx.
  { intros Hd0 Hd. cbn in Hd0. injection Hd0 as ->.
    rewrite Hx in Hd. discriminate Hd. }
  intros Hd Hnan.
  destruct (argmax_scan_spec r x 0%nat 1%nat Hx) as [[Hm Hall]|(d' & Hle & Hd' & Hcase)].
  - rewrite Hm in Hd |- *. cbn in Hd. injection Hd as <-.
    split; [reflexivity|]. split.
    + intros [|k] y Hy; [|eapply Hall; exact Hy].
      cbn in Hy. injection Hy as <-. apply leb_refl. exact Hx.
    + intros k y Hk. lia.
  - remember (F64.argmax_scan x 0 1 r) as m eqn:Em.
    destruct m as [|m]; [lia|].
    change ((x :: r) !! S m) with (r !! m) in Hd.
    replace (S m - 1)%nat with m in * by lia.
    assert (d' = d) as -> by (rewrite Hd in Hd'; injection Hd' as ->; reflexivity).
    destruct Hcase as [Hc|(Hxd & _ & Hall & Hbefore)];
      [rewrite Hc in Hnan; discriminate Hnan|].
    split; [exact Hd|]. split.
    + intros [|k] y Hy; [|eapply Hall; exact Hy].
      cbn in Hy. injection Hy as <-. apply ltb_leb. exact Hxd.
    + intros [|k] y Hk Hy.
      * cbn in Hy. injection Hy as <-. exact Hxd.
      * eapply (Hbefore k); [lia|exact Hy].
Qed.
End Argmax.

(** ** Reducing a reduced sequence

    The points a reduction retains, reduced again with the same epsilon
    on the same plane, are all retained: in every range the farthest
    point is the one that split the range the first time. *)

(** The points of [pts] at the indices [ks] are the points of [pts'] from
    the position [o] on. *)
Definition embeds (pts pts' : list point) (o : nat) (ks : list nat) : Prop :=
  forall t k, ks !! t = Some k ->
  exists p, pts !! k = Some p /\ pts' !! (o + t)%nat = Some p.

Lemma split_dist_lookup (pts : list point) (i j : nat) :
  (i < j < length pts)%nat -> (1 < j - i)%nat ->
  range_distances pts i j !! F64.argmax (range_distances pts i j)
  = Some (split_dist pts i j).
Proof.
  intros Hij H1. unfold split_dist. cbv zeta.
  assert (F64.argmax (range_distances pts i j) < length (range_distances pts i j))%nat
    as Hlt.
  { apply argmax_lt. intros E. apply (f_equal length) in E.
    rewrite range_distances_length_eq in E by done. cbn in E. lia. }
  destruct (lookup_lt_is_Some_2 _ _ Hlt) as [d Hd].
  rewrite Hd. f_equal. symmetry. apply nth_lookup_Some. exact Hd.
Qed.

Lemma subsample_first_max (pts pts' : list point) (i j o : nat)
    (L1 L2 : list nat) :
  (i < j < length pts)%nat -> (1 < j - i)%nat ->
  PrimFloat.is_nan (split_dist pts i j) = false ->
  Forall (fun k => i < k < split_idx pts i j)%nat L1 ->
  Forall (fun k => split_idx pts i j < k < j)%nat L2 ->
  embeds pts pts' o (i :: (L1 ++ split_idx pts i j :: L2) ++ [j]) ->
  first_max (range_distances pts' o (o + 1 + length (L1 ++ split_idx pts i j :: L2)))
    (length L1) (split_dist pts i j).
Proof.
  intros Hij H1 Hnan HL1 HL2 He.
  set (m := split_idx pts i j) in *. set (L := L1 ++ m :: L2) in *.
  set (j' := (o + 1 + length L)%nat).
  pose proof (split_idx_bounds pts i j H1) as Hm. fold m in Hm.
  pose proof (split_dist_lookup pts i j Hij H1) as Hd.
  pose proof (argmax_is_first_max _ _ Hd Hnan) as (_ & Hall & Hbefore).
  assert (F64.argmax (range_distances pts i j) = m - S i)%nat as Hr
    by (unfold m, split_idx; lia).
  rewrite Hr in Hd, Hbefore.
  (* the two ends *)
  destruct (He 0%nat i eq_refl) as (a & Ha & Ha').
  destruct (He (S (length L)) j) as (b & Hb & Hb').
  { change ((i :: L ++ [j]) !! S (length L)) with ((L ++ [j]) !! length L).
    rewrite list_lookup_middle by done. reflexivity. }
  rewrite Nat.add_0_r in Ha'.
  replace (o + S (length L))%nat with j' in Hb' by (unfold j'; lia).
  (* the interior points *)
  assert (forall t x, range_distances pts' o j' !! t = Some x ->
    exists k, L !! t = Some k /\ (i < k < j)%nat /\
      range_distances pts i j !! (k - S i)%nat = Some x) as Hsub.
  { intros t x Hx.
    assert (t < length L)%nat as Ht.
    { apply lookup_lt_Some in Hx.
      pose proof (range_distances_length pts' o j'). unfold j' in *. lia. }
    destruct (lookup_lt_is_Some_2 L t Ht) as [k Hk].
    assert (i < k < j)%nat as Hikj.
    { apply list_elem_of_lookup_2 in Hk. unfold L in Hk.
      rewrite Forall_forall in HL1, HL2.
      apply elem_of_app in Hk as [Hk|Hk]; [apply HL1 in Hk; lia|].
      apply elem_of_cons in Hk as [->|Hk]; [lia|apply HL2 in Hk; lia]. }
    destruct (He (S t) k) as (p & Hp & Hp').
    { change ((i :: L ++ [j]) !! S t) with ((L ++ [j]) !! t).
      rewrite lookup_app_l by done. exact Hk. }
    exists k. split; [exact Hk|]. split; [exact Hikj|].
    rewrite (range_distances_lookup pts' o j' a b Ha' Hb') in Hx
      by (unfold j'; lia).
    replace (S o + t)%nat with (o + S t)%nat in Hx by lia.
    rewrite Hp' in Hx.
    rewrite (range_distances_lookup pts i j a b Ha Hb) by lia.
    replace (S i + (k - S i))%nat with k by lia. rewrite Hp. exact Hx. }
  split; [|split].
  - assert (length L1 < length L)%nat as Ht
      by (unfold L; rewrite length_app; cbn; lia).
    assert (length (range_distances pts' o j') = length L) as Hlen.
    { rewrite range_distances_length_eq; [unfold j'; lia|].
      apply lookup_lt_Some in Hb'. unfold j' in *. lia. }
    destruct (lookup_lt_is_Some_2 (range_distances pts' o j') (length L1)) as [x Hx];
      [lia|].
    destruct (Hsub _ _ Hx) as (k & Hk & _ & Hkx).
    unfold L in Hk. rewrite list_lookup_middle in Hk by done.
    injection Hk as <-. rewrite Hd in Hkx. injection Hkx as <-. exact Hx.
  - intros t x Hx. destruct (Hsub _ _ Hx) as (k & _ & _ & Hkx).
    eapply Hall. exact Hkx.
  - intros t x Ht Hx. destruct (Hsub _ _ Hx) as (k & Hk & Hikj & Hkx).
    unfold L in Hk. rewrite lookup_app_l in Hk by done.
    apply list_elem_of_lookup_2 in Hk.
    rewrite Forall_forall in HL1. apply HL1 in Hk.
    eapply (Hbefore (k - S i)%nat); [lia|exact Hkx].
Qed.

Lemma embeds_prefix (pts pts' : list point) (o : nat) (ks ks' : list nat) :
  embeds pts pts' o (ks ++ ks') -> embeds pts pts' o ks.
Proof.
  intros He t k Hk. apply (He t k). apply lookup_app_l_Some. exact Hk.
Qed.

Lemma embeds_suffix (pts pts' : list point) (o : nat) (ks ks' : list nat) :
  embeds pts pts' o (ks ++ ks') -> embeds pts pts' (o + length ks) ks'.
Proof.
  intros He t k Hk. destruct (He (length ks + t)%nat k) as (p & Hp & Hp').
  { rewrite lookup_app_r by lia.
    replace (length ks + t - length ks)%nat with t by lia. exact Hk. }
  exists p. split; [exact Hp|].
  replace (o + length ks + t)%nat with (o + (length ks + t))%nat by lia. exact Hp'.
Qed.

Lemma rdp_rec_idem (pts pts' : list point) (eps : float) :
  forall i j, (i < j < length pts)%nat ->
  forall o, embeds pts pts' o (i :: rdp_rec pts eps i j ++ [j]) ->
  rdp_rec pts' eps o (o + 1 + length (rdp_rec pts eps i j))
  = seq (S o) (length (rdp_rec pts eps i j)).
Proof.
  apply (range_ind (fun i j => (i < j < length pts)%nat ->
    forall o, embeds pts pts' o (i :: rdp_rec pts eps i j ++ [j]) ->
    rdp_rec pts' eps o (o + 1 + length (rdp_rec pts eps i j))
    = seq (S o) (length (rdp_rec pts eps i j)))).
  intros i j IH Hij o.
  assert (forall o', rdp_rec pts' eps o' (o' + 1 + 0) = seq (S o') 0) as Hnil.
  { intros o'. rewrite rdp_rec_step.
    destruct (Nat.leb_spec (o' + 1 + 0 - o') 1); [reflexivity|lia]. }
  rewrite (rdp_rec_step pts eps i j).
  destruct (Nat.leb_spec (j - i) 1) as [|H1]; [intros _; apply Hnil|].
  destruct (F64.gt (split_dist pts i j) eps) eqn:Egt; [|intros _; apply Hnil].
  set (m := split_idx pts i j).
  set (L1 := rdp_rec pts eps i m). set (L2 := rdp_rec pts eps m j).
  intros He.
  pose proof (split_idx_bounds pts i j H1) as Hm. fold m in Hm.
  assert (PrimFloat.is_nan (split_dist pts i j) = false) as Hnan.
  { unfold F64.gt in Egt. apply FloatOrder.ltb_not_nan in Egt as [_ H]. exact H. }
  pose proof (subsample_first_max pts pts' i j o L1 L2 Hij H1 Hnan
    (rdp_rec_between pts eps i m) (rdp_rec_between pts eps m j) He) as Hfm.
  fold m in Hfm.
  set (j' := (o + 1 + length (L1 ++ m :: L2))%nat) in *.
  assert (split_idx pts' o j' = o + 1 + length L1)%nat as K1.
  { unfold split_idx. rewrite (argmax_first_max _ _ _ Hfm). reflexivity. }
  assert (split_dist pts' o j' = split_dist pts i j) as K2.
  { unfold split_dist. cbv zeta. rewrite (argmax_first_max _ _ _ Hfm).
    apply nth_lookup_Some. apply Hfm. }
  assert (length (L1 ++ m :: L2) = length L1 + S (length L2))%nat as Hlen
    by (rewrite length_app; reflexivity).
  rewrite (rdp_rec_step pts' eps o j').
  destruct (Nat.leb_spec (j' - o) 1); [unfold j' in *; lia|].
  rewrite K2, Egt, K1.
  (* the left part *)
  assert (rdp_rec pts' eps o (o + 1 + length L1) = seq (S o) (length L1)) as ->.
  { apply IH; [lia..|].
    apply (embeds_prefix _ _ _ (i :: L1 ++ [m]) (L2 ++ [j])).
    replace ((i :: L1 ++ [m]) ++ L2 ++ [j]) with (i :: (L1 ++ m :: L2) ++ [j]);
      [exact He|].
    cbn. rewrite <- !app_assoc. reflexivity. }
  (* the right part *)
  assert (rdp_rec pts' eps (o + 1 + length L1) j'
          = seq (S (o + 1 + length L1)) (length L2)) as ->.
  { replace j' with ((o + 1 + length L1) + 1 + length L2)%nat
      by (unfold j'; lia).
    apply IH; [lia..|].
    replace (o + 1 + length L1)%nat with (o + length (i :: L1))%nat by (cbn; lia).
    apply (embeds_suffix _ _ _ (i :: L1) (m :: L2 ++ [j])).
    replace ((i :: L1) ++ m :: L2 ++ [j]) with (i :: (L1 ++ m :: L2) ++ [j]);
      [exact He|].
    cbn. rewrite <- !app_assoc. reflexivity. }
  rewrite Hlen, seq_app. cbn [seq].
  replace (S o + length L1)%nat with (o + 1 + length L1)%nat by lia.
  reflexivity.
Qed.

Lemma kept_short (pts : list point) (eps : float) :
  (length pts <= 2)%nat -> kept pts eps = seq 0 (length pts).
Proof. intros H. unfold kept. apply Nat.leb_le in H. rewrite H. reflexivity. Qed.

Lemma kept_long (pts : list point) (eps : float) :
  (2 < length pts)%nat ->
  kept pts eps = 0%nat :: rdp_rec pts eps 0 (length pts - 1) ++ [(length pts - 1)%nat].
Proof. intros H. unfold kept. apply Nat.leb_gt in H. rewrite H. reflexivity. Qed.

(** The points retained by a reduction are all retained by a second one. *)
Lemma kept_idem (pts : list point) (eps : float) :
  kept (sel pts (kept pts eps)) eps = seq 0 (length (kept pts eps)).
Proof.
  pose proof (kept_bound pts eps) as Hb.
  pose proof (length_sel pts _ Hb) as Hlen.
  pose proof (sel_lookup pts _ Hb) as Hsel.
  destruct (Nat.le_gt_cases (length pts) 2) as [Hle|Hgt].
  { rewrite (kept_short pts eps Hle), sel_all, length_seq.
    apply kept_short. exact Hle. }
  rewrite (kept_long pts eps Hgt) in *.
  set (n := length pts) in *. set (L := rdp_rec pts eps 0 (n - 1)) in *.
  set (pts' := sel pts (0%nat :: L ++ [(n - 1)%nat])) in *.
  assert (length (0%nat :: L ++ [(n - 1)%nat]) = S (length L + 1)) as HlenK.
  { cbn. rewrite length_app. reflexivity. }
  rewrite HlenK in *.
  destruct (Nat.le_gt_cases (length pts') 2) as [Hle'|Hgt'].
  { rewrite (kept_short pts' eps Hle'), Hlen. reflexivity. }
  rewrite (kept_long pts' eps Hgt'), Hlen.
  replace (S (length L + 1) - 1)%nat with (0 + 1 + length L)%nat by lia.
  unfold L at 1. rewrite (rdp_rec_idem pts pts' eps 0 (n - 1)).
  - fold L. cbn [seq]. f_equal. rewrite seq_app. cbn [seq]. reflexivity.
  - unfold n in *. lia.
  - fold L. intros t k Hk. cbn [Nat.add].
    specialize (Hsel t). rewrite Hk in Hsel.
    assert (k < length pts)%nat as Hk'.
    { rewrite Forall_forall in Hb. apply Hb.
      eapply list_elem_of_lookup_2. exact Hk. }
    destruct (lookup_lt_is_Some_2 pts k Hk') as [p Hp].
    exists p. split; [exact Hp|]. rewrite Hsel. exact Hp.
Qed.

(** X21: on one plane the reduction is idempotent: the reducer applied to
    the planar points it retained, with the same epsilon, retains all of
    them. *)
Lemma rdp_indices_idempotent (pts : list point) (eps : float) :
  exists (idx : list Z) (pts' : list point),
    rdp_indices pts eps = Ret idx /\
    py_take pts idx = Ret pts' /\
    rdp_indices pts' eps = Ret (arange (length pts')).
Proof.
  exists (Z.of_nat <$> kept pts eps), (sel pts (kept pts eps)).
  pose proof (kept_bound pts eps) as Hb.
  split; [apply rdp_indices_kept|]. split; [apply py_take_sel; exact Hb|].
  rewrite rdp_indices_kept, kept_idem, length_sel by exact Hb. reflexivity.
Qed.

(** ** Simplifying a simplified track *)

(** The latitudes of a track. *)
Definition track_latitudes (data : track) : list float :=
  match data with
  | Table df =>
      match df_column df "latitude" with
      | Ret lats => lats
      | _ => []
      end
  | Arrays lats _ => lats
  end.

Section Idempotence.
Variable np_cos : float -> float.
Variable np_mean : list float -> float.

Lemma zip_project_sel (c : float) (lats lons : list float) (idx : list nat) :
  length lats = length lons ->
  zip_with (project_point c) (sel lats idx) (sel lons idx)
  = sel (zip_with (project_point c) lats lons) idx.
Proof. intros H. symmetry. apply sel_zip_with. exact H. Qed.

Lemma simplify_arrays_idem (lats lons : list float) (eps : float) (r : list float * list float) :
  length lats = length lons ->
  _simplify_arrays np_cos np_mean lats lons eps = Ret r ->
  cos_lat0 np_cos np_mean r.1 = cos_lat0 np_cos np_mean lats ->
  _simplify_arrays np_cos np_mean r.1 r.2 eps = Ret r.
Proof.
  intros Hlen Hr Hcos.
  destruct (Nat.le_gt_cases (length lats) 2) as [Hle|Hgt].
  { unfold _simplify_arrays in Hr. apply Nat.leb_le in Hle. rewrite Hle in Hr.
    injection Hr as <-. cbn [fst snd]. unfold _simplify_arrays. rewrite Hle.
    reflexivity. }
  rewrite (simplify_arrays_kept np_cos np_mean lats lons eps Hlen Hgt) in Hr.
  cbv zeta in Hr. injection Hr as <-. cbn [fst snd] in *.
  set (pts := zip_with (project_point (cos_lat0 np_cos np_mean lats)) lats lons) in *.
  set (K := kept pts eps) in *.
  assert (length pts = length lats) as Hpts
    by (unfold pts; rewrite length_zip_with; lia).
  pose proof (kept_bound pts eps) as Hb. fold K in Hb. rewrite Hpts in Hb.
  assert (length (sel lats K) = length K) as Hl1 by (apply length_sel; exact Hb).
  assert (length (sel lons K) = length K) as Hl2
    by (apply length_sel; rewrite <- Hlen; exact Hb).
  destruct (Nat.le_gt_cases (length (sel lats K)) 2) as [Hle'|Hgt'].
  { unfold _simplify_arrays. apply Nat.leb_le in Hle'. rewrite Hle'. reflexivity. }
  rewrite (simplify_arrays_kept np_cos np_mean) by congruence. cbv zeta.
  rewrite Hcos, zip_project_sel by exact Hlen. fold pts.
  assert (kept (sel pts K) eps = seq 0 (length K)) as -> by apply kept_idem.
  rewrite <- Hl1 at 1. rewrite <- Hl2. rewrite !sel_all. reflexivity.
Qed.

Lemma simplify_dataframe_idem (df r : DataFrame) (eps : float) :
  has_column df "latitude" && has_column df "longitude" = true ->
  _simplify_dataframe np_cos np_mean df eps = Ret r ->
  cos_lat0 np_cos np_mean (track_latitudes (Table r))
  = cos_lat0 np_cos np_mean (track_latitudes (Table df)) ->
  _simplify_dataframe np_cos np_mean r eps = Ret r.
Proof.
  intros Hcols Hr Hcos.
  destruct (Nat.le_gt_cases (length (df_rows df)) 2) as [Hle|Hgt].
  { unfold _simplify_dataframe in Hr. rewrite Hcols in Hr. cbn [negb] in Hr.
    apply Nat.leb_le in Hle. rewrite Hle in Hr. injection Hr as <-.
    unfold _simplify_dataframe. rewrite Hcols, Hle. reflexivity. }
  destruct (simplify_dataframe_kept np_cos np_mean df eps Hcols Hgt)
    as (lats & lons & Elat & Elon & Llat & Llon & Hs).
  cbv zeta in Hs. rewrite Hs in Hr. injection Hr as <-.
  set (pts := zip_with (project_point (cos_lat0 np_cos np_mean lats)) lats lons) in *.
  set (K := kept pts eps) in *.
  set (df' := mkDataFrame (df_columns df) (sel (df_rows df) K)) in *.
  assert (has_column df' "latitude" && has_column df' "longitude" = true) as Hcols'
    by exact Hcols.
  assert (length pts = length (df_rows df)) as Hpts
    by (unfold pts; rewrite length_zip_with; lia).
  pose proof (kept_bound pts eps) as Hb. fold K in Hb. rewrite Hpts in Hb.
  assert (length (df_rows df') = length K) as Hrows
    by (apply length_sel; exact Hb).
  destruct (Nat.le_gt_cases (length (df_rows df')) 2) as [Hle'|Hgt'].
  { unfold _simplify_dataframe. rewrite Hcols'. cbn [negb].
    apply Nat.leb_le in Hle'. rewrite Hle'. reflexivity. }
  (* the columns of the reduced table are the reduced columns *)
  assert (forall name col, df_column df name = Ret col ->
            df_column df' name = Ret (sel col K)) as Hcol.
  { intros name col. unfold df_column. cbn [df_columns df_rows df'].
    destruct (col_index name (df_columns df)); [|discriminate].
    intros [= <-]. rewrite sel_fmap. reflexivity. }
  destruct (simplify_dataframe_kept np_cos np_mean df' eps Hcols' Hgt')
    as (lats' & lons' & Elat' & Elon' & _ & _ & Hs').
  rewrite (Hcol _ _ Elat) in Elat'. injection Elat' as <-.
  rewrite (Hcol _ _ Elon) in Elon'. injection Elon' as <-.
  cbv zeta in Hs'. rewrite Hs'. f_equal.
  cbn [track_latitudes] in Hcos. rewrite Elat, (Hcol _ _ Elat) in Hcos.
  rewrite Hcos, zip_project_sel by congruence. fold pts.
  assert (kept (sel pts K) eps = seq 0 (length K)) as -> by apply kept_idem.
  rewrite <- Hrows, sel_all. reflexivity.
Qed.

(** C4 (as amended): simplifying a simplified track with the same epsilon
    returns it unchanged whenever its projection has the cosine factor of
    the projection of the original track, that is whenever the second
    reduction works on the planar points of the first. *)
Theorem simplify_idempotent_same_factor (self : GPSSimplifier)
    (data data' : track) (eps : float) :
  well_shaped data ->
  simplify np_cos np_mean self data (Some eps) = Ret data' ->
  cos_lat0 np_cos np_mean (track_latitudes data')
  = cos_lat0 np_cos np_mean (track_latitudes data) ->
  simplify np_cos np_mean self data' (Some eps) = Ret data'.
Proof.
  intros Hw Hs Hcos. destruct data as [df|lats lons]; cbn [simplify well_shaped] in *.
  - destruct (_simplify_dataframe np_cos np_mean df eps) as [r| |] eqn:Er;
      try discriminate.
    cbn [bind] in Hs. injection Hs as <-. cbn [simplify].
    rewrite (simplify_dataframe_idem df r eps Hw Er Hcos). reflexivity.
  - destruct (_simplify_arrays np_cos np_mean lats lons eps) as [r| |] eqn:Er;
      try discriminate.
    cbn [bind] in Hs. injection Hs as <-. cbn [simplify track_latitudes] in *.
    rewrite (simplify_arrays_idem lats lons eps r Hw Er Hcos). reflexivity.
Qed.
End Idempotence.

Lemma simplify_idempotent_same_factor_witness :
  simplify cos_series mean_seq default_simplifier
    (Arrays [0; 1; -1; 0] [0; 2; 3; 4])%float (Some 60000%float)
  = Ret (Arrays [0; 1; -1; 0] [0; 2; 3; 4])%float.
Proof.
  apply (simplify_idempotent_same_factor cos_series mean_seq default_simplifier
    (Arrays [0; 0; 1; -1; 0] [0; 1; 2; 3; 4])%float
    (Arrays [0; 1; -1; 0] [0; 2; 3; 4])%float 60000).
  - reflexivity.
  - vm_compute. reflexivity.
  - vm_compute. reflexivity.
Defined.

(** C4 (as stated) fails: the second call projects the three retained
    points around their own mean latitude, 15 degrees instead of 0; the
    corner comes 107406 m from the chord instead of 111195 m, under the
    tolerance of 109000 m, and is dropped. *)
Lemma simplify_idempotence_counterexample :
  (0 <=? 109000)%float = true /\
  simplify cos_series mean_seq default_simplifier
    (Arrays [-45; -45; 0; 90] [0; 0; 1; 0])%float (Some 109000%float)
  = Ret (Arrays [-45; 0; 90] [0; 1; 0])%float /\
  simplify cos_series mean_seq default_simplifier
    (Arrays [-45; 0; 90] [0; 1; 0])%float (Some 109000%float)
  = Ret (Arrays [-45; 90] [0; 0])%float.
Proof. vm_compute. repeat split. Qed.

(** * Further properties of the reducer *)

(** ** The ranges the reduction stops on *)

(** A range is closed when it has no interior point or when its farthest
    point is not above epsilon: the loop pops it without splitting. *)
Definition closed_range (pts : list point) (eps : float) (u v : nat) : Prop :=
  (v - u <= 1)%nat \/ F64.gt (split_dist pts u v) eps = false.

(** Two neighbours among the retained indices of a range bound a closed
    range. *)
Lemma rdp_rec_neighbours (pts : list point) (eps : float) :
  forall i j, (i < j)%nat ->
  forall t u v,
    (i :: rdp_rec pts eps i j ++ [j]) !! t = Some u ->
    (i :: rdp_rec pts eps i j ++ [j]) !! S t = Some v ->
    (u < v)%nat /\ closed_range pts eps u v.
Proof.
  apply (range_ind (fun i j => (i < j)%nat -> forall t u v,
    (i :: rdp_rec pts eps i j ++ [j]) !! t = Some u ->
    (i :: rdp_rec pts eps i j ++ [j]) !! S t = Some v ->
    (u < v)%nat /\ closed_range pts eps u v)).
  intros i j IH Hij t u v.
  assert (forall t u v, [i; j] !! t = Some u -> [i; j] !! S t = Some v ->
            u = i /\ v = j) as Hpair.
  { intros [|[|t']] u' v' Hu Hv; cbn in Hu, Hv; try discriminate.
    injection Hu as <-. injection Hv as <-. done. }
  rewrite rdp_rec_step.
  destruct (Nat.leb_spec (j - i) 1) as [Hle|H1].
  { intros Hu Hv. destruct (Hpair _ _ _ Hu Hv) as [-> ->].
    split; [exact Hij|left; exact Hle]. }
  destruct (F64.gt (split_dist pts i j) eps) eqn:Egt.
  2:{ intros Hu Hv. destruct (Hpair _ _ _ Hu Hv) as [-> ->].
      split; [exact Hij|right; exact Egt]. }
  pose proof (split_idx_bounds pts i j H1) as Hm.
  set (m := split_idx pts i j) in *.
  set (L1 := rdp_rec pts eps i m). set (L2 := rdp_rec pts eps m j).
  replace (i :: (L1 ++ m :: L2) ++ [j]) with ((i :: L1) ++ (m :: L2 ++ [j]))
    by (cbn; rewrite <- !app_assoc; reflexivity).
  intros Hu Hv.
  destruct (decide (t < length (i :: L1))%nat) as [Ht|Ht].
  - apply (IH i m ltac:(lia) ltac:(lia) t u v); fold L1.
    + change (i :: L1 ++ [m]) with ((i :: L1) ++ [m]).
      rewrite lookup_app_l in Hu |- * by done. exact Hu.
    + change (i :: L1 ++ [m]) with ((i :: L1) ++ [m]).
      destruct (decide (S t < length (i :: L1))%nat) as [Ht'|Ht'].
      * rewrite lookup_app_l in Hv |- * by done. exact Hv.
      * assert (S t = length (i :: L1)) as E by lia. rewrite E in Hv |- *.
        rewrite list_lookup_middle in Hv |- * by done. exact Hv.
  - apply (IH m j ltac:(lia) ltac:(lia) (t - length (i :: L1))%nat u v); fold L2.
    + rewrite lookup_app_r in Hu by lia. exact Hu.
    + rewrite lookup_app_r in Hv by lia.
      replace (S (t - length (i :: L1)))%nat with (S t - length (i :: L1))%nat by lia.
      exact Hv.
Qed.

Lemma kept_neighbours (pts : list point) (eps : float) (t u v : nat) :
  kept pts eps !! t = Some u -> kept pts eps !! S t = Some v ->
  (u < v)%nat /\ closed_range pts eps u v.
Proof.
  destruct (Nat.le_gt_cases (length pts) 2) as [Hle|Hgt].
  - rewrite (kept_short pts eps Hle). intros Hu Hv.
    apply lookup_seq in Hu as [-> _]. apply lookup_seq in Hv as [-> _].
    split; [lia|left; lia].
  - rewrite (kept_long pts eps Hgt). apply rdp_rec_neighbours. lia.
Qed.

(** A distance that is at most epsilon is not above it. *)
Lemma leb_not_gt (d eps : float) : (d <=? eps)%float = true -> F64.gt d eps = false.
Proof.
  intros H. unfold F64.gt. destruct (eps <? d)%float eqn:E; [|reflexivity].
  apply FloatOrder.ltb_not_leb in E. congruence.
Qed.

(** In a closed range whose distances are not NaN, no interior point is
    above epsilon. *)
Lemma closed_range_bound (pts : list point) (eps : float) (u v k : nat)
    (a p b : point) :
  closed_range pts eps u v -> (u < k < v)%nat ->
  pts !! u = Some a -> pts !! k = Some p -> pts !! v = Some b ->
  (forall k' p', (u < k' < v)%nat -> pts !! k' = Some p' ->
     PrimFloat.is_nan (_point_segment_distance_numpy p' a b) = false) ->
  F64.gt (_point_segment_distance_numpy p a b) eps = false.
Proof.
  intros [Hle|Hgt] Hk Ha Hp Hb Hnn; [lia|].
  assert (u < v < length pts)%nat as Huv
    by (apply lookup_lt_Some in Hb; lia).
  assert (1 < v - u)%nat as H1 by lia.
  destruct (split_dist_point pts u v Huv H1) as (a' & q & b' & Ha' & Hq & Hb' & Hsd).
  rewrite Ha in Ha'. injection Ha' as <-. rewrite Hb in Hb'. injection Hb' as <-.
  pose proof (split_idx_bounds pts u v H1) as Hm.
  assert (PrimFloat.is_nan (split_dist pts u v) = false) as Hnan
    by (rewrite Hsd; apply (Hnn _ _ Hm Hq)).
  pose proof (argmax_is_first_max _ _ (split_dist_lookup pts u v Huv H1) Hnan)
    as (_ & Hall & _).
  assert ((_point_segment_distance_numpy p a b <=? split_dist pts u v)%float = true)
    as Hle.
  { apply (Hall (k - S u)%nat).
    rewrite (range_distances_lookup pts u v a b Ha Hb) by lia.
    replace (S u + (k - S u))%nat with k by lia. rewrite Hp. reflexivity. }
  unfold F64.gt in *.
  destruct (eps <? _point_segment_distance_numpy p a b)%float eqn:E; [|reflexivity].
  rewrite (FloatOrder.ltb_leb_trans _ _ _ E Hle) in Hgt. discriminate.
Qed.

(** X1: the explicit-stack loop retains exactly the indices of the
    recursive reduction on ranges: both ends, and in every range whose
    farthest interior point (the first one on ties) is above epsilon, that
    point and what the two halves retain. *)
Theorem rdp_indices_recursive_form (pts : list point) (eps : float) :
  rdp_indices pts eps = Ret (Z.of_nat <$> kept pts eps) /\
  forall i j,
    rdp_rec pts eps i j =
    if (j - i <=? 1)%nat then []
    else if F64.gt (split_dist pts i j) eps then
      rdp_rec pts eps i (split_idx pts i j)
        ++ split_idx pts i j :: rdp_rec pts eps (split_idx pts i j) j
    else [].
Proof. split; [apply rdp_indices_kept|apply rdp_rec_step]. Qed.

(** X2: the loop ends.  On more than two points every budget above
    2N - 3 iterations is enough: the loop returns a mask of the length of
    the input, and neither the budget nor an index error cuts it. *)
Theorem rdp_loop_terminates (pts : list point) (eps : float) (fuel : nat) :
  (2 < length pts)%nat -> (2 * length pts - 3 < fuel)%nat ->
  exists keep : list bool,
    rdp_loop fuel pts eps [(0, len pts - 1)] (ends_mask (length pts)) = Ret keep /\
    length keep = length pts /\
    nonzero keep = Z.of_nat <$> kept pts eps.
Proof.
  intros Hn Hfuel. unfold len.
  replace [(0, Z.of_nat (length pts) - 1)]
    with (zrange <$> [(0%nat, (length pts - 1)%nat)]).
  2:{ cbn. unfold zrange. cbn. do 2 f_equal. lia. }
  rewrite rdp_loop_spec.
  - eexists. split; [reflexivity|]. cbn [rec_stack foldl fst snd]. split.
    + rewrite length_mark_all. apply length_ends_mask.
    + rewrite (kept_long pts eps Hn).
      apply nonzero_mark_all; [lia|apply rdp_rec_sorted|].
      eapply Forall_impl; [apply rdp_rec_between|]. cbn. intros; lia.
  - repeat constructor; cbn; lia.
  - apply length_ends_mask.
  - rewrite weight_cons. cbn. lia.
Qed.

Lemma rdp_loop_terminates_witness :
  exists keep : list bool,
    rdp_loop 4 [mkPoint 0 0; mkPoint 1 1; mkPoint 2 0] 1
      [(0, 2)] (ends_mask 3) = Ret keep /\
    length keep = 3%nat /\
    nonzero keep = Z.of_nat <$> kept [mkPoint 0 0; mkPoint 1 1; mkPoint 2 0] 1.
Proof.
  apply (rdp_loop_terminates [mkPoint 0 0; mkPoint 1 1; mkPoint 2 0] 1 4);
    cbn; lia.
Defined.

(** X3: the guarantee of the reduction.  Between two neighbouring retained
    indices, every discarded point is at a distance of the segment of the
    two retained points that is not above epsilon, as long as no distance
    to that segment is NaN. *)
Theorem discarded_points_within_epsilon (pts : list point) (eps : float)
    (idx : list Z) (t u v k : nat) (a p b : point) :
  rdp_indices pts eps = Ret idx ->
  idx !! t = Some (Z.of_nat u) -> idx !! S t = Some (Z.of_nat v) ->
  (u < k < v)%nat ->
  pts !! u = Some a -> pts !! k = Some p -> pts !! v = Some b ->
  (forall k' p', (u < k' < v)%nat -> pts !! k' = Some p' ->
     PrimFloat.is_nan (_point_segment_distance_numpy p' a b) = false) ->
  F64.gt (_point_segment_distance_numpy p a b) eps = false /\
  (PrimFloat.is_nan eps = false ->
   (_point_segment_distance_numpy p a b <=? eps)%float = true).
Proof.
  intros Hidx Hu Hv Hk Ha Hp Hb Hnn.
  rewrite rdp_indices_kept in Hidx. injection Hidx as <-.
  rewrite list_lookup_fmap in Hu, Hv.
  destruct (kept pts eps !! t) as [u'|] eqn:Eu; [|discriminate].
  destruct (kept pts eps !! S t) as [v'|] eqn:Ev; [|discriminate].
  cbn in Hu, Hv. injection Hu as Hu. injection Hv as Hv.
  apply Nat2Z.inj in Hu, Hv. subst u' v'.
  destruct (kept_neighbours pts eps t u v Eu Ev) as [_ Hclosed].
  pose proof (closed_range_bound pts eps u v k a p b Hclosed Hk Ha Hp Hb Hnn) as Hgt.
  split; [exact Hgt|]. intros Heps.
  destruct (_point_segment_distance_numpy p a b <=? eps)%float eqn:E; [reflexivity|].
  unfold F64.gt in Hgt.
  rewrite (FloatOrder.not_leb_ltb _ _ (Hnn k p Hk Hp) Heps E) in Hgt. discriminate.
Qed.

Lemma discarded_points_within_epsilon_witness :
  F64.gt (_point_segment_distance_numpy (mkPoint 1 0.25) (mkPoint 0 0) (mkPoint 2 0))
    0.5 = false /\
  (PrimFloat.is_nan 0.5 = false ->
   (_point_segment_distance_numpy (mkPoint 1 0.25) (mkPoint 0 0) (mkPoint 2 0)
      <=? 0.5)%float = true).
Proof.
  apply (discarded_points_within_epsilon
    [mkPoint 0 0; mkPoint 1 0.25; mkPoint 2 0] 0.5 [0; 2] 0 0 2 1
    (mkPoint 0 0) (mkPoint 1 0.25) (mkPoint 2 0)); try reflexivity.
  - lia.
  - intros k' p' Hk' Hp'. assert (k' = 1%nat) as -> by lia.
    cbn in Hp'. injection Hp' as <-. vm_compute. reflexivity.
Defined.

(** ** What a selection keeps *)

Section SelOrder.
Context {A : Type}.
Implicit Types (l : list A) (K : list nat).

Lemma sel_app l K1 K2 : sel l (K1 ++ K2) = sel l K1 ++ sel l K2.
Proof.
  induction K1 as [|k K1 IH]; [reflexivity|].
  cbn [app sel]. destruct (l !! k); cbn; by rewrite IH.
Qed.

Lemma sel_drop_sublist l K :
  forall o, StronglySorted lt K -> Forall (fun k => o <= k)%nat K ->
  sel l K `sublist_of` drop o l.
Proof.
  induction K as [|k K IH]; intros o Hs Hb; [apply sublist_nil_l|].
  apply StronglySorted_cons in Hs as [Hk Hs].
  apply Forall_cons in Hb as [Hok Hb].
  cbn [sel]. destruct (l !! k) as [x|] eqn:Ex.
  - rewrite <- (take_drop (k - o) (drop o l)), drop_drop.
    replace (o + (k - o))%nat with k by lia.
    rewrite (drop_S _ _ _ Ex). apply sublist_inserts_l, sublist_skip.
    apply IH; [exact Hs|]. eapply Forall_impl; [exact Hk|]. cbn. intros; lia.
  - apply IH; [exact Hs|]. eapply Forall_impl; [exact Hk|]. cbn. intros; lia.
Qed.

(** Selecting at increasing indices keeps the order. *)
Lemma sel_sublist l K : StronglySorted lt K -> sel l K `sublist_of` l.
Proof.
  intros Hs. rewrite <- (drop_0 l) at 2. apply sel_drop_sublist; [exact Hs|].
  apply Forall_forall. intros; lia.
Qed.

Lemma sel_sublist_mono l K1 K2 :
  K2 `sublist_of` K1 -> sel l K2 `sublist_of` sel l K1.
Proof.
  induction 1 as [|k K2 K1 _ IH|k K2 K1 _ IH]; cbn [sel].
  - constructor.
  - destruct (l !! k); [apply sublist_skip|]; exact IH.
  - destruct (l !! k); [apply sublist_cons|]; exact IH.
Qed.

(** The selection at the retained indices of a reduction: an ordered part
    of the sequence with the same first and the same last element. *)
Lemma sel_kept l (pts : list point) (eps : float) :
  length l = length pts ->
  sel l (kept pts eps) `sublist_of` l /\
  head (sel l (kept pts eps)) = head l /\
  last (sel l (kept pts eps)) = last l.
Proof.
  intros Hlen. split; [apply sel_sublist, kept_sorted|].
  destruct (Nat.le_gt_cases (length pts) 2) as [Hle|Hgt].
  { rewrite (kept_short pts eps Hle), <- Hlen, sel_all. done. }
  rewrite (kept_long pts eps Hgt), <- Hlen.
  destruct (lookup_lt_is_Some_2 l 0) as [x Hx]; [lia|].
  destruct (lookup_lt_is_Some_2 l (length l - 1)) as [y Hy]; [lia|].
  split.
  - cbn [sel]. rewrite Hx. cbn. rewrite head_lookup. symmetry. exact Hx.
  - change (0%nat :: ?L ++ ?e) with ((0%nat :: L) ++ e).
    rewrite sel_app.
    assert (sel l [(length l - 1)%nat] = [y]) as ->
      by (cbn [sel]; rewrite Hy; reflexivity).
    rewrite last_snoc, last_lookup.
    replace (pred (length l)) with (length l - 1)%nat by lia. symmetry. exact Hy.
Qed.
End SelOrder.

(** ** The reducer at the two extremes *)

(** X4: a track that stays within epsilon of its chord collapses to its
    two ends: when every interior point is at most epsilon away from the
    segment from the first to the last point, the reducer returns [0, N-1]. *)
Theorem chord_within_epsilon_collapses (pts : list point) (eps : float)
    (a b : point) :
  (2 < length pts)%nat ->
  pts !! 0%nat = Some a -> pts !! (length pts - 1)%nat = Some b ->
  (forall k p, (0 < k < length pts - 1)%nat -> pts !! k = Some p ->
     (_point_segment_distance_numpy p a b <=? eps)%float = true) ->
  rdp_indices pts eps = Ret [0; len pts - 1].
Proof.
  intros Hn Ha Hb Hall. rewrite rdp_indices_kept, (kept_long pts eps Hn).
  rewrite rdp_rec_step.
  destruct (Nat.leb_spec (length pts - 1 - 0) 1) as [|H1]; [lia|].
  destruct (split_dist_point pts 0 (length pts - 1) ltac:(lia) H1)
    as (a' & q & b' & Ha' & Hq & Hb' & Hsd).
  rewrite Ha in Ha'. injection Ha' as <-. rewrite Hb in Hb'. injection Hb' as <-.
  pose proof (split_idx_bounds pts 0 (length pts - 1) H1) as Hm.
  rewrite Hsd, (leb_not_gt _ _ (Hall _ _ Hm Hq)).
  unfold len. cbn. do 3 f_equal. lia.
Qed.

Lemma chord_within_epsilon_collapses_witness :
  rdp_indices [mkPoint 0 0; mkPoint 1 0.25; mkPoint 2 (-0.25); mkPoint 3 0] 0.5
  = Ret [0; 3].
Proof.
  apply (chord_within_epsilon_collapses
    [mkPoint 0 0; mkPoint 1 0.25; mkPoint 2 (-0.25); mkPoint 3 0] 0.5
    (mkPoint 0 0) (mkPoint 3 0)); try reflexivity.
  - cbn. lia.
  - intros k p Hk Hp. cbn in Hk.
    assert (k = 1 \/ k = 2)%nat as [-> | ->] by lia;
      cbn in Hp; injection Hp as <-; vm_compute; reflexivity.
Defined.

(** X5: a corner is kept.  When some interior point is farther than epsilon
    from the chord and no distance to the chord is NaN, the farthest
    interior point (the first one on ties) is retained, so that at least
    three indices come back. *)
Theorem farthest_point_retained (pts : list point) (eps : float)
    (a b p : point) (k : nat) :
  (2 < length pts)%nat ->
  pts !! 0%nat = Some a -> pts !! (length pts - 1)%nat = Some b ->
  (0 < k < length pts - 1)%nat -> pts !! k = Some p ->
  F64.gt (_point_segment_distance_numpy p a b) eps = true ->
  (forall k' p', (0 < k' < length pts - 1)%nat -> pts !! k' = Some p' ->
     PrimFloat.is_nan (_point_segment_distance_numpy p' a b) = false) ->
  exists idx : list Z,
    rdp_indices pts eps = Ret idx /\
    Z.of_nat (split_idx pts 0 (length pts - 1)) ∈ idx /\
    (3 <= length idx)%nat.
Proof.
  intros Hn Ha Hb Hk Hp Hgt Hnn.
  exists (Z.of_nat <$> kept pts eps). split; [apply rdp_indices_kept|].
  rewrite (kept_long pts eps Hn), rdp_rec_step.
  destruct (Nat.leb_spec (length pts - 1 - 0) 1) as [|H1]; [lia|].
  assert (0 < length pts - 1 < length pts)%nat as Hr by lia.
  destruct (split_dist_point pts 0 (length pts - 1) Hr H1)
    as (a' & q & b' & Ha' & Hq & Hb' & Hsd).
  rewrite Ha in Ha'. injection Ha' as <-. rewrite Hb in Hb'. injection Hb' as <-.
  pose proof (split_idx_bounds pts 0 (length pts - 1) H1) as Hm.
  assert (PrimFloat.is_nan (split_dist pts 0 (length pts - 1)) = false) as Hnan
    by (rewrite Hsd; apply (Hnn _ _ Hm Hq)).
  pose proof (argmax_is_first_max _ _ (split_dist_lookup pts 0 _ Hr H1) Hnan)
    as (_ & Hall & _).
  assert ((_point_segment_distance_numpy p a b
           <=? split_dist pts 0 (length pts - 1))%float = true) as Hle.
  { apply (Hall (k - 1)%nat).
    rewrite (range_distances_lookup pts 0 _ a b Ha Hb) by lia.
    replace (1 + (k - 1))%nat with k by lia. rewrite Hp. reflexivity. }
  unfold F64.gt in Hgt |- *.
  rewrite (FloatOrder.ltb_leb_trans _ _ _ Hgt Hle).
  set (m := split_idx pts 0 (length pts - 1)). split.
  - apply list_elem_of_fmap_2. right. apply elem_of_app. left.
    apply elem_of_app. right. left.
  - rewrite length_fmap. cbn. rewrite !length_app. cbn. lia.
Qed.

Lemma farthest_point_retained_witness :
  exists idx : list Z,
    rdp_indices [mkPoint 0 0; mkPoint 1 1; mkPoint 2 0] 0.5 = Ret idx /\
    Z.of_nat (split_idx [mkPoint 0 0; mkPoint 1 1; mkPoint 2 0] 0 2) ∈ idx /\
    (3 <= length idx)%nat.
Proof.
  apply (farthest_point_retained [mkPoint 0 0; mkPoint 1 1; mkPoint 2 0] 0.5
    (mkPoint 0 0) (mkPoint 2 0) (mkPoint 1 1) 1); try reflexivity.
  - cbn. lia.
  - cbn. lia.
  - intros k' p' Hk' Hp'. cbn in Hk'. assert (k' = 1%nat) as -> by lia.
    cbn in Hp'. injection Hp' as <-. vm_compute. reflexivity.
Defined.

(** ** The shape of a simplified track *)

Section SimplifyShape.
Variable np_cos : float -> float.
Variable np_mean : list float -> float.

(** The epsilon simplify works with. *)
Definition effective_epsilon (self : GPSSimplifier) (eps : option float) : float :=
  match eps with Some e => e | None => epsilon_meters self end.

Lemma simplify_arrays_short (lats lons : list float) (eps : float) :
  (length lats <= 2)%nat ->
  _simplify_arrays np_cos np_mean lats lons eps = Ret (lats, lons).
Proof.
  intros H. unfold _simplify_arrays. apply Nat.leb_le in H. rewrite H. reflexivity.
Qed.

Lemma zip_sel (lats lons : list float) (K : list nat) :
  length lats = length lons ->
  zip (sel lats K) (sel lons K) = sel (zip lats lons) K.
Proof. intros H. symmetry. apply sel_zip_with. exact H. Qed.

(** The column of a table reduced to the rows [K] is the column reduced
    to [K]. *)
Lemma df_column_sel (df : DataFrame) (K : list nat) (name : string)
    (col : list float) :
  df_column df name = Ret col ->
  df_column (mkDataFrame (df_columns df) (sel (df_rows df) K)) name
  = Ret (sel col K).
Proof.
  unfold df_column. cbn [df_columns df_rows].
  destruct (col_index name (df_columns df)); [|discriminate].
  intros [= <-]. rewrite sel_fmap. reflexivity.
Qed.

Lemma df_column_has (df : DataFrame) (name : string) (col : list float) :
  df_column df name = Ret col ->
  has_column df name = true /\ length col = length (df_rows df).
Proof.
  unfold df_column, has_column.
  destruct (col_index name (df_columns df)); [|discriminate].
  intros [= <-]. split; [reflexivity|apply length_fmap].
Qed.

(** X6: on two arrays of one length simplify returns a sub-track: two
    arrays of one length again, whose points are points of the input in
    their order, the first and the last point of the input among them. *)
Theorem simplify_arrays_subtrack (self : GPSSimplifier)
    (lats lons : list float) (eps : option float) :
  length lats = length lons ->
  exists lats' lons',
    simplify np_cos np_mean self (Arrays lats lons) eps = Ret (Arrays lats' lons') /\
    length lats' = length lons' /\
    zip lats' lons' `sublist_of` zip lats lons /\
    head (zip lats' lons') = head (zip lats lons) /\
    last (zip lats' lons') = last (zip lats lons).
Proof.
  intros Hlen. unfold simplify. fold (effective_epsilon self eps).
  set (epsilon := effective_epsilon self eps).
  destruct (Nat.le_gt_cases (length lats) 2) as [Hle|Hgt].
  { rewrite (simplify_arrays_short lats lons epsilon Hle). cbn [bind fst snd].
    exists lats, lons. done. }
  rewrite (simplify_arrays_kept np_cos np_mean lats lons epsilon Hlen Hgt).
  cbv zeta. cbn [bind fst snd].
  set (pts := zip_with (project_point (cos_lat0 np_cos np_mean lats)) lats lons).
  assert (length pts = length lats) as Hpts
    by (unfold pts; rewrite length_zip_with; lia).
  pose proof (kept_bound pts epsilon) as Hb. rewrite Hpts in Hb.
  eexists _, _. split; [reflexivity|]. split.
  { rewrite !length_sel; [reflexivity|rewrite <- Hlen; exact Hb|exact Hb]. }
  rewrite zip_sel by exact Hlen.
  apply sel_kept. rewrite length_zip_with, Hpts. lia.
Qed.

Lemma simplify_table_rows (self : GPSSimplifier) (df : DataFrame)
    (eps : option float) :
  has_column df "latitude" && has_column df "longitude" = true ->
  exists df',
    simplify np_cos np_mean self (Table df) eps = Ret (Table df') /\
    df_columns df' = df_columns df /\
    df_rows df' `sublist_of` df_rows df /\
    head (df_rows df') = head (df_rows df) /\
    last (df_rows df') = last (df_rows df).
Proof.
  intros Hcols. unfold simplify. fold (effective_epsilon self eps).
  set (epsilon := effective_epsilon self eps).
  destruct (Nat.le_gt_cases (length (df_rows df)) 2) as [Hle|Hgt].
  { unfold _simplify_dataframe. rewrite Hcols. cbn [negb].
    apply Nat.leb_le in Hle. rewrite Hle. cbn [bind]. exists df. done. }
  destruct (simplify_dataframe_kept np_cos np_mean df epsilon Hcols Hgt)
    as (lats & lons & _ & _ & Llat & Llon & ->).
  cbn [bind]. eexists. split; [reflexivity|]. cbn [df_columns df_rows].
  split; [reflexivity|].
  apply sel_kept. rewrite length_zip_with. lia.
Qed.

(** X7: on a table with both columns simplify returns a table with the
    same columns whose rows are rows of the input in their order, the
    first and the last row of the input among them. *)
Theorem simplify_table_subtrack (self : GPSSimplifier) (df : DataFrame)
    (eps : option float) :
  has_column df "latitude" && has_column df "longitude" = true ->
  exists df',
    simplify np_cos np_mean self (Table df) eps = Ret (Table df') /\
    df_columns df' = df_columns df /\
    df_rows df' `sublist_of` df_rows df /\
    head (df_rows df') = head (df_rows df) /\
    last (df_rows df') = last (df_rows df).
Proof. exact (simplify_table_rows self df eps). Qed.

(** X8: the two shapes agree.  Simplifying a table and simplifying the two
    arrays of its latitude and longitude columns keep the same points: the
    columns of the simplified table are the simplified arrays. *)
Theorem simplify_table_agrees_with_arrays (self : GPSSimplifier)
    (df : DataFrame) (lats lons : list float) (eps : option float) :
  df_column df "latitude" = Ret lats ->
  df_column df "longitude" = Ret lons ->
  exists df' lats' lons',
    simplify np_cos np_mean self (Table df) eps = Ret (Table df') /\
    simplify np_cos np_mean self (Arrays lats lons) eps = Ret (Arrays lats' lons') /\
    df_column df' "latitude" = Ret lats' /\
    df_column df' "longitude" = Ret lons'.
Proof.
  intros Elat Elon.
  destruct (df_column_has _ _ _ Elat) as [Hlat Llat].
  destruct (df_column_has _ _ _ Elon) as [Hlon Llon].
  assert (has_column df "latitude" && has_column df "longitude" = true) as Hcols
    by (rewrite Hlat, Hlon; reflexivity).
  unfold simplify. fold (effective_epsilon self eps).
  set (epsilon := effective_epsilon self eps).
  destruct (Nat.le_gt_cases (length (df_rows df)) 2) as [Hle|Hgt].
  { unfold _simplify_dataframe. rewrite Hcols. cbn [negb].
    rewrite (simplify_arrays_short lats lons epsilon) by lia.
    apply Nat.leb_le in Hle. rewrite Hle. cbn [bind fst snd].
    exists df, lats, lons. done. }
  destruct (simplify_dataframe_kept np_cos np_mean df epsilon Hcols Hgt)
    as (lats0 & lons0 & Elat0 & Elon0 & _ & _ & ->).
  rewrite Elat in Elat0. injection Elat0 as <-.
  rewrite Elon in Elon0. injection Elon0 as <-.
  rewrite (simplify_arrays_kept np_cos np_mean lats lons epsilon) by lia.
  cbv zeta. cbn [bind fst snd].
  eexists _, _, _. split; [reflexivity|]. split; [reflexivity|].
  split; apply df_column_sel; assumption.
Qed.

(** X9: simplify is monotone in the tolerance.  With a larger epsilon the
    points simplify returns are among the points it returns with the
    smaller one, in the same order. *)
Theorem simplify_arrays_monotone (self : GPSSimplifier)
    (lats lons : list float) (eps1 eps2 : float) :
  length lats = length lons -> (eps1 <? eps2)%float = true ->
  exists lats1 lons1 lats2 lons2,
    simplify np_cos np_mean self (Arrays lats lons) (Some eps1)
      = Ret (Arrays lats1 lons1) /\
    simplify np_cos np_mean self (Arrays lats lons) (Some eps2)
      = Ret (Arrays lats2 lons2) /\
    zip lats2 lons2 `sublist_of` zip lats1 lons1.
Proof.
  intros Hlen Hlt. unfold simplify.
  destruct (Nat.le_gt_cases (length lats) 2) as [Hle|Hgt].
  { rewrite !(simplify_arrays_short lats lons _ Hle). cbn [bind fst snd].
    exists lats, lons, lats, lons. done. }
  rewrite !(simplify_arrays_kept np_cos np_mean lats lons _ Hlen Hgt).
  cbv zeta. cbn [bind fst snd].
  eexists _, _, _, _. split; [reflexivity|]. split; [reflexivity|].
  rewrite !zip_sel by exact Hlen.
  apply sel_sublist_mono, kept_mono. exact Hlt.
Qed.

End SimplifyShape.

Lemma simplify_arrays_subtrack_witness :
  exists lats' lons',
    simplify cos_series mean_seq default_simplifier
      (Arrays [0; 0; 1; -1; 0] [0; 1; 2; 3; 4])%float (Some 60000%float)
    = Ret (Arrays lats' lons') /\
    length lats' = length lons' /\
    zip lats' lons' `sublist_of` zip [0; 0; 1; -1; 0]%float [0; 1; 2; 3; 4]%float /\
    head (zip lats' lons') = Some (0, 0)%float /\
    last (zip lats' lons') = Some (0, 4)%float.
Proof.
  exact (simplify_arrays_subtrack cos_series mean_seq default_simplifier
    [0; 0; 1; -1; 0]%float [0; 1; 2; 3; 4]%float (Some 60000%float) eq_refl).
Defined.

Lemma simplify_table_subtrack_witness :
  exists df',
    simplify cos_series mean_seq default_simplifier
      (Table (mkDataFrame ["latitude"%string; "longitude"%string]
                [[0; 0]; [0; 1]; [0; 2]]%float)) None = Ret (Table df') /\
    df_columns df' = ["latitude"%string; "longitude"%string] /\
    df_rows df' `sublist_of` [[0; 0]; [0; 1]; [0; 2]]%float /\
    head (df_rows df') = Some [0; 0]%float /\
    last (df_rows df') = Some [0; 2]%float.
Proof.
  exact (simplify_table_subtrack cos_series mean_seq default_simplifier
    (mkDataFrame ["latitude"%string; "longitude"%string] [[0; 0]; [0; 1]; [0; 2]]%float)
    None eq_refl).
Defined.

Lemma simplify_table_agrees_with_arrays_witness :
  exists df' lats' lons',
    simplify cos_series mean_seq default_simplifier
      (Table (mkDataFrame ["latitude"%string; "longitude"%string]
                [[0; 0]; [0; 1]; [0; 2]]%float)) None = Ret (Table df') /\
    simplify cos_series mean_seq default_simplifier
      (Arrays [0; 0; 0] [0; 1; 2])%float None = Ret (Arrays lats' lons') /\
    df_column df' "latitude" = Ret lats' /\
    df_column df' "longitude" = Ret lons'.
Proof.
  exact (simplify_table_agrees_with_arrays cos_series mean_seq default_simplifier
    (mkDataFrame ["latitude"%string; "longitude"%string] [[0; 0]; [0; 1]; [0; 2]]%float)
    [0; 0; 0]%float [0; 1; 2]%float None eq_refl eq_refl).
Defined.

Lemma simplify_arrays_monotone_witness :
  exists lats1 lons1 lats2 lons2,
    simplify cos_series mean_seq default_simplifier
      (Arrays [0; 0; 1; -1; 0] [0; 1; 2; 3; 4])%float (Some 10%float)
      = Ret (Arrays lats1 lons1) /\
    simplify cos_series mean_seq default_simplifier
      (Arrays [0; 0; 1; -1; 0] [0; 1; 2; 3; 4])%float (Some 60000%float)
      = Ret (Arrays lats2 lons2) /\
    zip lats2 lons2 `sublist_of` zip lats1 lons1.
Proof.
  exact (simplify_arrays_monotone cos_series mean_seq default_simplifier
    [0; 0; 1; -1; 0]%float [0; 1; 2; 3; 4]%float 10 60000 eq_refl eq_refl).
Defined.

(** * Routes that pass by two cities (algo/next_to_chemin.py)

    The class [Find_with_zone] looks, among parquet files of tracks, for
    those that pass near two cities.  What it takes from outside is taken
    as it comes: the geodesic distance of geopy, which raises on a latitude
    outside of its range, the geolocator, [time.sleep] and
    [pd.read_parquet]. *)

(** A position: latitude and longitude. *)
Definition coords : Set := (float * float)%type.

(** A city is given by its name or by its position. *)
Inductive city : Set :=
  | CityName (name : string)
  | CityCoords (position : coords).

Record city_match : Set := mkCityMatch {
  cm_coords : coords;
  cm_idx : Z;
  cm_dist_km : float
}.

(** An entry of [available_files]. *)
Record route_match : Set := mkRouteMatch {
  rm_file : string;
  rm_route_km : float;
  rm_radius_km : float;
  rm_city1 : city_match;
  rm_city2 : city_match
}.

Record Find_with_zone : Type := mkFindWithZone {
  files : list string;
  cercle_ratio : float;
  num_points_circle : Z;
  geocode_delay : float;
  _geocode_cache : gmap string (option coords);
  available_files : list route_match
}.

Definition set_cache (self : Find_with_zone) (cache : gmap string (option coords))
  : Find_with_zone :=
  mkFindWithZone (files self) (cercle_ratio self) (num_points_circle self)
    (geocode_delay self) cache (available_files self).

Definition set_available (self : Find_with_zone) (found : list route_match)
  : Find_with_zone :=
  mkFindWithZone (files self) (cercle_ratio self) (num_points_circle self)
    (geocode_delay self) (_geocode_cache self) found.

Definition set_files (self : Find_with_zone) (fs : list string) : Find_with_zone :=
  mkFindWithZone fs (cercle_ratio self) (num_points_circle self)
    (geocode_delay self) (_geocode_cache self) (available_files self).

(** [max(a, b)] of Python: the second when it is greater, else the first. *)
Definition py_max (a b : float) : float := if (a <? b)%float then b else a.

(** A frame as [pd.read_parquet] gives it: every row comes with the label
    the index of the frame gives it, which is what [iterrows] yields with
    the row.  The labels are integers, as the annotation of
    [find_nearest_point_index] has them; they need not be the positions. *)
Record Frame : Set := mkFrame {
  frame_columns : list string;
  frame_items : list (Z * list float)
}.

(** The labels of the index, in the order of the rows. *)
Definition frame_index (fr : Frame) : list Z := fst <$> frame_items fr.

(** The columns and rows of a frame, its index left aside. *)
Definition frame_table (fr : Frame) : DataFrame :=
  mkDataFrame (frame_columns fr) (snd <$> frame_items fr).

(** [list(zip(df['latitude'], df['longitude']))] *)
Definition df_coords (df : DataFrame) : outcome (list coords) :=
  call lats <~ df_column df "latitude" ;
  call lons <~ df_column df "longitude" ;
  Ret (zip lats lons).

Section FindWithZone.
(** [geopy.distance.distance(a, b).km] *)
Variable geo_distance_km : coords -> coords -> outcome float.
(** [geolocator.geocode(city, exactly_one=True, timeout=10)]: a location,
    nothing, or an exception. *)
Variable geolocator_geocode : string -> outcome (option coords).
Variable time_sleep : float -> outcome unit.
Variable read_parquet : string -> outcome Frame.

Definition _geocode (self : Find_with_zone) (c : city)
  : Find_with_zone * option coords :=
  match c with
  | CityCoords position => (self, Some position)
  | CityName name =>
      match _geocode_cache self !! name with
      | Some cached => (self, cached)
      | None =>
          let attempt :=
            call loc <~ geolocator_geocode name ;
            call _ <~ time_sleep (geocode_delay self) ;
            Ret loc in
          match attempt with
          | Ret (Some position) =>
              (set_cache self (<[name := Some position]> (_geocode_cache self)),
               Some position)
          | Ret None =>
              (set_cache self (<[name := None]> (_geocode_cache self)), None)
          | _ => (self, None)
          end
      end
  end.

(** The loop of [route_length_km]: [total] so far, the segments of [cs]
    left to add. *)
Fixpoint sum_segments (total : float) (cs : list coords) : outcome float :=
  match cs with
  | a :: (b :: _) as rest =>
      call d <~ geo_distance_km a b ;
      sum_segments (total + d)%float rest
  | _ => Ret total
  end.

Definition route_length_km (df : DataFrame) : outcome float :=
  call cs <~ df_coords df ;
  if (length cs <? 2)%nat then Ret 0%float
  else sum_segments 0%float cs.

(** The loop of [find_nearest_point_index] over what [iterrows] yields:
    the label [i] of a row and the row. *)
Fixpoint nearest_scan (point : coords) (best_idx : Z) (best_dist : float)
    (rows : list (Z * coords)) : outcome (Z * float) :=
  match rows with
  | [] => Ret (best_idx, best_dist)
  | (i, row) :: rest =>
      call d <~ geo_distance_km row point ;
      if (d <? best_dist)%float then nearest_scan point i d rest
      else nearest_scan point best_idx best_dist rest
  end.

Definition find_nearest_point_index (df : Frame) (point : coords)
  : outcome (Z * float) :=
  call rows <~ df_coords (frame_table df) ;
  nearest_scan point (-1) infinity (zip (frame_index df) rows).

(** The body of the loop of [process] on one file: the match it appends,
    if any. *)
Definition examine_file (self : Find_with_zone) (city1_coords city2_coords : coords)
    (require_order : bool) (min_radius_km : float) (file : string)
  : outcome (option route_match) :=
  match read_parquet file with
  | Ret df =>
      if negb (has_column (frame_table df) "latitude")
         || negb (has_column (frame_table df) "longitude")
      then Ret None
      else
        call route_km <~ route_length_km (frame_table df) ;
        let radius_km := py_max (cercle_ratio self * route_km)%float min_radius_km in
        call n1 <~ find_nearest_point_index df city1_coords ;
        call n2 <~ find_nearest_point_index df city2_coords ;
        let within1 := (n1.2 <=? radius_km)%float in
        let within2 := (n2.2 <=? radius_km)%float in
        let order_ok := if require_order then n1.1 <? n2.1 else true in
        if within1 && within2 && order_ok then
          Ret (Some (mkRouteMatch file route_km radius_km
                       (mkCityMatch city1_coords n1.1 n1.2)
                       (mkCityMatch city2_coords n2.1 n2.2)))
        else Ret None
  | _ => Ret None
  end.

(** [for file in self.files]: the matches appended so far and how the loop
    ended. *)
Fixpoint process_files (self : Find_with_zone) (city1_coords city2_coords : coords)
    (require_order : bool) (min_radius_km : float)
    (todo : list string) (found : list route_match)
  : list route_match * outcome unit :=
  match todo with
  | [] => (found, Ret tt)
  | file :: todo' =>
      match examine_file self city1_coords city2_coords require_order
              min_radius_km file with
      | Ret (Some m) =>
          process_files self city1_coords city2_coords require_order
            min_radius_km todo' (found ++ [m])
      | Ret None =>
          process_files self city1_coords city2_coords require_order
            min_radius_km todo' found
      | Raise e => (found, Raise e)
      | Timeout => (found, Timeout)
      end
  end.

(** [process]: the object after the call and how the call ended. *)
Definition process (self : Find_with_zone) (city1 city2 : city)
    (require_order : bool) (min_radius_km : float)
  : Find_with_zone * outcome unit :=
  let self := set_available self [] in
  let '(self, city1_coords) := _geocode self city1 in
  let '(self, city2_coords) := _geocode self city2 in
  match city1_coords, city2_coords with
  | Some c1, Some c2 =>
      let '(found, r) :=
        process_files self c1 c2 require_order min_radius_km (files self) [] in
      (set_available self found, r)
  | _, _ => (self, Ret tt)
  end.
End FindWithZone.

(** * Departure and arrival of a track (algo/same_start_end.py) *)

(** [df.empty]: no row or no column. *)
Definition df_empty (df : DataFrame) : bool :=
  (length (df_rows df) =? 0)%nat || (length (df_columns df) =? 0)%nat.

(** [df.iloc[i][name]] *)
Definition df_cell (df : DataFrame) (i : Z) (name : string) : outcome float :=
  call row <~ py_getitem (df_rows df) i ;
  match col_index name (df_columns df) with
  | Some c => Ret (nth c row nan)
  | None => Raise KeyError
  end.

(** The four coordinates, or four times [None] on an empty frame. *)
Definition extraire_depart_arrivee (df : DataFrame)
  : outcome (option (float * float * float * float)) :=
  if df_empty df then Ret None
  else
    call depart_lat <~ df_cell df 0 "latitude" ;
    call depart_lon <~ df_cell df 0 "longitude" ;
    call arrivee_lat <~ df_cell df (-1) "latitude" ;
    call arrivee_lon <~ df_cell df (-1) "longitude" ;
    Ret (Some (depart_lat, depart_lon, arrivee_lat, arrivee_lon)).

(** * Properties of the route finder *)

Lemma ltb_irrefl (x : float) : (x <? x)%float = false.
Proof.
  destruct (x <? x)%float eqn:E; [|reflexivity].
  pose proof (ltb_asym _ _ E). congruence.
Qed.

Lemma not_ltb_leb (x y : float) :
  PrimFloat.is_nan x = false -> PrimFloat.is_nan y = false ->
  (x <? y)%float = false -> (y <=? x)%float = true.
Proof.
  intros Hx Hy H. destruct (y <=? x)%float eqn:E; [reflexivity|].
  rewrite (FloatOrder.not_leb_ltb y x Hy Hx E) in H. discriminate.
Qed.

(** Concrete stand-ins to run the finder: a distance that, like geopy's,
    raises on a latitude outside of [-90, 90], and is the sum of the
    differences of the coordinates otherwise; a geolocator that knows one
    city, finds nothing for most names and raises on the empty name; a
    sleep that returns at once; and a shelf of three files, the first one
    with an index that does not count from zero. *)
Definition grid_distance (a b : coords) : outcome float :=
  if (90 <? abs a.1)%float || (90 <? abs b.1)%float
  then Raise (ValueError "Latitude must be in the [-90; 90] range.")
  else Ret (abs (a.1 - b.1) + abs (a.2 - b.2))%float.

Definition gazetteer (name : string) : outcome (option coords) :=
  if String.eqb name "Lyon" then Ret (Some (45.75, 4.75)%float)
  else if String.eqb name "" then Raise (ValueError "empty query")
  else Ret None.

Definition no_sleep (delay : float) : outcome unit := Ret tt.

Definition track_frame (rows : list (list float)) : DataFrame :=
  mkDataFrame ["latitude"%string; "longitude"%string] rows.

Definition labelled_frame (items : list (Z * list float)) : Frame :=
  mkFrame ["latitude"%string; "longitude"%string] items.

Definition shelf (file : string) : outcome Frame :=
  if String.eqb file "a.parquet"
  then Ret (labelled_frame
              [(10, [0; 0]%float); (20, [0; 1]%float); (30, [0; 2]%float);
               (40, [0; 3]%float)])
  else if String.eqb file "off.parquet"
  then Ret (labelled_frame [(0, [0; 0]%float); (1, [100; 1]%float)])
  else if String.eqb file "xy.parquet"
  then Ret (mkFrame ["x"%string; "y"%string]
              [(0, [0; 0]%float); (1, [1; 1]%float)])
  else Raise (ValueError "no such file").

Definition finder (fs : list string) : Find_with_zone :=
  mkFindWithZone fs 0.5 120 1 ∅ [].

Section FindWithZoneFacts.
Variable geo_distance_km : coords -> coords -> outcome float.

(** What the scan for the nearest row returns on the labels of the rows
    and their distances [ds]: no label (-1) and infinity exactly when no
    distance is below infinity; otherwise the label of a row whose
    distance is below infinity, that no distance is below, and that is
    below every distance before it that is a number. *)
Definition nearest_result (labels : list Z) (ds : list float)
    (idx : Z) (best : float) : Prop :=
  (idx = -1 /\ best = infinity /\
   forall j d, ds !! j = Some d -> (d <? infinity)%float = false) \/
  (exists k : nat, labels !! k = Some idx /\ ds !! k = Some best /\
     (best <? infinity)%float = true /\
     (forall j d, ds !! j = Some d -> (d <? best)%float = false) /\
     (forall j d, (j < k)%nat -> ds !! j = Some d ->
        PrimFloat.is_nan d = true \/ (best <? d)%float = true)).

Lemma nearest_scan_spec (point : coords) (rows : list (Z * coords))
    (ds : list float) :
  Forall2 (fun row d => geo_distance_km row.2 point = Ret d) rows ds ->
  forall (bi : Z) (bd : float), PrimFloat.is_nan bd = false ->
  exists idx best,
    nearest_scan geo_distance_km point bi bd rows = Ret (idx, best) /\
    PrimFloat.is_nan best = false /\
    ((idx = bi /\ best = bd /\
      forall j d, ds !! j = Some d -> (d <? bd)%float = false) \/
     (exists k : nat, rows.*1 !! k = Some idx /\ ds !! k = Some best /\
        (best <? bd)%float = true /\
        (forall j d, ds !! j = Some d -> (d <? best)%float = false) /\
        (forall j d, (j < k)%nat -> ds !! j = Some d ->
           PrimFloat.is_nan d = true \/ (best <? d)%float = true))).
Proof.
  induction 1 as [|[i row] d rows ds Hd _ IH]; intros bi bd Hbd.
  { exists bi, bd. split; [reflexivity|]. split; [exact Hbd|]. left.
    repeat split. intros j d Hj. rewrite lookup_nil in Hj. discriminate. }
  cbn [snd] in Hd. cbn [nearest_scan]. rewrite Hd. cbn [bind].
  destruct (d <? bd)%float eqn:Elt.
  - destruct (FloatOrder.ltb_not_nan _ _ Elt) as [Hdn _].
    destruct (IH i d Hdn) as (idx & best & Hrun & Hbest & Hcase).
    exists idx, best. split; [exact Hrun|]. split; [exact Hbest|]. right.
    destruct Hcase as [(-> & -> & Hall)|(k & Hlab & Hk & Hlt & Hall & Hbefore)].
    + exists 0%nat. split; [reflexivity|]. split; [reflexivity|].
      split; [exact Elt|]. split.
      * intros [|j] x Hx; [|apply (Hall j); exact Hx].
        cbn in Hx. injection Hx as <-. apply ltb_irrefl.
      * intros j x Hj. lia.
    + exists (S k). split; [exact Hlab|]. split; [exact Hk|].
      split; [eapply FloatOrder.ltb_trans; eassumption|]. split.
      * intros [|j] x Hx; [|apply (Hall j); exact Hx].
        cbn in Hx. injection Hx as <-. apply ltb_asym. exact Hlt.
      * intros [|j] x Hj Hx.
        -- cbn in Hx. injection Hx as <-. right. exact Hlt.
        -- apply (Hbefore j); [lia|exact Hx].
  - destruct (IH bi bd Hbd) as (idx & best & Hrun & Hbest & Hcase).
    exists idx, best. split; [exact Hrun|]. split; [exact Hbest|].
    destruct Hcase as [(-> & -> & Hall)|(k & Hlab & Hk & Hlt & Hall & Hbefore)].
    + left. repeat split.
      intros [|j] x Hx; [|apply (Hall j); exact Hx].
      cbn in Hx. injection Hx as <-. exact Elt.
    + right. exists (S k). split; [exact Hlab|]. split; [exact Hk|].
      split; [exact Hlt|]. split.
      * intros [|j] x Hx; [|apply (Hall j); exact Hx].
        cbn in Hx. injection Hx as <-.
        destruct (d <? best)%float eqn:E; [|reflexivity].
        rewrite (FloatOrder.ltb_trans _ _ _ E Hlt) in Elt. discriminate.
      * intros [|j] x Hj Hx.
        -- cbn in Hx. injection Hx as <-.
           destruct (PrimFloat.is_nan d) eqn:Hdn; [left; reflexivity|right].
           eapply FloatOrder.ltb_leb_trans; [exact Hlt|].
           apply not_ltb_leb; assumption.
        -- apply (Hbefore j); [lia|exact Hx].
Qed.

(** The rows of a frame have one label each. *)
Lemma df_coords_length (df : DataFrame) (rows : list coords) :
  df_coords df = Ret rows -> length rows = length (df_rows df).
Proof.
  unfold df_coords. intros H.
  destruct (df_column df "latitude") as [lats| |] eqn:E1; try discriminate.
  destruct (df_column df "longitude") as [lons| |] eqn:E2; try discriminate.
  cbn [bind] in H. injection H as <-.
  apply df_column_has in E1 as [_ L1]. apply df_column_has in E2 as [_ L2].
  rewrite length_zip_with. lia.
Qed.

Lemma labelled_rows (fr : Frame) (point : coords) (rows : list coords)
    (ds : list float) :
  df_coords (frame_table fr) = Ret rows ->
  Forall2 (fun row d => geo_distance_km row point = Ret d) rows ds ->
  (zip (frame_index fr) rows).*1 = frame_index fr /\
  Forall2 (fun row d => geo_distance_km row.2 point = Ret d)
    (zip (frame_index fr) rows) ds.
Proof.
  intros Hrows Hds. apply df_coords_length in Hrows.
  assert (length (frame_index fr) = length rows) as Hlen.
  { rewrite Hrows. unfold frame_index, frame_table. cbn [df_rows].
    rewrite !length_fmap. reflexivity. }
  split; [apply fst_zip; lia|].
  revert Hlen. generalize (frame_index fr). clear Hrows.
  induction Hds as [|row d rows ds Hd _ IH]; intros [|i labels] Hlen;
    try discriminate; [constructor|].
  cbn. constructor; [exact Hd|]. apply IH. cbn in Hlen. lia.
Qed.

Lemma find_nearest_bounds (df : Frame) (point : coords)
    (rows : list coords) (ds : list float) :
  df_coords (frame_table df) = Ret rows ->
  Forall2 (fun row d => geo_distance_km row point = Ret d) rows ds ->
  exists idx best,
    find_nearest_point_index geo_distance_km df point = Ret (idx, best) /\
    (forall d, d ∈ ds -> (d <? best)%float = false) /\
    (best = infinity \/ best ∈ ds).
Proof.
  intros Hrows Hds. unfold find_nearest_point_index. rewrite Hrows. cbn [bind].
  destruct (labelled_rows df point rows ds Hrows Hds) as [_ Hds'].
  destruct (nearest_scan_spec point _ ds Hds' (-1) infinity eq_refl)
    as (idx & best & Hrun & _ & Hcase).
  exists idx, best. split; [exact Hrun|].
  destruct Hcase as [(-> & -> & Hall)|(k & _ & Hk & _ & Hall & _)].
  - split; [|left; reflexivity].
    intros d Hin. apply list_elem_of_lookup_1 in Hin as [j Hj]. eapply Hall, Hj.
  - split; [|right; eapply list_elem_of_lookup_2; exact Hk].
    intros d Hin. apply list_elem_of_lookup_1 in Hin as [j Hj]. eapply Hall, Hj.
Qed.

(** X10: the nearest point.  When the geodesic distance of every row to
    the point is defined, find_nearest_point_index returns (-1, infinity)
    exactly when no row is at a distance below infinity, in particular on
    a frame without rows; otherwise it returns the label that the index of
    the frame gives to the first row whose distance no other row is below,
    with that distance. *)
Theorem find_nearest_point_index_first_minimum (df : Frame) (point : coords)
    (rows : list coords) (ds : list float) :
  df_coords (frame_table df) = Ret rows ->
  Forall2 (fun row d => geo_distance_km row point = Ret d) rows ds ->
  exists idx best,
    find_nearest_point_index geo_distance_km df point = Ret (idx, best) /\
    nearest_result (frame_index df) ds idx best /\
    (idx = -1 /\ best = infinity <->
     forall d, d ∈ ds -> (d <? infinity)%float = false).
Proof.
  intros Hrows Hds. unfold find_nearest_point_index. rewrite Hrows. cbn [bind].
  destruct (labelled_rows df point rows ds Hrows Hds) as [Hlab Hds'].
  destruct (nearest_scan_spec point _ ds Hds' (-1) infinity eq_refl)
    as (idx & best & Hrun & _ & Hcase).
  rewrite Hlab in Hcase.
  exists idx, best. split; [exact Hrun|].
  destruct Hcase as [(-> & -> & Hall)|(k & Hk' & Hk & Hlt & Hall & Hbefore)].
  - split; [left; done|]. split; [|done].
    intros _ d Hin. apply list_elem_of_lookup_1 in Hin as [j Hj]. eapply Hall, Hj.
  - split; [right; exists k; done|]. split.
    + intros [_ ->]. rewrite ltb_irrefl in Hlt. discriminate.
    + intros Hnone. rewrite (Hnone best) in Hlt; [discriminate|].
      eapply list_elem_of_lookup_2. exact Hk.
Qed.

(** *** The length of a route *)

Lemma sum_segments_snoc (cs : list coords) (c l : coords) (d : float) :
  forall total t,
  last cs = Some l -> geo_distance_km l c = Ret d ->
  sum_segments geo_distance_km total cs = Ret t ->
  sum_segments geo_distance_km total (cs ++ [c]) = Ret (t + d)%float.
Proof.
  induction cs as [|a cs IH]; intros total t Hl Hd Ht; [discriminate|].
  destruct cs as [|b cs].
  - cbn in Hl. injection Hl as ->. cbn in Ht. injection Ht as ->.
    cbn. rewrite Hd. reflexivity.
  - cbn [app sum_segments] in Ht |- *.
    destruct (geo_distance_km a b) as [dab| |]; try discriminate.
    cbn [bind] in Ht |- *. apply (IH (total + dab)%float t); [|exact Hd|exact Ht].
    rewrite last_cons_cons in Hl. exact Hl.
Qed.

(** X11: the length of a route is built segment by segment.  A table
    with both columns and fewer than two rows has length 0.0, whatever the
    distance function does; and a table with one more row at the end is
    longer by the distance from the former last row to the new one. *)
Theorem route_length_km_append :
  (forall df : DataFrame,
     has_column df "latitude" && has_column df "longitude" = true ->
     (length (df_rows df) < 2)%nat ->
     route_length_km geo_distance_km df = Ret 0%float) /\
  (forall (df df' : DataFrame) (cs : list coords) (c l : coords) (d t : float),
     df_coords df = Ret cs -> df_coords df' = Ret (cs ++ [c]) ->
     last cs = Some l -> geo_distance_km l c = Ret d ->
     route_length_km geo_distance_km df = Ret t ->
     route_length_km geo_distance_km df' = Ret (t + d)%float).
Proof.
  split.
  - intros df Hcols Hshort. apply andb_true_iff in Hcols as [Hlat Hlon].
    destruct (df_column_length df _ Hlat) as (lats & Elat & Llat).
    destruct (df_column_length df _ Hlon) as (lons & Elon & Llon).
    assert (df_coords df = Ret (zip lats lons)) as Hcs
      by (unfold df_coords; rewrite Elat, Elon; reflexivity).
    pose proof (df_coords_length _ _ Hcs) as Hlen.
    unfold route_length_km. rewrite Hcs. cbn [bind].
    destruct (_ <? 2)%nat eqn:E; [reflexivity|].
    apply Nat.ltb_ge in E. rewrite Hlen in E. lia.
  - intros df df' cs c l d t Hcs Hcs' Hl Hd Ht. unfold route_length_km in *.
    rewrite Hcs in Ht. rewrite Hcs'. cbn [bind] in *.
    rewrite length_app. cbn [length].
    destruct cs as [|a [|b cs]]; [discriminate| |].
    + cbn in Ht, Hl |- *. injection Ht as <-. injection Hl as ->.
      rewrite Hd. reflexivity.
    + destruct (Nat.ltb_spec (length (a :: b :: cs)) 2) as [H|_]; [cbn in H; lia|].
      destruct (Nat.ltb_spec (length (a :: b :: cs) + 1) 2) as [H|_];
        [cbn in H; lia|].
      apply sum_segments_snoc with l; assumption.
Qed.
End FindWithZoneFacts.

(** ** The search among the files *)


Section ProcessFacts.
Variable geo_distance_km : coords -> coords -> outcome float.
Variable geolocator_geocode : string -> outcome (option coords).
Variable time_sleep : float -> outcome unit.
Variable read_parquet : string -> outcome Frame.

Local Abbreviation geocode := (_geocode geolocator_geocode time_sleep).
Local Abbreviation examine := (examine_file geo_distance_km read_parquet).
Local Abbreviation scan_files := (process_files geo_distance_km read_parquet).
Local Abbreviation run := (process geo_distance_km geolocator_geocode time_sleep read_parquet).

Lemma geocode_fields (self : Find_with_zone) (c : city) :
  files (geocode self c).1 = files self /\
  cercle_ratio (geocode self c).1 = cercle_ratio self /\
  geocode_delay (geocode self c).1 = geocode_delay self /\
  available_files (geocode self c).1 = available_files self.
Proof.
  unfold _geocode. destruct c as [name|position]; [|done].
  destruct (_geocode_cache self !! name); [done|].
  destruct (geolocator_geocode name) as [[p|]| |]; cbn [bind]; try done;
    destruct (time_sleep (geocode_delay self)); done.
Qed.

Lemma geocode_set_files (self : Find_with_zone) (fs : list string) (c : city) :
  geocode (set_files self fs) c
  = (set_files (geocode self c).1 fs, (geocode self c).2).
Proof.
  unfold _geocode. destruct c as [name|position]; [|done]. cbn.
  destruct (_geocode_cache self !! name); [done|].
  destruct (geolocator_geocode name) as [[p|]| |]; cbn [bind]; try done;
    destruct (time_sleep (geocode_delay self)); done.
Qed.

Lemma geocode_set_available (self : Find_with_zone) (l : list route_match) (c : city) :
  geocode (set_available self l) c
  = (set_available (geocode self c).1 l, (geocode self c).2).
Proof.
  unfold _geocode. destruct c as [name|position]; [|done]. cbn.
  destruct (_geocode_cache self !! name); [done|].
  destruct (geolocator_geocode name) as [[p|]| |]; cbn [bind]; try done;
    destruct (time_sleep (geocode_delay self)); done.
Qed.

Lemma examine_file_self (self self' : Find_with_zone) c1 c2 ro mr file :
  cercle_ratio self = cercle_ratio self' ->
  examine self c1 c2 ro mr file = examine self' c1 c2 ro mr file.
Proof. intros H. unfold examine_file. rewrite H. reflexivity. Qed.

Lemma process_files_self (self self' : Find_with_zone) c1 c2 ro mr todo :
  cercle_ratio self = cercle_ratio self' ->
  forall found,
  scan_files self c1 c2 ro mr todo found = scan_files self' c1 c2 ro mr todo found.
Proof.
  intros H. induction todo as [|file todo IH]; intros found; [reflexivity|].
  cbn [process_files]. rewrite (examine_file_self self self') by exact H.
  destruct (examine self' c1 c2 ro mr file) as [[m|]| |]; try reflexivity; apply IH.
Qed.

Lemma process_files_acc (self : Find_with_zone) c1 c2 ro mr todo :
  forall found,
  scan_files self c1 c2 ro mr todo found
  = (found ++ (scan_files self c1 c2 ro mr todo []).1,
     (scan_files self c1 c2 ro mr todo []).2).
Proof.
  induction todo as [|file todo IH]; intros found; cbn [process_files].
  { cbn. rewrite app_nil_r. reflexivity. }
  destruct (examine self c1 c2 ro mr file) as [[m|]| |].
  - rewrite (IH (found ++ [m])), (IH ([] ++ [m])). cbn [fst snd app].
    rewrite <- app_assoc. reflexivity.
  - apply IH.
  - cbn. rewrite app_nil_r. reflexivity.
  - cbn. rewrite app_nil_r. reflexivity.
Qed.

Lemma process_files_app (self : Find_with_zone) c1 c2 ro mr todo1 todo2 :
  forall found,
  (scan_files self c1 c2 ro mr todo1 found).2 = Ret tt ->
  scan_files self c1 c2 ro mr (todo1 ++ todo2) found
  = scan_files self c1 c2 ro mr todo2 (scan_files self c1 c2 ro mr todo1 found).1.
Proof.
  induction todo1 as [|file todo1 IH]; intros found Hret; [reflexivity|].
  cbn [app process_files] in Hret |- *.
  destruct (examine self c1 c2 ro mr file) as [[m|]| |]; try discriminate;
    apply IH; exact Hret.
Qed.

Lemma process_files_skip (self : Find_with_zone) c1 c2 ro mr todo1 file todo2 :
  examine self c1 c2 ro mr file = Ret None ->
  forall found,
  scan_files self c1 c2 ro mr (todo1 ++ file :: todo2) found
  = scan_files self c1 c2 ro mr (todo1 ++ todo2) found.
Proof.
  intros Hnone. induction todo1 as [|f todo1 IH]; intros found.
  { cbn [app process_files]. rewrite Hnone. reflexivity. }
  cbn [app process_files].
  destruct (examine self c1 c2 ro mr f) as [[m|]| |]; try reflexivity; apply IH.
Qed.



(** [process] in one piece: the two lookups, then the loop over the
    files. *)
Lemma process_result (self : Find_with_zone) (city1 city2 : city) ro mr :
  run self city1 city2 ro mr =
  match (geocode self city1).2, (geocode (geocode self city1).1 city2).2 with
  | Some c1, Some c2 =>
      (set_available (geocode (geocode self city1).1 city2).1
         (scan_files self c1 c2 ro mr (files self) []).1,
       (scan_files self c1 c2 ro mr (files self) []).2)
  | _, _ => (set_available (geocode (geocode self city1).1 city2).1 [], Ret tt)
  end.
Proof.
  unfold process. rewrite geocode_set_available.
  destruct (geocode self city1) as [s1 r1] eqn:E1. cbn [fst snd].
  rewrite geocode_set_available.
  destruct (geocode s1 city2) as [s2 r2] eqn:E2. cbn [fst snd].
  pose proof (geocode_fields self city1) as (F1 & R1 & _ & _).
  pose proof (geocode_fields s1 city2) as (F2 & R2 & _ & _).
  rewrite E1 in F1, R1. rewrite E2 in F2, R2. cbn [fst snd] in *.
  destruct r1 as [c1|], r2 as [c2|]; try reflexivity.
  assert (files (set_available s2 []) = files self) as ->
    by (cbn; congruence).
  rewrite (process_files_self (set_available s2 []) self)
    by (cbn; congruence).
  destruct (scan_files self c1 c2 ro mr (files self) []) as [found r].
  cbn. reflexivity.
Qed.

Lemma process_result_files (self : Find_with_zone) (fs : list string)
    (city1 city2 : city) ro mr :
  available_files (run (set_files self fs) city1 city2 ro mr).1 =
    match (geocode self city1).2, (geocode (geocode self city1).1 city2).2 with
    | Some c1, Some c2 => (scan_files self c1 c2 ro mr fs []).1
    | _, _ => []
    end /\
  (run (set_files self fs) city1 city2 ro mr).2 =
    match (geocode self city1).2, (geocode (geocode self city1).1 city2).2 with
    | Some c1, Some c2 => (scan_files self c1 c2 ro mr fs []).2
    | _, _ => Ret tt
    end.
Proof.
  rewrite process_result. rewrite !geocode_set_files. cbn [fst snd].
  rewrite !geocode_set_files. cbn [fst snd].
  destruct (geocode self city1).2 as [c1|]; [|done].
  destruct (geocode (geocode self city1).1 city2).2 as [c2|]; [|done].
  cbn [fst snd]. rewrite (process_files_self (set_files self fs) self) by reflexivity.
  done.
Qed.


(** X13: the files are examined one by one and independently.  When the
    search among the files [fs1] returns, the search among [fs1 ++ fs2]
    finds the matches of [fs1] followed by the matches of [fs2], and ends
    as the search among [fs2] does. *)
Theorem process_files_independent (self : Find_with_zone) (fs1 fs2 : list string)
    (city1 city2 : city) (require_order : bool) (min_radius_km : float) :
  (run (set_files self fs1) city1 city2 require_order min_radius_km).2 = Ret tt ->
  available_files
    (run (set_files self (fs1 ++ fs2)) city1 city2 require_order min_radius_km).1
  = available_files
      (run (set_files self fs1) city1 city2 require_order min_radius_km).1
    ++ available_files
      (run (set_files self fs2) city1 city2 require_order min_radius_km).1 /\
  (run (set_files self (fs1 ++ fs2)) city1 city2 require_order min_radius_km).2
  = (run (set_files self fs2) city1 city2 require_order min_radius_km).2.
Proof.
  intros Hret.
  destruct (process_result_files self fs1 city1 city2 require_order min_radius_km)
    as [A1 R1].
  destruct (process_result_files self fs2 city1 city2 require_order min_radius_km)
    as [A2 R2].
  destruct (process_result_files self (fs1 ++ fs2) city1 city2 require_order
              min_radius_km) as [A R].
  rewrite A, R, A1, A2, R2. rewrite R1 in Hret. clear A R A1 A2 R1 R2.
  destruct (geocode self city1).2 as [c1|]; [|done].
  destruct (geocode (geocode self city1).1 city2).2 as [c2|]; [|done].
  rewrite process_files_app by exact Hret.
  rewrite process_files_acc. done.
Qed.

(** X14: a file that cannot be read, or whose frame lacks the latitude or
    the longitude column, is passed over: the search finds the same
    matches and ends the same way as without this file. *)
Theorem process_skips_unusable_file (self : Find_with_zone)
    (fs1 fs2 : list string) (file : string) (city1 city2 : city)
    (require_order : bool) (min_radius_km : float) :
  (forall df, read_parquet file = Ret df ->
     has_column (frame_table df) "latitude"
     && has_column (frame_table df) "longitude" = false) ->
  available_files
    (run (set_files self (fs1 ++ file :: fs2)) city1 city2 require_order
       min_radius_km).1
  = available_files
      (run (set_files self (fs1 ++ fs2)) city1 city2 require_order min_radius_km).1 /\
  (run (set_files self (fs1 ++ file :: fs2)) city1 city2 require_order
     min_radius_km).2
  = (run (set_files self (fs1 ++ fs2)) city1 city2 require_order min_radius_km).2.
Proof.
  intros Hbad.
  destruct (process_result_files self (fs1 ++ file :: fs2) city1 city2
              require_order min_radius_km) as [A R].
  destruct (process_result_files self (fs1 ++ fs2) city1 city2 require_order
              min_radius_km) as [A' R'].
  rewrite A, R, A', R'. clear A R A' R'.
  destruct (geocode self city1).2 as [c1|]; [|done].
  destruct (geocode (geocode self city1).1 city2).2 as [c2|]; [|done].
  rewrite process_files_skip; [done|].
  unfold examine_file. destruct (read_parquet file) as [df| |]; try reflexivity.
  specialize (Hbad df eq_refl).
  destruct (has_column (frame_table df) "latitude"),
           (has_column (frame_table df) "longitude");
    try discriminate; reflexivity.
Qed.

(** X15: a distance that raises is not caught.  When both cities are
    resolved and a file that is read and has both columns holds a route
    whose length raises, the search raises that exception there: the
    matches of the files before it stay in available_files and the files
    after it are not examined. *)
Theorem process_aborts_on_distance_error (self : Find_with_zone)
    (fs1 fs2 : list string) (file : string) (city1 city2 : city) (c1 c2 : coords)
    (require_order : bool) (min_radius_km : float) (df : Frame) (e : exn) :
  (geocode self city1).2 = Some c1 ->
  (geocode (geocode self city1).1 city2).2 = Some c2 ->
  (run (set_files self fs1) city1 city2 require_order min_radius_km).2 = Ret tt ->
  read_parquet file = Ret df ->
  has_column (frame_table df) "latitude"
  && has_column (frame_table df) "longitude" = true ->
  route_length_km geo_distance_km (frame_table df) = Raise e ->
  (run (set_files self (fs1 ++ file :: fs2)) city1 city2 require_order
     min_radius_km).2 = Raise e /\
  available_files
    (run (set_files self (fs1 ++ file :: fs2)) city1 city2 require_order
       min_radius_km).1
  = available_files
      (run (set_files self fs1) city1 city2 require_order min_radius_km).1.
Proof.
  intros G1 G2 Hret Hread Hcols Hroute.
  destruct (process_result_files self (fs1 ++ file :: fs2) city1 city2
              require_order min_radius_km) as [A R].
  destruct (process_result_files self fs1 city1 city2 require_order
              min_radius_km) as [A' R'].
  rewrite A, R, A'. rewrite R' in Hret. clear A R A' R'.
  rewrite G1, G2 in *.
  rewrite process_files_app by exact Hret.
  rewrite process_files_acc. cbn [process_files].
  assert (examine self c1 c2 require_order min_radius_km file = Raise e) as ->.
  { unfold examine_file. rewrite Hread.
    apply andb_true_iff in Hcols as [-> ->]. cbn [negb orb].
    rewrite Hroute. reflexivity. }
  cbn [fst snd]. rewrite app_nil_r. done.
Qed.

(** X16: a failure of the geolocator is swallowed.  When a city is given by
    a name that is not in the cache and the geolocator raises on it,
    process returns normally with available_files empty, whatever
    available_files held before and whatever the files are. *)
Theorem process_swallows_geocoder_error (self : Find_with_zone) (name : string)
    (city2 : city) (require_order : bool) (min_radius_km : float) (e : exn) :
  _geocode_cache self !! name = None ->
  geolocator_geocode name = Raise e ->
  (run self (CityName name) city2 require_order min_radius_km).2 = Ret tt /\
  available_files (run self (CityName name) city2 require_order min_radius_km).1 = [].
Proof.
  intros Hmiss Hgeo. rewrite process_result.
  assert ((geocode self (CityName name)).2 = None) as ->; [|done].
  unfold _geocode. rewrite Hmiss, Hgeo. reflexivity.
Qed.
Lemma py_max_widen (a mr mr' d : float) :
  (mr <=? mr')%float = true ->
  (d <=? py_max a mr)%float = true -> (d <=? py_max a mr')%float = true.
Proof.
  unfold py_max. intros Hmr Hd.
  destruct (a <? mr)%float eqn:E.
  - rewrite (FloatOrder.ltb_leb_trans _ _ _ E Hmr).
    eapply FloatOrder.leb_trans; eassumption.
  - destruct (a <? mr')%float eqn:E'; [|exact Hd].
    apply FloatOrder.ltb_leb. eapply FloatOrder.leb_ltb_trans; eassumption.
Qed.

(** How the examination of one file changes when the search is widened. *)
Definition widened (r r' : outcome (option route_match)) : Prop :=
  match r, r' with
  | Ret (Some m), Ret (Some m') => rm_file m = rm_file m'
  | Ret None, Ret _ => True
  | Raise e, Raise e' => e = e'
  | Timeout, Timeout => True
  | _, _ => False
  end.

Lemma examine_file_widen (self : Find_with_zone) c1 c2 (ro ro' : bool) mr mr' file :
  (mr <=? mr')%float = true -> (ro' = true -> ro = true) ->
  widened (examine self c1 c2 ro mr file) (examine self c1 c2 ro' mr' file).
Proof.
  intros Hmr Hro. unfold examine_file.
  destruct (read_parquet file) as [df| |]; try exact I.
  destruct (negb (has_column (frame_table df) "latitude")
            || negb (has_column (frame_table df) "longitude"));
    [exact I|].
  destruct (route_length_km geo_distance_km (frame_table df)) as [route_km| |];
    try done.
  cbn [bind].
  destruct (find_nearest_point_index geo_distance_km df c1) as [[i1 d1]| |]; try done.
  cbn [bind].
  destruct (find_nearest_point_index geo_distance_km df c2) as [[i2 d2]| |]; try done.
  cbn [bind fst snd].
  destruct (d1 <=? py_max _ mr)%float eqn:W1; [|cbn; by destruct (_ && _ && _)].
  destruct (d2 <=? py_max _ mr)%float eqn:W2; [|cbn; by destruct (_ && _ && _)].
  rewrite (py_max_widen _ _ _ _ Hmr W1), (py_max_widen _ _ _ _ Hmr W2).
  cbn [andb].
  destruct ro, ro'; cbn; try (specialize (Hro eq_refl); discriminate);
    destruct (i1 <? i2); done.
Qed.

Lemma process_files_widen (self : Find_with_zone) c1 c2 (ro ro' : bool) mr mr' todo :
  (mr <=? mr')%float = true -> (ro' = true -> ro = true) ->
  (scan_files self c1 c2 ro' mr' todo []).2 = (scan_files self c1 c2 ro mr todo []).2 /\
  rm_file <$> (scan_files self c1 c2 ro mr todo []).1
    `sublist_of` rm_file <$> (scan_files self c1 c2 ro' mr' todo []).1.
Proof.
  intros Hmr Hro. induction todo as [|file todo [IHr IHs]]; [done|].
  cbn [process_files].
  pose proof (examine_file_widen self c1 c2 ro ro' mr mr' file Hmr Hro) as Hw.
  unfold widened in Hw.
  destruct (examine self c1 c2 ro mr file) as [[m|]| |],
           (examine self c1 c2 ro' mr' file) as [[m'|]| |]; try done.
  - rewrite (process_files_acc self c1 c2 ro mr todo ([] ++ [m])),
            (process_files_acc self c1 c2 ro' mr' todo ([] ++ [m'])).
    cbn [fst snd app]. split; [exact IHr|].
    rewrite !fmap_cons, Hw. apply sublist_skip. exact IHs.
  - rewrite (process_files_acc self c1 c2 ro' mr' todo ([] ++ [m'])).
    cbn [fst snd app]. split; [exact IHr|].
    rewrite fmap_cons. apply sublist_cons. exact IHs.
  - cbn. split; [congruence|done].
Qed.

(** X20: widening the search.  With a larger min_radius_km, and with the
    order of the cities no longer required, the search ends the same way
    and the files it matched before are among those it matches now, in the
    same order. *)
Theorem process_widening (self : Find_with_zone) (city1 city2 : city)
    (require_order require_order' : bool) (min_radius_km min_radius_km' : float) :
  (min_radius_km <=? min_radius_km')%float = true ->
  (require_order' = true -> require_order = true) ->
  (run self city1 city2 require_order' min_radius_km').2
  = (run self city1 city2 require_order min_radius_km).2 /\
  rm_file <$> available_files (run self city1 city2 require_order min_radius_km).1
    `sublist_of`
  rm_file <$> available_files (run self city1 city2 require_order' min_radius_km').1.
Proof.
  intros Hmr Hro. rewrite !process_result.
  destruct (geocode self city1).2 as [c1|]; [|done].
  destruct (geocode (geocode self city1).1 city2).2 as [c2|]; [|done].
  cbn [fst snd available_files set_available].
  apply process_files_widen; assumption.
Qed.
End ProcessFacts.

Lemma find_nearest_point_index_first_minimum_witness :
  exists idx best,
    find_nearest_point_index grid_distance
      (labelled_frame [(10, [0; 3]%float); (20, [0; 1]%float);
                       (30, [0; 2]%float); (40, [0; 1]%float)]) (0, 0)%float
    = Ret (idx, best) /\
    nearest_result [10; 20; 30; 40] [3; 1; 2; 1]%float idx best /\
    (idx = -1 /\ best = infinity <->
     forall d, d ∈ [3; 1; 2; 1]%float -> (d <? infinity)%float = false).
Proof.
  apply (find_nearest_point_index_first_minimum grid_distance
           (labelled_frame [(10, [0; 3]%float); (20, [0; 1]%float);
                            (30, [0; 2]%float); (40, [0; 1]%float)])
           (0, 0)%float
           [(0, 3); (0, 1); (0, 2); (0, 1)]%float [3; 1; 2; 1]%float).
  - reflexivity.
  - repeat constructor.
Defined.

Lemma route_length_km_append_witness :
  route_length_km grid_distance (track_frame []) = Ret 0%float /\
  route_length_km grid_distance (track_frame [[100; 0]]%float) = Ret 0%float /\
  route_length_km grid_distance (track_frame [[0; 0]; [0; 1]; [2; 1]]%float)
  = Ret (1 + 2)%float.
Proof.
  split; [|split].
  - apply (proj1 (route_length_km_append grid_distance) (track_frame []));
      [reflexivity|cbn; lia].
  - apply (proj1 (route_length_km_append grid_distance)
             (track_frame [[100; 0]]%float)); [reflexivity|cbn; lia].
  - apply (proj2 (route_length_km_append grid_distance)
             (track_frame [[0; 0]; [0; 1]]%float)
             (track_frame [[0; 0]; [0; 1]; [2; 1]]%float)
             [(0, 0); (0, 1)]%float (2, 1)%float (0, 1)%float 2%float 1%float);
      reflexivity.
Defined.

Lemma process_files_independent_witness :
  available_files
    (process grid_distance gazetteer no_sleep shelf
       (set_files (finder []) (["a.parquet"%string; "xy.parquet"%string] ++ ["a.parquet"%string]))
       (CityCoords (0, 0)%float) (CityCoords (0, 3)%float) true 1).1
  = available_files
      (process grid_distance gazetteer no_sleep shelf
         (set_files (finder []) ["a.parquet"%string; "xy.parquet"%string])
         (CityCoords (0, 0)%float) (CityCoords (0, 3)%float) true 1).1
    ++ available_files
      (process grid_distance gazetteer no_sleep shelf
         (set_files (finder []) ["a.parquet"%string])
         (CityCoords (0, 0)%float) (CityCoords (0, 3)%float) true 1).1 /\
  (process grid_distance gazetteer no_sleep shelf
     (set_files (finder []) (["a.parquet"%string; "xy.parquet"%string] ++ ["a.parquet"%string]))
     (CityCoords (0, 0)%float) (CityCoords (0, 3)%float) true 1).2
  = (process grid_distance gazetteer no_sleep shelf
       (set_files (finder []) ["a.parquet"%string])
       (CityCoords (0, 0)%float) (CityCoords (0, 3)%float) true 1).2.
Proof.
  apply (process_files_independent grid_distance gazetteer no_sleep shelf
           (finder []) ["a.parquet"%string; "xy.parquet"%string] ["a.parquet"%string]
           (CityCoords (0, 0)%float) (CityCoords (0, 3)%float) true 1%float).
  reflexivity.
Defined.

Lemma process_skips_unusable_file_witness :
  available_files
    (process grid_distance gazetteer no_sleep shelf
       (set_files (finder []) (["a.parquet"%string] ++ "xy.parquet"%string :: []))
       (CityCoords (0, 0)%float) (CityCoords (0, 3)%float) true 1).1
  = available_files
      (process grid_distance gazetteer no_sleep shelf
         (set_files (finder []) (["a.parquet"%string] ++ []))
         (CityCoords (0, 0)%float) (CityCoords (0, 3)%float) true 1).1 /\
  (process grid_distance gazetteer no_sleep shelf
     (set_files (finder []) (["a.parquet"%string] ++ "xy.parquet"%string :: []))
     (CityCoords (0, 0)%float) (CityCoords (0, 3)%float) true 1).2
  = (process grid_distance gazetteer no_sleep shelf
       (set_files (finder []) (["a.parquet"%string] ++ []))
       (CityCoords (0, 0)%float) (CityCoords (0, 3)%float) true 1).2.
Proof.
  apply (process_skips_unusable_file grid_distance gazetteer no_sleep shelf
           (finder []) ["a.parquet"%string] [] "xy.parquet"
           (CityCoords (0, 0)%float) (CityCoords (0, 3)%float) true 1%float).
  intros df H. injection H as <-. reflexivity.
Defined.

Lemma process_aborts_on_distance_error_witness :
  (process grid_distance gazetteer no_sleep shelf
     (set_files (finder []) (["a.parquet"%string] ++ "off.parquet"%string
                               :: ["a.parquet"%string]))
     (CityCoords (0, 0)%float) (CityCoords (0, 3)%float) true 1).2
  = Raise (ValueError "Latitude must be in the [-90; 90] range.") /\
  available_files
    (process grid_distance gazetteer no_sleep shelf
       (set_files (finder []) (["a.parquet"%string] ++ "off.parquet"%string
                                 :: ["a.parquet"%string]))
       (CityCoords (0, 0)%float) (CityCoords (0, 3)%float) true 1).1
  = available_files
      (process grid_distance gazetteer no_sleep shelf
         (set_files (finder []) ["a.parquet"%string])
         (CityCoords (0, 0)%float) (CityCoords (0, 3)%float) true 1).1.
Proof.
  apply (process_aborts_on_distance_error grid_distance gazetteer no_sleep shelf
           (finder []) ["a.parquet"%string] ["a.parquet"%string] "off.parquet"
           (CityCoords (0, 0)%float) (CityCoords (0, 3)%float)
           (0, 0)%float (0, 3)%float true 1%float
           (labelled_frame [(0, [0; 0]%float); (1, [100; 1]%float)])
           (ValueError "Latitude must be in the [-90; 90] range."));
    reflexivity.
Defined.

Lemma process_swallows_geocoder_error_witness :
  (process grid_distance gazetteer no_sleep shelf (finder ["a.parquet"%string])
     (CityName "") (CityCoords (0, 3)%float) true 1).2 = Ret tt /\
  available_files
    (process grid_distance gazetteer no_sleep shelf (finder ["a.parquet"%string])
       (CityName "") (CityCoords (0, 3)%float) true 1).1 = [].
Proof.
  apply (process_swallows_geocoder_error grid_distance gazetteer no_sleep shelf
           (finder ["a.parquet"%string]) "" (CityCoords (0, 3)%float) true 1%float
           (ValueError "empty query"));
    reflexivity.
Defined.

(** ** The cache of the geocoder *)

(** X17: the answer of the geolocator is remembered, a position as well
    as "not found".  After a lookup of a name that was not in the cache,
    on which the geolocator and the pause returned, the same name asked
    again gets the same answer with the object left as it is, whatever the
    geolocator and the pause would do then; the entries of the other names
    are untouched. *)
Theorem geocode_remembers_answer
    (geolocator_geocode geolocator_geocode' : string -> outcome (option coords))
    (time_sleep time_sleep' : float -> outcome unit)
    (self : Find_with_zone) (name : string) (loc : option coords) :
  _geocode_cache self !! name = None ->
  geolocator_geocode name = Ret loc ->
  time_sleep (geocode_delay self) = Ret tt ->
  (_geocode geolocator_geocode time_sleep self (CityName name)).2 = loc /\
  _geocode geolocator_geocode' time_sleep'
    (_geocode geolocator_geocode time_sleep self (CityName name)).1 (CityName name)
  = ((_geocode geolocator_geocode time_sleep self (CityName name)).1, loc) /\
  forall other, other <> name ->
    _geocode_cache (_geocode geolocator_geocode time_sleep self (CityName name)).1
      !! other = _geocode_cache self !! other.
Proof.
  intros Hmiss Hgeo Hsleep.
  assert (_geocode geolocator_geocode time_sleep self (CityName name)
          = (set_cache self (<[name := loc]> (_geocode_cache self)), loc)) as ->.
  { unfold _geocode. rewrite Hmiss, Hgeo. cbn [bind]. rewrite Hsleep. cbn [bind].
    destruct loc; reflexivity. }
  cbn [fst snd]. split; [reflexivity|]. split.
  - unfold _geocode. cbn [_geocode_cache set_cache].
    rewrite lookup_insert_eq. reflexivity.
  - intros other Hne. cbn [_geocode_cache set_cache].
    apply lookup_insert_ne. congruence.
Qed.

Lemma geocode_remembers_answer_witness :
  (_geocode gazetteer no_sleep (finder []) (CityName "Ys")).2 = None /\
  _geocode (fun _ => Ret (Some (48, -4)%float)) no_sleep
    (_geocode gazetteer no_sleep (finder []) (CityName "Ys")).1 (CityName "Ys")
  = ((_geocode gazetteer no_sleep (finder []) (CityName "Ys")).1, None) /\
  forall other, other <> "Ys"%string ->
    _geocode_cache (_geocode gazetteer no_sleep (finder []) (CityName "Ys")).1
      !! other = _geocode_cache (finder []) !! other.
Proof.
  apply (geocode_remembers_answer gazetteer (fun _ => Ret (Some (48, -4)%float))
           no_sleep no_sleep (finder []) "Ys" None);
    reflexivity.
Defined.

(** ** The finder and the simplifier together *)

Lemma py_getitem_first {A} (l : list A) :
  py_getitem l 0 = match head l with Some x => Ret x | None => Raise IndexError end.
Proof.
  unfold py_getitem, py_norm, len. destruct l as [|x l]; [reflexivity|].
  cbn [length head]. change (0 <? 0) with false. cbv iota.
  replace (0 <? Z.of_nat (S (length l))) with true
    by (symmetry; apply Z.ltb_lt; lia).
  reflexivity.
Qed.

Lemma py_getitem_last {A} (l : list A) :
  py_getitem l (-1) = match last l with Some x => Ret x | None => Raise IndexError end.
Proof.
  unfold py_getitem, py_norm, len. change (-1 <? 0) with true. cbv iota.
  destruct l as [|x l] using rev_ind; [reflexivity|].
  rewrite last_snoc, length_app. cbn [length].
  replace (-1 + Z.of_nat (length l + 1)) with (Z.of_nat (length l)) by lia.
  replace (0 <=? Z.of_nat (length l)) with true
    by (symmetry; apply Z.leb_le; lia).
  replace (Z.of_nat (length l) <? Z.of_nat (length l + 1)) with true
    by (symmetry; apply Z.ltb_lt; lia).
  cbn [andb]. rewrite Nat2Z.id.
  rewrite lookup_app_r by lia. rewrite Nat.sub_diag. reflexivity.
Qed.

Lemma extraire_depart_arrivee_ends (df df' : DataFrame) :
  df_columns df' = df_columns df ->
  head (df_rows df') = head (df_rows df) ->
  last (df_rows df') = last (df_rows df) ->
  extraire_depart_arrivee df' = extraire_depart_arrivee df.
Proof.
  intros Hc Hh Hl. unfold extraire_depart_arrivee, df_empty, df_cell.
  rewrite !py_getitem_first, !py_getitem_last, Hc, Hh, Hl.
  assert ((length (df_rows df') =? 0)%nat = (length (df_rows df) =? 0)%nat) as ->;
    [|reflexivity].
  destruct (df_rows df') as [|r' l'], (df_rows df) as [|r l];
    try reflexivity; discriminate.
Qed.

Lemma df_coords_rows (df : DataFrame) :
  has_column df "latitude" && has_column df "longitude" = true ->
  exists f : list float -> coords, forall df',
    df_columns df' = df_columns df -> df_coords df' = Ret (f <$> df_rows df').
Proof.
  intros H. apply andb_true_iff in H as [Hlat Hlon]. unfold has_column in *.
  destruct (col_index "latitude" (df_columns df)) as [c1|] eqn:E1; [|discriminate].
  destruct (col_index "longitude" (df_columns df)) as [c2|] eqn:E2; [|discriminate].
  exists (fun row => (nth c1 row nan, nth c2 row nan)).
  intros df' Hc. unfold df_coords, df_column. rewrite Hc, E1, E2. cbn [bind].
  f_equal. induction (df_rows df') as [|r l IH]; [reflexivity|].
  cbn. f_equal. exact IH.
Qed.

Lemma infinity_not_below (x : float) : (infinity <? x)%float = false.
Proof.
  rewrite ltb_spec. change (Prim2SF infinity) with (S754_infinity false).
  destruct (Prim2SF x) as [s|[|]| |s m e]; reflexivity.
Qed.

Section FinderOnSimplified.
Variable np_cos : float -> float.
Variable np_mean : list float -> float.
Variable geo_distance_km : coords -> coords -> outcome float.

Lemma nearest_scan_defined (point : coords) (rows : list (Z * coords)) :
  forall bi bd r,
  nearest_scan geo_distance_km point bi bd rows = Ret r ->
  exists ds, Forall2 (fun row d => geo_distance_km row.2 point = Ret d) rows ds.
Proof.
  induction rows as [|[i row] rows IH]; intros bi bd r H; [exists []; constructor|].
  cbn [nearest_scan] in H.
  destruct (geo_distance_km row point) as [d| |] eqn:Hd; try discriminate.
  cbn [bind] in H.
  destruct (d <? bd)%float; apply IH in H as [ds Hds];
    exists (d :: ds); constructor; assumption.
Qed.

Lemma distances_sublist (point : coords) (rows rows' : list coords) (ds : list float) :
  rows' `sublist_of` rows ->
  Forall2 (fun row d => geo_distance_km row point = Ret d) rows ds ->
  exists ds', Forall2 (fun row d => geo_distance_km row point = Ret d) rows' ds' /\
              ds' `sublist_of` ds.
Proof.
  intros Hsub. revert ds.
  induction Hsub as [|x l1 l2 _ IH|x l1 l2 _ IH]; intros ds Hds.
  - exists []. split; [constructor|apply sublist_nil_l].
  - apply Forall2_cons_inv_l in Hds as (d & ds0 & Hd & Hds0 & ->).
    destruct (IH ds0 Hds0) as (ds' & H1 & H2).
    exists (d :: ds'). split; [constructor; assumption|apply sublist_skip; exact H2].
  - apply Forall2_cons_inv_l in Hds as (d & ds0 & Hd & Hds0 & ->).
    destruct (IH ds0 Hds0) as (ds' & H1 & H2).
    exists ds'. split; [exact H1|apply sublist_cons; exact H2].
Qed.


(** X18: simplifying a track can only move it away from a point.  When
    the nearest row of a frame to a point is found, the table of the frame
    is simplified, and on the simplified table, whatever its index, the
    nearest row is found as well, at a distance that is not below the one
    on the frame itself. *)
Theorem nearest_point_after_simplify (self : GPSSimplifier) (df : Frame)
    (eps : option float) (point : coords) (idx : Z) (best : float) :
  find_nearest_point_index geo_distance_km df point = Ret (idx, best) ->
  exists df',
    simplify np_cos np_mean self (Table (frame_table df)) eps = Ret (Table df') /\
    forall fr', frame_table fr' = df' ->
      exists idx' best',
        find_nearest_point_index geo_distance_km fr' point = Ret (idx', best') /\
        (best' <? best)%float = false.
Proof.
  intros Hnear.
  assert (has_column (frame_table df) "latitude"
          && has_column (frame_table df) "longitude" = true) as Hcols.
  { unfold find_nearest_point_index, df_coords in Hnear.
    destruct (df_column (frame_table df) "latitude") as [lats| |] eqn:E1;
      try discriminate.
    destruct (df_column (frame_table df) "longitude") as [lons| |] eqn:E2;
      try discriminate.
    apply df_column_has in E1 as [-> _]. apply df_column_has in E2 as [-> _].
    reflexivity. }
  destruct (simplify_table_rows np_cos np_mean self (frame_table df) eps Hcols)
    as (df' & Hsimp & Hc & Hsub & _ & _).
  exists df'. split; [exact Hsimp|]. intros fr' <-.
  destruct (df_coords_rows (frame_table df) Hcols) as [f Hf].
  pose proof (Hf (frame_table df) eq_refl) as Hrows.
  pose proof (Hf (frame_table fr') Hc) as Hrows'.
  pose proof Hnear as Hrun. unfold find_nearest_point_index in Hrun.
  rewrite Hrows in Hrun. cbn [bind] in Hrun.
  apply nearest_scan_defined in Hrun as [ds0 Hds0].
  assert (exists ds, Forall2 (fun row d => geo_distance_km row point = Ret d)
                       (f <$> df_rows (frame_table df)) ds) as [ds Hds].
  { pose proof (df_coords_length _ _ Hrows) as Hlen.
    assert (length (frame_index df) = length (f <$> df_rows (frame_table df)))
      as Hlab.
    { rewrite Hlen. unfold frame_index, frame_table. cbn [df_rows].
      rewrite !length_fmap. reflexivity. }
    exists ds0. revert Hds0 Hlab. generalize (frame_index df).
    generalize (f <$> df_rows (frame_table df)). clear.
    intros rows labels. revert labels ds0.
    induction rows as [|row rows IH]; intros [|i labels] ds0 H Hlen;
      try discriminate.
    - inversion H. constructor.
    - cbn in H. inversion H as [|? d ? ds1 Hd Hrest]; subst.
      constructor; [exact Hd|]. apply (IH labels); [exact Hrest|].
      cbn in Hlen. lia. }
  destruct (distances_sublist point _ (f <$> df_rows (frame_table fr')) ds
              (fmap_sublist f _ _ Hsub) Hds) as (ds' & Hds' & Hsubd).
  destruct (find_nearest_bounds geo_distance_km df point _ ds Hrows Hds)
    as (i0 & b0 & Hrun0 & Hall & _).
  rewrite Hnear in Hrun0. injection Hrun0 as <- <-.
  destruct (find_nearest_bounds geo_distance_km fr' point _ ds' Hrows' Hds')
    as (idx' & best' & Hrun' & _ & Hbest').
  exists idx', best'. split; [exact Hrun'|].
  destruct Hbest' as [->|Hin].
  - apply infinity_not_below.
  - apply Hall. eapply elem_of_sublist; [exact Hin|exact Hsubd].
Qed.

(** X19: simplifying a track keeps its departure and its arrival.  On a
    table with both columns, extraire_depart_arrivee gives on the
    simplified table what it gives on the table itself. *)
Theorem depart_arrivee_after_simplify (self : GPSSimplifier) (df : DataFrame)
    (eps : option float) :
  has_column df "latitude" && has_column df "longitude" = true ->
  exists df',
    simplify np_cos np_mean self (Table df) eps = Ret (Table df') /\
    extraire_depart_arrivee df' = extraire_depart_arrivee df.
Proof.
  intros Hcols.
  destruct (simplify_table_rows np_cos np_mean self df eps Hcols)
    as (df' & Hsimp & Hc & _ & Hh & Hl).
  exists df'. split; [exact Hsimp|].
  apply extraire_depart_arrivee_ends; assumption.
Qed.
End FinderOnSimplified.

Lemma nearest_point_after_simplify_witness :
  exists df',
    simplify cos_series mean_seq default_simplifier
      (Table (frame_table
                (labelled_frame [(10, [0; 0]%float); (20, [0; 1]%float);
                                 (30, [0; 2]%float)]))) None = Ret (Table df') /\
    forall fr', frame_table fr' = df' ->
      exists idx' best',
        find_nearest_point_index grid_distance fr' (0, 1)%float
        = Ret (idx', best') /\
        (best' <? 0)%float = false.
Proof.
  apply (nearest_point_after_simplify cos_series mean_seq grid_distance
           default_simplifier
           (labelled_frame [(10, [0; 0]%float); (20, [0; 1]%float);
                            (30, [0; 2]%float)]) None
           (0, 1)%float 20 0%float).
  reflexivity.
Defined.

Lemma depart_arrivee_after_simplify_witness :
  exists df',
    simplify cos_series mean_seq default_simplifier
      (Table (track_frame [[0; 0]; [0; 1]; [0; 2]]%float)) None = Ret (Table df') /\
    extraire_depart_arrivee df'
    = extraire_depart_arrivee (track_frame [[0; 0]; [0; 1]; [0; 2]]%float).
Proof.
  apply (depart_arrivee_after_simplify cos_series mean_seq default_simplifier
           (track_frame [[0; 0]; [0; 1]; [0; 2]]%float) None).
  reflexivity.
Defined.

Lemma process_widening_witness :
  (process grid_distance gazetteer no_sleep shelf
     (finder ["a.parquet"%string; "xy.parquet"%string])
     (CityCoords (0, 3)%float) (CityCoords (0, 0)%float) false 2).2
  = (process grid_distance gazetteer no_sleep shelf
       (finder ["a.parquet"%string; "xy.parquet"%string])
       (CityCoords (0, 3)%float) (CityCoords (0, 0)%float) true 1).2 /\
  rm_file <$> available_files
    (process grid_distance gazetteer no_sleep shelf
       (finder ["a.parquet"%string; "xy.parquet"%string])
       (CityCoords (0, 3)%float) (CityCoords (0, 0)%float) true 1).1
    `sublist_of`
  rm_file <$> available_files
    (process grid_distance gazetteer no_sleep shelf
       (finder ["a.parquet"%string; "xy.parquet"%string])
       (CityCoords (0, 3)%float) (CityCoords (0, 0)%float) false 2).1.
Proof.
  apply (process_widening grid_distance gazetteer no_sleep shelf
           (finder ["a.parquet"%string; "xy.parquet"%string])
           (CityCoords (0, 3)%float) (CityCoords (0, 0)%float) true false 1%float
           2%float).
  - reflexivity.
  - discriminate.
Defined.

(** * The length of a track in algo/seee_after.py *)

(** [range(lo, hi)] *)
Definition py_range (lo hi : Z) : list Z :=
  (fun j => lo + Z.of_nat j) <$> seq 0 (Z.to_nat (hi - lo)).

Section GpxDistance.
Variable geo_distance_km : coords -> coords -> outcome float.

(** The loop of [calculate_gpx_distance] over the indices [idxs]. *)
Fixpoint gpx_segments (lats lons : list float) (total_distance : float)
    (idxs : list Z) : outcome float :=
  match idxs with
  | [] => Ret total_distance
  | i :: rest =>
      call lat1 <~ py_getitem lats (i - 1) ;
      call lon1 <~ py_getitem lons (i - 1) ;
      call lat2 <~ py_getitem lats i ;
      call lon2 <~ py_getitem lons i ;
      call d <~ geo_distance_km (lat1, lon1) (lat2, lon2) ;
      gpx_segments lats lons (total_distance + d)%float rest
  end.

Definition calculate_gpx_distance (lats lons : list float) : outcome float :=
  gpx_segments lats lons 0%float (py_range 1 (len lats)).

Lemma gpx_segments_drop (lats lons : list float) :
  length lats = length lons ->
  forall m k total, (k + m + 1 = length lats)%nat ->
  gpx_segments lats lons total (Z.of_nat <$> seq (S k) m)
  = sum_segments geo_distance_km total (drop k (zip lats lons)).
Proof.
  intros Hlen. induction m as [|m IH]; intros k total Hk.
  - destruct (lookup_lt_is_Some_2 (zip lats lons) k) as [c Hc].
    { rewrite length_zip. lia. }
    rewrite (drop_S _ _ _ Hc), drop_ge by (rewrite length_zip; lia).
    reflexivity.
  - destruct (lookup_lt_is_Some_2 lats k) as [a1 Ha1]; [lia|].
    destruct (lookup_lt_is_Some_2 lons k) as [o1 Ho1]; [lia|].
    destruct (lookup_lt_is_Some_2 lats (S k)) as [a2 Ha2]; [lia|].
    destruct (lookup_lt_is_Some_2 lons (S k)) as [o2 Ho2]; [lia|].
    assert (zip lats lons !! k = Some (a1, o1)) as Hc1.
    { rewrite lookup_zip_with, Ha1, Ho1. reflexivity. }
    assert (zip lats lons !! S k = Some (a2, o2)) as Hc2.
    { rewrite lookup_zip_with, Ha2, Ho2. reflexivity. }
    rewrite (drop_S _ _ _ Hc1), (drop_S _ _ _ Hc2).
    cbn [seq fmap list_fmap gpx_segments sum_segments].
    replace (Z.of_nat (S k) - 1) with (Z.of_nat k) by lia.
    rewrite (py_getitem_nat _ _ _ Ha1), (py_getitem_nat _ _ _ Ho1),
            (py_getitem_nat _ _ _ Ha2), (py_getitem_nat _ _ _ Ho2).
    cbn [bind].
    destruct (geo_distance_km (a1, o1) (a2, o2)) as [d| |]; try reflexivity.
    cbn [bind].
    change (list_fmap _ _ Z.of_nat (seq (S (S k)) m))
      with (Z.of_nat <$> seq (S (S k)) m).
    rewrite (IH (S k)) by lia.
    rewrite (drop_S _ _ _ Hc2). reflexivity.
Qed.

Lemma py_range_from_one (n : nat) :
  py_range 1 (Z.of_nat n) = Z.of_nat <$> seq 1 (n - 1).
Proof.
  unfold py_range. replace (Z.to_nat (Z.of_nat n - 1)) with (n - 1)%nat by lia.
  rewrite <- fmap_S_seq, <- list_fmap_compose.
  apply list_fmap_ext. intros _ j _. cbn. lia.
Qed.

(** X22: two ways to the same length.  On the latitude and longitude
    columns of a table, calculate_gpx_distance of seee_after.py ends as
    route_length_km of the route finder does on the table: with the same
    length, or with the same exception of the distance. *)
Theorem calculate_gpx_distance_is_route_length (df : DataFrame)
    (lats lons : list float) :
  df_column df "latitude" = Ret lats ->
  df_column df "longitude" = Ret lons ->
  calculate_gpx_distance lats lons = route_length_km geo_distance_km df.
Proof.
  intros Hlat Hlon. unfold route_length_km, df_coords, calculate_gpx_distance, len.
  rewrite Hlat, Hlon. cbn [bind].
  apply df_column_has in Hlat as [_ Llat]. apply df_column_has in Hlon as [_ Llon].
  assert (length lats = length lons) as Hlen by congruence.
  rewrite py_range_from_one, length_zip_with, <- Hlen, Nat.min_id.
  destruct lats as [|a1 lats].
  { destruct lons; [reflexivity|discriminate]. }
  rewrite (gpx_segments_drop _ _ Hlen (length (a1 :: lats) - 1) 0)
    by (cbn [length]; lia).
  rewrite drop_0.
  destruct lons as [|o1 lons]; [discriminate|].
  destruct lats as [|a2 lats], lons as [|o2 lons]; try discriminate; reflexivity.
Qed.
End GpxDistance.

Lemma calculate_gpx_distance_is_route_length_witness :
  calculate_gpx_distance grid_distance [0; 0; 2]%float [0; 1; 1]%float
  = route_length_km grid_distance (track_frame [[0; 0]; [0; 1]; [2; 1]]%float).
Proof.
  apply (calculate_gpx_distance_is_route_length grid_distance
           (track_frame [[0; 0]; [0; 1]; [2; 1]]%float)
           [0; 0; 2]%float [0; 1; 1]%float);
    reflexivity.
Defined.
